(** * AI Slide with nano banana: the front-end store, the chat stream hook,
      the slide-generation hook, and the orchestration core of the spec.

    The first three parts embed TypeScript sources:
    - [frontend/src/lib/types.ts] (data model),
    - [frontend/src/lib/store.ts] (the zustand store [useStore]),
    - the [useChatStream] hook and the [useSlideGeneration] hook.
    The last part models the Supervisor and the Consistency Engine, whose
    Python sources ([src/graph/nodes.py]) are not part of the tree. *)

From Stdlib Require Import ZArith Lia.
From stdpp Require Import base option list strings gmap pretty.

Local Open Scope Z_scope.
Local Open Scope string_scope.

(** ** Data model: [frontend/src/lib/types.ts] *)

Inductive Role :=
| user | assistant | system | researcher | storywriter | visualizer
| planner | data_analyst | coordinator | reviewer.

(** [ChatMessage.content] is declared [string]; [appendMessageContent] still
    tests [typeof m.content === 'string'] at run time, so both shapes are kept. *)
Inductive Content :=
| Str (s : string)
| NonStr (tag : nat).

Record ChatMessage := {
  msg_id : string;
  msg_role : Role;
  msg_content : Content;
  msg_timestamp : Z;
  msg_agentName : option string;
  msg_isThinking : option bool
}.

Inductive LogStatus := running | completed | failed | pending.

Record AgentLog := {
  log_id : string;
  log_agent : string;
  log_step : string;
  log_status : LogStatus;
  log_timestamp : Z;
  log_details : option string
}.

Inductive ArtifactType := report | outline | image | code | plan.

(** [content: any] is opaque to the store; it is carried as a string. *)
Record Artifact := {
  art_id : string;
  art_type : ArtifactType;
  art_title : string;
  art_content : string;
  art_version : Z;
  art_timestamp : Z
}.

(** [Partial<Artifact>]: [None] is an absent key. *)
Record PartialArtifact := {
  p_id : option string;
  p_type : option ArtifactType;
  p_title : option string;
  p_content : option string;
  p_version : option Z;
  p_timestamp : option Z
}.

Record Session := {
  ses_id : string;
  ses_title : string;
  ses_timestamp : string;
  ses_summary : option string
}.

Record User := {
  uid : string;
  email : option string;
  displayName : option string;
  photoURL : option string
}.

(** Object spread [{ ...a, ...u }]: the keys present in [u] win. *)
Definition spread (a : Artifact) (u : PartialArtifact) : Artifact :=
  {| art_id := default (art_id a) (p_id u);
     art_type := default (art_type a) (p_type u);
     art_title := default (art_title a) (p_title u);
     art_content := default (art_content a) (p_content u);
     art_version := default (art_version a) (p_version u);
     art_timestamp := default (art_timestamp a) (p_timestamp u) |}.

(** A full [Artifact] seen as a [Partial<Artifact>]: every key is present. *)
Definition as_partial (b : Artifact) : PartialArtifact :=
  {| p_id := Some (art_id b);
     p_type := Some (art_type b);
     p_title := Some (art_title b);
     p_content := Some (art_content b);
     p_version := Some (art_version b);
     p_timestamp := Some (art_timestamp b) |}.

(** ** The store: [frontend/src/lib/store.ts] *)

Record AppState := {
  st_user : option User;
  currentSessionId : option string;
  sessions : list Session;
  messages : list ChatMessage;
  logs : list AgentLog;
  isStreaming : bool;
  artifacts : list Artifact;
  activeArtifactId : option string;
  isSidebarOpen : bool;
  messageInput : string
}.

(** The object passed to [create]. *)
Definition initialState : AppState :=
  {| st_user := None;
     currentSessionId := None;
     sessions := [];
     messages := [];
     logs := [];
     isStreaming := false;
     artifacts := [];
     activeArtifactId := None;
     isSidebarOpen := true;
     messageInput := "" |}.

(** zustand's [set({ k: v })] merges one key into the state. *)
Definition with_messages (ms : list ChatMessage) (s : AppState) : AppState :=
  {| st_user := st_user s; currentSessionId := currentSessionId s;
     sessions := sessions s; messages := ms; logs := logs s;
     isStreaming := isStreaming s; artifacts := artifacts s;
     activeArtifactId := activeArtifactId s;
     isSidebarOpen := isSidebarOpen s; messageInput := messageInput s |}.

Definition with_logs (ls : list AgentLog) (s : AppState) : AppState :=
  {| st_user := st_user s; currentSessionId := currentSessionId s;
     sessions := sessions s; messages := messages s; logs := ls;
     isStreaming := isStreaming s; artifacts := artifacts s;
     activeArtifactId := activeArtifactId s;
     isSidebarOpen := isSidebarOpen s; messageInput := messageInput s |}.

Definition with_artifacts (l : list Artifact) (s : AppState) : AppState :=
  {| st_user := st_user s; currentSessionId := currentSessionId s;
     sessions := sessions s; messages := messages s; logs := logs s;
     isStreaming := isStreaming s; artifacts := l;
     activeArtifactId := activeArtifactId s;
     isSidebarOpen := isSidebarOpen s; messageInput := messageInput s |}.

Definition setUser (u : option User) (s : AppState) : AppState :=
  {| st_user := u; currentSessionId := currentSessionId s;
     sessions := sessions s; messages := messages s; logs := logs s;
     isStreaming := isStreaming s; artifacts := artifacts s;
     activeArtifactId := activeArtifactId s;
     isSidebarOpen := isSidebarOpen s; messageInput := messageInput s |}.

Definition setCurrentSessionId (id : option string) (s : AppState) : AppState :=
  {| st_user := st_user s; currentSessionId := id;
     sessions := sessions s; messages := messages s; logs := logs s;
     isStreaming := isStreaming s; artifacts := artifacts s;
     activeArtifactId := activeArtifactId s;
     isSidebarOpen := isSidebarOpen s; messageInput := messageInput s |}.

Definition setSessions (l : list Session) (s : AppState) : AppState :=
  {| st_user := st_user s; currentSessionId := currentSessionId s;
     sessions := l; messages := messages s; logs := logs s;
     isStreaming := isStreaming s; artifacts := artifacts s;
     activeArtifactId := activeArtifactId s;
     isSidebarOpen := isSidebarOpen s; messageInput := messageInput s |}.

(** [state.messages.find(m => m.id === msg.id)]; a found message is an
    object, hence truthy. *)
Definition addMessage (msg : ChatMessage) (s : AppState) : AppState :=
  match find (fun m => bool_decide (msg_id m = msg_id msg)) (messages s) with
  | Some _ => s
  | None => with_messages (messages s ++ [msg]) s
  end.

Definition append_content (c : Content) (extra : string) : Content :=
  match c with
  | Str t => Str (t ++ extra)
  | NonStr _ => c
  end.

Definition appendMessageContent (id content : string) (s : AppState) : AppState :=
  with_messages
    (map (fun m =>
            if bool_decide (msg_id m = id)
            then {| msg_id := msg_id m; msg_role := msg_role m;
                    msg_content := append_content (msg_content m) content;
                    msg_timestamp := msg_timestamp m;
                    msg_agentName := msg_agentName m;
                    msg_isThinking := msg_isThinking m |}
            else m)
         (messages s)) s.

Definition setMessages (ms : list ChatMessage) (s : AppState) : AppState :=
  with_messages ms s.

Definition addLog (log : AgentLog) (s : AppState) : AppState :=
  with_logs (logs s ++ [log]) s.

Definition clearLogs (s : AppState) : AppState :=
  with_logs [] s.

Definition setIsStreaming (v : bool) (s : AppState) : AppState :=
  {| st_user := st_user s; currentSessionId := currentSessionId s;
     sessions := sessions s; messages := messages s; logs := logs s;
     isStreaming := v; artifacts := artifacts s;
     activeArtifactId := activeArtifactId s;
     isSidebarOpen := isSidebarOpen s; messageInput := messageInput s |}.

Definition addArtifact (artifact : Artifact) (s : AppState) : AppState :=
  match find (fun a => bool_decide (art_id a = art_id artifact)) (artifacts s) with
  | Some _ =>
      with_artifacts
        (map (fun a => if bool_decide (art_id a = art_id artifact)
                       then spread a (as_partial artifact) else a)
             (artifacts s)) s
  | None => with_artifacts (artifacts s ++ [artifact]) s
  end.

Definition updateArtifact (id : string) (updates : PartialArtifact)
    (s : AppState) : AppState :=
  with_artifacts
    (map (fun a => if bool_decide (art_id a = id) then spread a updates else a)
         (artifacts s)) s.

Definition setActiveArtifactId (id : option string) (s : AppState) : AppState :=
  {| st_user := st_user s; currentSessionId := currentSessionId s;
     sessions := sessions s; messages := messages s; logs := logs s;
     isStreaming := isStreaming s; artifacts := artifacts s;
     activeArtifactId := id;
     isSidebarOpen := isSidebarOpen s; messageInput := messageInput s |}.

Definition toggleSidebar (s : AppState) : AppState :=
  {| st_user := st_user s; currentSessionId := currentSessionId s;
     sessions := sessions s; messages := messages s; logs := logs s;
     isStreaming := isStreaming s; artifacts := artifacts s;
     activeArtifactId := activeArtifactId s;
     isSidebarOpen := negb (isSidebarOpen s); messageInput := messageInput s |}.

Definition setMessageInput (v : string) (s : AppState) : AppState :=
  {| st_user := st_user s; currentSessionId := currentSessionId s;
     sessions := sessions s; messages := messages s; logs := logs s;
     isStreaming := isStreaming s; artifacts := artifacts s;
     activeArtifactId := activeArtifactId s;
     isSidebarOpen := isSidebarOpen s; messageInput := v |}.

(** Every action the store exposes, and its effect. *)
Inductive Action :=
| ASetUser (u : option User)
| ASetCurrentSessionId (id : option string)
| ASetSessions (l : list Session)
| AAddMessage (msg : ChatMessage)
| AAppendMessageContent (id content : string)
| ASetMessages (ms : list ChatMessage)
| AAddLog (log : AgentLog)
| AClearLogs
| ASetIsStreaming (v : bool)
| AAddArtifact (artifact : Artifact)
| AUpdateArtifact (id : string) (updates : PartialArtifact)
| ASetActiveArtifactId (id : option string)
| AToggleSidebar
| ASetMessageInput (v : string).

Definition dispatch (act : Action) (s : AppState) : AppState :=
  match act with
  | ASetUser u => setUser u s
  | ASetCurrentSessionId id => setCurrentSessionId id s
  | ASetSessions l => setSessions l s
  | AAddMessage msg => addMessage msg s
  | AAppendMessageContent id content => appendMessageContent id content s
  | ASetMessages ms => setMessages ms s
  | AAddLog log => addLog log s
  | AClearLogs => clearLogs s
  | ASetIsStreaming v => setIsStreaming v s
  | AAddArtifact artifact => addArtifact artifact s
  | AUpdateArtifact id updates => updateArtifact id updates s
  | ASetActiveArtifactId id => setActiveArtifactId id s
  | AToggleSidebar => toggleSidebar s
  | ASetMessageInput v => setMessageInput v s
  end.

Definition is_clearLogs (act : Action) : bool :=
  match act with AClearLogs => true | _ => false end.

(** A run of actions, applied left to right. *)
Definition run (acts : list Action) (s : AppState) : AppState :=
  fold_left (fun st act => dispatch act st) acts s.

(** The stored entry for an id: the first one [find] meets. *)
Definition artifact_of (id : string) (s : AppState) : option Artifact :=
  find (fun a => bool_decide (art_id a = id)) (artifacts s).

(** ** The chat stream hook: [useChatStream]

    Handlers run against the store, the per-stream [seenMessageIds] set
    and the console; a handler either returns or throws. *)

Inductive JsError :=
| ReferenceError (name : string)
| SyntaxError
| TypeError
| ConnectError (status : Z)
| NetworkError (reason : string)
| AbortError.

Record World := {
  store : AppState;
  seenMessageIds : gset string;
  console : list (string * JsError)
}.

Definition M (A : Type) : Type := World -> (A + JsError) * World.

Definition ret {A} (x : A) : M A := fun w => (inl x, w).

Definition throw {A} (e : JsError) : M A := fun w => (inr e, w).

Definition bind {A B} (m : M A) (k : A -> M B) : M B :=
  fun w => match m w with
           | (inl x, w') => k x w'
           | (inr e, w') => (inr e, w')
           end.

(** [try { body } catch (e) { handler }] *)
Definition try_catch {A} (body : M A) (handler : JsError -> M A) : M A :=
  fun w => match body w with
           | (inl x, w') => (inl x, w')
           | (inr e, w') => handler e w'
           end.

#[local] Instance M_ret : MRet M := @ret.
#[local] Instance M_bind : MBind M := fun A B k m => bind m k.

Definition on_store (f : AppState -> AppState) : M unit :=
  fun w => (inl tt, {| store := f (store w);
                       seenMessageIds := seenMessageIds w;
                       console := console w |}).

Definition seen_has (id : string) : M bool :=
  fun w => (inl (bool_decide (id ∈ seenMessageIds w)), w).

Definition seen_add (id : string) : M unit :=
  fun w => (inl tt, {| store := store w;
                       seenMessageIds := {[id]} ∪ seenMessageIds w;
                       console := console w |}).

Definition seen_reset : M unit :=
  fun w => (inl tt, {| store := store w;
                       seenMessageIds := ∅;
                       console := console w |}).

Definition console_error (label : string) (e : JsError) : M unit :=
  fun w => (inl tt, {| store := store w;
                       seenMessageIds := seenMessageIds w;
                       console := console w ++ [(label, e)] |}).

(** The names [useChatStream] destructures from [useStore()]. *)
Definition destructured : list string :=
  ["addMessage"; "addLog"; "addArtifact"; "setIsStreaming";
   "currentSessionId"; "setActiveArtifactId"].

(** Calling a store action by the identifier written in the hook: an
    identifier that is not bound in the hook's scope is a [ReferenceError]. *)
Definition call (name : string) (act : Action) : M unit :=
  if bool_decide (name ∈ destructured)
  then on_store (dispatch act)
  else throw (ReferenceError name).

(** A string is truthy when it is not empty. *)
Definition truthy (s : string) : bool := negb (bool_decide (s = "")).

(** [EventSourceMessage] of the event-source library. *)
Record EventSourceMessage := {
  ev_id : string;
  ev_event : string;
  ev_data : string
}.

(** The fields the handler reads from [JSON.parse(ev.data)], at the types
    the [AgentLog] and [Artifact] interfaces give them; an absent key is
    [None]. *)
Record Payload := {
  agent_name : option string;
  d_id : string;
  d_type : ArtifactType;
  d_title : string;
  d_content : string;
  d_version : option Z
}.

(** [JSON.parse] throws, returns [null], or returns a value whose
    properties can be read. *)
Inductive Parsed :=
| ParseThrows
| ParsedNull
| ParsedObject (data : Payload).

(** [data.agent_name || "System"] *)
Definition agent_or_System (data : Payload) : string :=
  match agent_name data with
  | Some n => if truthy n then n else "System"
  | None => "System"
  end.

(** [data.version || 1] *)
Definition version_or_1 (data : Payload) : Z :=
  match d_version data with
  | Some v => if bool_decide (v = 0) then 1 else v
  | None => 1
  end.

(** [ev.id || `msg-${Date.now()}`] *)
Definition msgId_of (now : Z) (ev : EventSourceMessage) : string :=
  if truthy (ev_id ev) then ev_id ev else "msg-" ++ pretty now.

Section Stream.

(** [JSON.parse], a builtin. *)
Variable JSON_parse : string -> Parsed.

(** Reading a property of the parsed value: [null] has none. *)
Definition parsed_data (raw : string) : M (option Payload) :=
  match JSON_parse raw with
  | ParseThrows => throw SyntaxError
  | ParsedNull => ret None
  | ParsedObject data => ret (Some data)
  end.

Definition member (data : option Payload) : M Payload :=
  match data with
  | Some d => ret d
  | None => throw TypeError
  end.

Definition onmessage_body (now : Z) (ev : EventSourceMessage) : M unit :=
  if bool_decide (ev_event ev = "message") then
    let content := ev_data ev in
    let msgId := msgId_of now ev in
    if truthy content then
      has ← seen_has msgId;
      if negb has then
        seen_add msgId ;;
        call "addMessage"
          (AAddMessage {| msg_id := msgId; msg_role := assistant;
                          msg_content := Str content; msg_timestamp := now;
                          msg_agentName := None; msg_isThinking := None |})
      else
        call "appendMessageContent" (AAppendMessageContent msgId content)
    else ret tt
  else
    data ← parsed_data (ev_data ev);
    if bool_decide (ev_event ev = "start_of_agent")
       || bool_decide (ev_event ev = "on_chain_start") then
      d ← member data;
      call "addLog"
        (AAddLog {| log_id := "log-" ++ pretty now;
                    log_agent := agent_or_System d;
                    log_step := "Started"; log_status := running;
                    log_timestamp := now; log_details := None |})
    else if bool_decide (ev_event ev = "end_of_agent")
            || bool_decide (ev_event ev = "on_chain_end") then
      d ← member data;
      call "addLog"
        (AAddLog {| log_id := "log-" ++ pretty now;
                    log_agent := agent_or_System d;
                    log_step := "Completed"; log_status := completed;
                    log_timestamp := now; log_details := None |})
    else if bool_decide (ev_event ev = "artifact") then
      d ← member data;
      let newArtifact :=
        {| art_id := d_id d; art_type := d_type d; art_title := d_title d;
           art_content := d_content d; art_version := version_or_1 d;
           art_timestamp := now |} in
      call "addArtifact" (AAddArtifact newArtifact) ;;
      call "setActiveArtifactId" (ASetActiveArtifactId (Some (art_id newArtifact)))
    else ret tt.

Definition onmessage (now : Z) (ev : EventSourceMessage) : M unit :=
  if negb (truthy (ev_data ev)) then ret tt
  else try_catch (onmessage_body now ev)
                 (fun e => console_error "Error parsing event data" e).

Definition onopen (ok : bool) (status : Z) : M unit :=
  if ok then ret tt else throw (ConnectError status).

(** [onerror] logs and rethrows; it never returns a retry interval. *)
Definition onerror (err : JsError) : M Z :=
  console_error "SSE Error" err ;; throw err.

Definition onclose : M unit :=
  call "setIsStreaming" (ASetIsStreaming false).

(** How one connection attempt ends: the server closes the stream, the
    stream breaks, or the page is hidden and the library aborts its own
    request. *)
Inductive Ending :=
| ServerClosed
| StreamBroke (err : JsError)
| PageHidden.

Record Attempt := {
  fetch_error : option JsError;
  response_ok : bool;
  response_status : Z;
  deliveries : list (Z * EventSourceMessage);
  ending : Ending
}.

Fixpoint deliver (evs : list (Z * EventSourceMessage)) : M unit :=
  match evs with
  | [] => ret tt
  | (now, ev) :: rest => onmessage now ev ;; deliver rest
  end.

(** One run of the library's [create]: fetch, [onopen], the messages, then
    [onclose]; whatever is thrown on the way goes to the library's catch. *)
Definition create_once (a : Attempt) : M unit :=
  match fetch_error a with
  | Some err => throw err
  | None =>
      onopen (response_ok a) (response_status a) ;;
      deliver (deliveries a) ;;
      match ending a with
      | ServerClosed => onclose
      | StreamBroke err => throw err
      | PageHidden => throw AbortError
      end
  end.

(** An attempt that gets as far as being cut by the page being hidden. *)
Definition cut_short (a : Attempt) : bool :=
  match fetch_error a, response_ok a, ending a with
  | None, true, PageHidden => true
  | _, _, _ => false
  end.

(** The library's [fetchEventSource] promise: it resolves after [onclose]
    and rejects with what [onerror] throws; it reconnects when [onerror]
    returns an interval, and also, without asking [onerror], once the page
    is visible again after its own abort. [true] is a settled promise;
    [false] is a promise still waiting for a reconnection the script does
    not contain. *)
Fixpoint fetchEventSource (attempts : list Attempt) : M bool :=
  match attempts with
  | [] => ret false
  | a :: rest =>
      try_catch (create_once a ;; ret true)
                (fun err =>
                   if cut_short a then fetchEventSource rest
                   else onerror err ;; fetchEventSource rest)
  end.

Definition startStream (attempts : list Attempt) : M bool :=
  call "setIsStreaming" (ASetIsStreaming true) ;;
  seen_reset ;;
  try_catch (fetchEventSource attempts)
            (fun err =>
               console_error "Stream failed" err ;;
               call "setIsStreaming" (ASetIsStreaming false) ;;
               ret true).

End Stream.

(** ** The slide-generation hook: [useSlideGeneration] *)

Record LayoutDef := { layout_id : string; visual_description : string }.

Record StyleDef := { global_prompt : string; layouts : list LayoutDef }.

Record Slide := {
  slide_id : Z;
  text_expected : bool;
  slide_layout_id : string;
  visual_prompt : string;
  content_text : string;
  tool : option string;
  reasoning : option string
}.

Record HookState := {
  imageUrl : option string;
  isGenerating : bool
}.

(** The body posted to [/api/generate-slide]. *)
Record GenerateRequest := {
  req_slide : Slide;
  req_style_def : option StyleDef
}.

(** What the server answers to one request: [fetch] rejects, the response
    is not ok, [res.json()] rejects, or the body is read and [data.url]
    is interpolated into the new url. *)
Inductive FetchOutcome :=
| FetchRejects
| NotOk
| BadJson
| Ok (url : string).

(** [if (imageUrl)]: [null] and the empty string are falsy. *)
Definition url_set (u : option string) : bool :=
  match u with
  | Some s => truthy s
  | None => false
  end.

(** [generateImage]: the state it leaves and the requests it issued. *)
Definition generateImage (slide : Slide) (styleDef : option StyleDef)
    (outcome : FetchOutcome) (now : Z) (h : HookState)
  : HookState * list GenerateRequest :=
  if url_set (imageUrl h) then (h, [])
  else
    let request := {| req_slide := slide; req_style_def := styleDef |} in
    match outcome with
    | Ok url =>
        ({| imageUrl := Some (url ++ "?t=" ++ pretty now);
            isGenerating := false |}, [request])
    | FetchRejects | NotOk | BadJson =>
        ({| imageUrl := None; isGenerating := false |}, [request])
    end.

(** ** The Consistency Engine (spec, section 4.3) *)

Module ConsistencyEngine.

Inductive Origin :=
| explicit_style
| first_slide_fallback
| reused_from_prior_session.

(** [image_bytes_ref] is an opaque handle; handles are numbered. *)
Record AnchorRef := {
  image_bytes_ref : nat;
  origin : Origin
}.

(** What a generation request asks for. *)
Inductive PromptSpec :=
| StyleOnlyPrompt (style : string)
| SlidePrompt (slide : nat).

(** One call of the Model Invocation Port's [generateImage(promptSpec,
    referenceImage?)]. *)
Record PortCall := {
  prompt : PromptSpec;
  referenceImage : option nat
}.

(** A call as the session keeps it: what was asked, and what the port
    returned, [Some h] the handle of the image produced, [None] an error. *)
Record Invocation := {
  issued : PortCall;
  returned : option nat
}.

(** How a session is opened: in edit mode against a prior session that
    recorded an anchor, and/or with an explicit style definition. *)
Record Opening := {
  prior_anchor : option AnchorRef;
  style_definition : option string
}.

Record EngineState := {
  opening : Opening;
  style_anchor : option AnchorRef;
  port_calls : list Invocation
}.

(** A request to the engine. An image request carries what the port
    answers to the dedicated style request and to the slide request, should
    the engine issue them. *)
Inductive Request :=
| ImageRequest (slide : nat) (style_answer slide_answer : option nat)
| Restyle.

(** Modelled from the spec: the engine's source ([src/graph/nodes.py], the
    Visualizer node) is missing. The session starts without an anchor. *)
Definition open (o : Opening) : EngineState :=
  {| opening := o; style_anchor := None; port_calls := [] |}.

Definition conditioned (slide : nat) (a : AnchorRef) : PortCall :=
  {| prompt := SlidePrompt slide; referenceImage := Some (image_bytes_ref a) |}.

(** Modelled from the spec: the selection algorithm of section 4.3, run
    when an image is requested and no anchor is set, in priority order:
    reused anchor, explicit style anchor, first-slide fallback. A call
    that fails stores no anchor, so the next image request selects again. *)
Definition select_and_generate (slide : nat)
    (style_answer slide_answer : option nat) (s : EngineState) : EngineState :=
  match prior_anchor (opening s) with
  | Some p =>
      let a := {| image_bytes_ref := image_bytes_ref p;
                  origin := reused_from_prior_session |} in
      {| opening := opening s; style_anchor := Some a;
         port_calls := port_calls s
                       ++ [{| issued := conditioned slide a;
                              returned := slide_answer |}] |}
  | None =>
      match style_definition (opening s) with
      | Some st =>
          let dedicated := {| prompt := StyleOnlyPrompt st;
                              referenceImage := None |} in
          match style_answer with
          | Some h =>
              let a := {| image_bytes_ref := h; origin := explicit_style |} in
              {| opening := opening s; style_anchor := Some a;
                 port_calls := port_calls s
                               ++ [{| issued := dedicated; returned := Some h |};
                                   {| issued := conditioned slide a;
                                      returned := slide_answer |}] |}
          | None =>
              {| opening := opening s; style_anchor := None;
                 port_calls := port_calls s
                               ++ [{| issued := dedicated; returned := None |}] |}
          end
      | None =>
          let normal := {| prompt := SlidePrompt slide;
                           referenceImage := None |} in
          match slide_answer with
          | Some h =>
              let a := {| image_bytes_ref := h;
                          origin := first_slide_fallback |} in
              {| opening := opening s; style_anchor := Some a;
                 port_calls := port_calls s
                               ++ [{| issued := normal; returned := Some h |}] |}
          | None =>
              {| opening := opening s; style_anchor := None;
                 port_calls := port_calls s
                               ++ [{| issued := normal; returned := None |}] |}
          end
      end
  end.

(** Modelled from the spec: one request. With an anchor set, the slide is
    generated conditioned on it and the anchor is left alone; restyle
    clears the anchor, so that the next image request selects again. *)
Definition handle (r : Request) (s : EngineState) : EngineState :=
  match r with
  | ImageRequest slide style_answer slide_answer =>
      match style_anchor s with
      | Some a =>
          {| opening := opening s; style_anchor := Some a;
             port_calls := port_calls s
                           ++ [{| issued := conditioned slide a;
                                  returned := slide_answer |}] |}
      | None => select_and_generate slide style_answer slide_answer s
      end
  | Restyle =>
      {| opening := opening s; style_anchor := None;
         port_calls := port_calls s |}
  end.

Definition serve (rs : list Request) (s : EngineState) : EngineState :=
  fold_left (fun st r => handle r st) rs s.

Definition is_restyle (r : Request) : bool :=
  match r with Restyle => true | ImageRequest _ _ _ => false end.

Definition restyles (rs : list Request) : nat :=
  length (List.filter is_restyle rs).

Definition slide_of (r : Request) : option nat :=
  match r with ImageRequest slide _ _ => Some slide | Restyle => None end.

(** Readings of the calls. An anchor-producing call is one issued without
    a reference image: the dedicated style request, or the slide generated
    normally under the fallback; its result, if there is one, becomes the
    anchor. *)
Definition anchor_producing (i : Invocation) : bool :=
  match referenceImage (issued i) with
  | None => true
  | Some _ => false
  end.

(** An anchor-producing call that the port answered with an image. *)
Definition produced_anchor (i : Invocation) : bool :=
  anchor_producing i && match returned i with Some _ => true | None => false end.

(** An anchor-producing call that the port answered with an error. *)
Definition failed_attempt (i : Invocation) : Prop :=
  anchor_producing i = true /\ returned i = None.

(** A slide call that carries the handle of [a] as its reference image. *)
Definition conditioned_on (a : AnchorRef) (i : Invocation) : Prop :=
  referenceImage (issued i) = Some (image_bytes_ref a)
  /\ exists slide, prompt (issued i) = SlidePrompt slide.

Definition count (f : Invocation -> bool) (l : list Invocation) : nat :=
  length (List.filter f l).

(** How the anchor [a] of a session opened with [o] was selected: adopted
    from the prior session without a call, or produced by one answered
    call, the dedicated style request when a style is given and the slide
    itself otherwise. *)
Definition selected_by (o : Opening) (a : AnchorRef)
    (selection : list Invocation) : Prop :=
  match prior_anchor o with
  | Some p =>
      a = {| image_bytes_ref := image_bytes_ref p;
             origin := reused_from_prior_session |}
      /\ selection = []
  | None =>
      match style_definition o with
      | Some st =>
          origin a = explicit_style
          /\ selection
             = [{| issued := {| prompt := StyleOnlyPrompt st;
                                referenceImage := None |};
                   returned := Some (image_bytes_ref a) |}]
      | None =>
          origin a = first_slide_fallback
          /\ exists slide,
               selection
               = [{| issued := {| prompt := SlidePrompt slide;
                                  referenceImage := None |};
                     returned := Some (image_bytes_ref a) |}]
      end
  end.

(** The calls of a session opened with [o]: failed attempts while no anchor
    is set; once it is set, the failed attempts, the selection, and then
    slide calls conditioned on the anchor. *)
Definition tidy (o : Opening) (s : EngineState) : Prop :=
  match style_anchor s with
  | None => Forall failed_attempt (port_calls s)
  | Some a =>
      exists failed selection later,
        port_calls s = (failed ++ selection ++ later)%list
        /\ Forall failed_attempt failed
        /\ selected_by o a selection
        /\ Forall (conditioned_on a) later
  end.

(** The first image request finds what its selection needs: a prior
    anchor, or an answer to the call it issues. *)
Definition selects (o : Opening) (style_answer slide_answer : option nat)
  : bool :=
  match prior_anchor o, style_definition o with
  | Some _, _ => true
  | None, Some _ => bool_decide (is_Some style_answer)
  | None, None => bool_decide (is_Some slide_answer)
  end.

End ConsistencyEngine.

(** ** The Supervisor (spec, sections 3, 4.1, 4.2, 6 and 7) *)

Module Supervisor.

Record Step := {
  step_id : Z;
  role : string;
  instruction : string;
  description : string;
  design_direction : option string
}.

Inductive Kind := k_outline | k_image | k_report | k_plan.

Record Artifact := {
  a_id : string;
  a_kind : Kind;
  a_title : string;
  a_content : string;
  a_version : Z
}.

(** What a producer returns: an artifact still without a version. *)
Record Candidate := {
  c_id : string;
  c_kind : Kind;
  c_title : string;
  c_content : string
}.

(** The Supervisor inspects [approved] and [feedback] only; the score is
    telemetry and is left out. *)
Record ReviewOutput := {
  approved : bool;
  feedback : string
}.

Inductive Cause :=
| ConfigurationError (at_step : Z)
| TransientInvocationError (at_step : Z) (collaborator : string)
| ReplanExhaustedError (at_step : Z).

Inductive StateEvent :=
| step_started (s : Z)
| step_approved (s : Z) (artifact_id : string) (version : Z)
| step_rejected (s : Z) (retries : nat) (fb : string)
| replanning (s : Z)
| session_done
| session_failed (cause : Cause).

Inductive Status :=
| RUNNING
| DONE
| FAILED (cause : Cause).

Record Config := {
  max_retries : nat;
  replan_enabled : bool;
  dispatch_table : list string
}.

Record SessionState := {
  plan : list Step;
  current_step_index : nat;
  artifacts : gmap string Artifact;
  retry_count : gmap Z nat;
  replanned : gset Z;
  history : list StateEvent;
  status : Status
}.

(** What the collaborators answer during one [advance]: the producer (after
    the bounded transport retries), the Reviewer, and the Planner if a new
    partial plan is requested. *)
Inductive DispatchResult :=
| Produced (c : Candidate)
| DispatchUnavailable.

Inductive ReviewResult :=
| Reviewed (r : ReviewOutput)
| ReviewUnavailable.

Record Turn := {
  dispatched : DispatchResult;
  reviewed : ReviewResult;
  replacement : list Step
}.

Fixpoint increasing (l : list Z) : bool :=
  match l with
  | x :: (y :: _) as rest => (x <? y)%Z && increasing rest
  | _ => true
  end.

Definition known (cfg : Config) (st : Step) : bool :=
  bool_decide (role st ∈ dispatch_table cfg).

(** Modelled from the spec: plan ingestion (section 6) is missing. A plan
    is accepted when it is not empty, its ids strictly increase and every
    role has a producer. *)
Definition well_formed (cfg : Config) (p : list Step) : bool :=
  match p with
  | [] => false
  | _ => increasing (map step_id p) && forallb (known cfg) p
  end.

Definition retries_of (s : SessionState) (i : Z) : nat :=
  default 0%nat (retry_count s !! i).

Definition finish (st : Status) (evs : list StateEvent) (s : SessionState)
  : SessionState :=
  {| plan := plan s; current_step_index := current_step_index s;
     artifacts := artifacts s; retry_count := retry_count s;
     replanned := replanned s; history := history s ++ evs; status := st |}.

Definition fail (c : Cause) (evs : list StateEvent) (s : SessionState)
  : SessionState :=
  finish (FAILED c) (evs ++ [session_failed c]) s.

(** Modelled from the spec: the Supervisor's start is missing. Malformed
    plans are rejected before the Supervisor starts. *)
Definition start (cfg : Config) (p : list Step) : SessionState :=
  let s := {| plan := p; current_step_index := 0; artifacts := ∅;
              retry_count := ∅; replanned := ∅; history := [];
              status := RUNNING |} in
  if well_formed cfg p then s else fail (ConfigurationError 0) [] s.

(** Modelled from the spec: the commit of an approved candidate is missing.
    It gets version 1, or the next version when an artifact with that id
    already exists. *)
Definition next_version (arts : gmap string Artifact) (c : Candidate) : Z :=
  match arts !! c_id c with
  | Some old => a_version old + 1
  | None => 1
  end.

Definition commit (arts : gmap string Artifact) (c : Candidate)
  : gmap string Artifact :=
  <[c_id c := {| a_id := c_id c; a_kind := c_kind c; a_title := c_title c;
                 a_content := c_content c;
                 a_version := next_version arts c |}]> arts.

(** Modelled from the spec: the Supervisor's [advance] (section 4.1) is
    missing. One call inspects the index, dispatches the step, has the
    candidate reviewed and applies the retry and replanning policy. A
    terminal session is left as it is. *)
Definition advance (cfg : Config) (t : Turn) (s : SessionState) : SessionState :=
  match status s with
  | DONE | FAILED _ => s
  | RUNNING =>
      match plan s !! current_step_index s with
      | None => finish DONE [session_done] s
      | Some st =>
          let i := step_id st in
          if negb (known cfg st)
          then fail (ConfigurationError i) [step_started i] s
          else
            match dispatched t with
            | DispatchUnavailable =>
                fail (TransientInvocationError i "dispatch") [step_started i] s
            | Produced c =>
                match reviewed t with
                | ReviewUnavailable =>
                    fail (TransientInvocationError i "reviewer")
                         [step_started i] s
                | Reviewed r =>
                    if approved r then
                      {| plan := plan s;
                         current_step_index := S (current_step_index s);
                         artifacts := commit (artifacts s) c;
                         retry_count := <[i := 0%nat]> (retry_count s);
                         replanned := replanned s;
                         history := history s ++
                           [step_started i;
                            step_approved i (c_id c)
                              (next_version (artifacts s) c)];
                         status := RUNNING |}
                    else
                      let n := S (retries_of s i) in
                      let rejected := [step_started i;
                                       step_rejected i n (feedback r)] in
                      if (n <? max_retries cfg)%nat then
                        {| plan := plan s;
                           current_step_index := current_step_index s;
                           artifacts := artifacts s;
                           retry_count := <[i := n]> (retry_count s);
                           replanned := replanned s;
                           history := history s ++ rejected;
                           status := RUNNING |}
                      else if replan_enabled cfg
                              && negb (bool_decide (i ∈ replanned s)) then
                        let p : list Step :=
                          (take (current_step_index s) (plan s)
                           ++ replacement t)%list in
                        let s' :=
                          {| plan := p;
                             current_step_index := current_step_index s;
                             artifacts := artifacts s;
                             retry_count := <[i := 0%nat]> (retry_count s);
                             replanned := {[i]} ∪ replanned s;
                             history := history s ++ rejected ++ [replanning i];
                             status := RUNNING |} in
                        if well_formed cfg p then s'
                        else fail (ConfigurationError i) [] s'
                      else fail (ReplanExhaustedError i) rejected s
                end
            end
      end
  end.

(** The control loop: [n] calls of [advance], the [k]-th one answered by
    [env k]. *)
Fixpoint run (cfg : Config) (env : nat -> Turn) (n : nat) (s : SessionState)
  : SessionState :=
  match n with
  | O => s
  | S k => advance cfg (env k) (run cfg env k s)
  end.

Definition terminal (s : SessionState) : bool :=
  match status s with
  | RUNNING => false
  | DONE | FAILED _ => true
  end.

(** Readings of the history. *)
Definition started (evs : list StateEvent) : list Z :=
  omap (fun e => match e with step_started i => Some i | _ => None end) evs.

Definition is_replanning (i : Z) (e : StateEvent) : bool :=
  match e with
  | replanning j => bool_decide (j = i)
  | _ => false
  end.

Definition replannings (i : Z) (evs : list StateEvent) : nat :=
  length (List.filter (is_replanning i) evs).

(** The turn in which the producer returns [c] and the Reviewer approves. *)
Definition approves (t : Turn) (c : Candidate) : Prop :=
  dispatched t = Produced c
  /\ exists r, reviewed t = Reviewed r /\ approved r = true.

Definition versioned (c : Candidate) (v : Z) : Artifact :=
  {| a_id := c_id c; a_kind := c_kind c; a_title := c_title c;
     a_content := c_content c; a_version := v |}.

(** The events of a step approved at its first review, committed at
    version 1. *)
Definition approved_at_once (st : Step) (c : Candidate) : list StateEvent :=
  [step_started (step_id st); step_approved (step_id st) (c_id c) 1].

(** Every step id the Planner issues belongs to [U]. *)
Definition ids_within (U : gset Z) (p : list Step) : Prop :=
  Forall (fun st => step_id st ∈ U) p.

(** Rejections a step takes before it is exhausted. *)
Definition budget (cfg : Config) : nat := Nat.max 1 (max_retries cfg).

(** A bound on the calls of [advance] a running session still needs. *)
Definition potential (cfg : Config) (U : gset Z) (s : SessionState) : Z :=
  let cur := match plan s !! current_step_index s with
             | Some st => retries_of s (step_id st)
             | None => 0%nat
             end in
  (Z.of_nat (size U) - Z.of_nat (current_step_index s)
   + Z.of_nat (size (U ∖ replanned s))) * Z.of_nat (budget cfg)
  - Z.of_nat cur + 1.

(** What holds of a running session whose plans draw their ids from [U]. *)
Definition sound (cfg : Config) (U : gset Z) (s : SessionState) : Prop :=
  well_formed cfg (plan s) = true
  /\ ids_within U (plan s)
  /\ (forall i, (retries_of s i < budget cfg)%nat)
  /\ (current_step_index s <= length (plan s))%nat.

(** Replanning events and the replanned flags agree. *)
Definition flagged (s : SessionState) : Prop :=
  forall i, (replannings i (history s) <= 1)%nat
            /\ (i ∉ replanned s -> replannings i (history s) = 0%nat).

End Supervisor.


(** ** Sample values used in the examples *)

Definition sample_message (id text : string) : ChatMessage :=
  {| msg_id := id; msg_role := assistant; msg_content := Str text;
     msg_timestamp := 1700000000000; msg_agentName := None;
     msg_isThinking := None |}.

Definition sample_log (id agent : string) : AgentLog :=
  {| log_id := id; log_agent := agent; log_step := "Started";
     log_status := running; log_timestamp := 1700000000000;
     log_details := None |}.

Definition sample_artifact (id text : string) (version : Z) : Artifact :=
  {| art_id := id; art_type := outline; art_title := "Deck";
     art_content := text; art_version := version;
     art_timestamp := 1700000000000 |}.

Definition only_title (title : string) : PartialArtifact :=
  {| p_id := None; p_type := None; p_title := Some title; p_content := None;
     p_version := None; p_timestamp := None |}.

Definition sample_slide : Slide :=
  {| slide_id := 1; text_expected := true; slide_layout_id := "title";
     visual_prompt := "a calm gradient"; content_text := "Hello";
     tool := None; reasoning := None |}.

Definition sample_ready : HookState :=
  {| imageUrl := Some "/static/images/1.png?t=1700000000000";
     isGenerating := false |}.

(** A stand-in for [JSON.parse], enough for the examples. *)
Definition sample_parse (raw : string) : Parsed :=
  if bool_decide (raw = "null") then ParsedNull
  else if bool_decide (raw = "{}") then
    ParsedObject {| agent_name := None; d_id := "deck"; d_type := outline;
                    d_title := "Deck"; d_content := "draft";
                    d_version := None |}
  else ParseThrows.

Definition sample_event (kind id data : string) : EventSourceMessage :=
  {| ev_id := id; ev_event := kind; ev_data := data |}.

Definition fresh_world : World :=
  {| store := initialState; seenMessageIds := ∅; console := [] |}.

Definition sample_attempt (evs : list (Z * EventSourceMessage)) (e : Ending)
  : Attempt :=
  {| fetch_error := None; response_ok := true; response_status := 200;
     deliveries := evs; ending := e |}.

Module EngineSamples.
Import ConsistencyEngine.
Local Open Scope nat_scope.

Definition plain : Opening :=
  {| prior_anchor := None; style_definition := None |}.

Definition themed : Opening :=
  {| prior_anchor := None; style_definition := Some "navy, flat, soft light" |}.

(** Five image-producing steps; the port answers handle [10 + k] for slide [k]. *)
Definition five_slides : list Request :=
  [ImageRequest 1 (Some 100) (Some 11); ImageRequest 2 (Some 100) (Some 12);
   ImageRequest 3 (Some 100) (Some 13); ImageRequest 4 (Some 100) (Some 14);
   ImageRequest 5 (Some 100) (Some 15)].

(** A themed session in which the dedicated style request fails twice
    before the port answers it. *)
Definition style_fails_twice : list Request :=
  [ImageRequest 1 None (Some 11); ImageRequest 2 None (Some 12);
   ImageRequest 3 (Some 100) (Some 13)].

End EngineSamples.

Module SupervisorSamples.
Import Supervisor.

Definition default_config : Config :=
  {| max_retries := 3; replan_enabled := true;
     dispatch_table := ["researcher"; "storywriter"; "visualizer";
                        "data_analyst"] |}.

Definition step (i : Z) (r : string) : Step :=
  {| step_id := i; role := r; instruction := "do it"; description := "";
     design_direction := None |}.

Definition two_steps : list Step := [step 1 "storywriter"; step 2 "visualizer"].

Definition outline_of_deck : Candidate :=
  {| c_id := "outline"; c_kind := k_outline; c_title := "Outline";
     c_content := "three slides" |}.

Definition cover_image : Candidate :=
  {| c_id := "cover"; c_kind := k_image; c_title := "Cover";
     c_content := "cover.png" |}.

Definition approve (c : Candidate) : Turn :=
  {| dispatched := Produced c;
     reviewed := Reviewed {| approved := true; feedback := "" |};
     replacement := [] |}.

Definition reject (c : Candidate) (fb : string) (tail : list Step) : Turn :=
  {| dispatched := Produced c;
     reviewed := Reviewed {| approved := false; feedback := fb |};
     replacement := tail |}.

(** Every review approves. *)
Definition all_approve (k : nat) : Turn :=
  match k with
  | O => approve outline_of_deck
  | _ => approve cover_image
  end.

(** The scenario of the spec: step 2 is rejected twice, then approved. *)
Definition two_rejections (k : nat) : Turn :=
  match k with
  | 0%nat => approve outline_of_deck
  | 1%nat | 2%nat => reject cover_image "text contrast too low" []
  | _ => approve cover_image
  end.

(** A Planner that answers every request with the failing step again and
    one more step under the next id, and a Reviewer that then approves the
    step issued again and rejects the new one [max_retries] times. *)
Definition numbered (i : nat) : Step := step (Z.of_nat i) "storywriter".

Definition numbered_plan (n : nat) : list Step := map numbered (seq 1 n).

Definition ever_growing (k : nat) : Turn :=
  match (k mod 4)%nat with
  | O => approve outline_of_deck
  | _ => reject outline_of_deck "not convincing"
           [numbered (k / 4 + 2); numbered (k / 4 + 3)]
  end.

(** The session at the start of round [j] of that run. *)
Definition at_round (j : nat) (s : SessionState) : Prop :=
  status s = RUNNING
  /\ plan s = numbered_plan (j + 2)
  /\ current_step_index s = j
  /\ (forall i, retries_of s i = 0%nat)
  /\ (forall i, i ∈ replanned s -> i <= Z.of_nat (j + 1)).

(** A Reviewer that never approves, and a Planner that issues the failing
    step again. *)
Definition never_approve (k : nat) : Turn :=
  reject cover_image "still wrong" [step 2 "visualizer"].

(** Every review approves, and both producers deliver under the same
    artifact id: the second step replaces the artifact of the first. *)
Definition revised_outline : Candidate :=
  {| c_id := "outline"; c_kind := k_outline; c_title := "Outline";
     c_content := "three slides, illustrated" |}.

Definition same_artifact (k : nat) : Turn :=
  match k with
  | O => approve outline_of_deck
  | _ => approve revised_outline
  end.

End SupervisorSamples.

(** ** More of the store and of its readers *)

(** [{ ...u1, ...u2 }] on two partial artifacts: the keys of [u2] win. *)
Definition overlay (u1 u2 : PartialArtifact) : PartialArtifact :=
  {| p_id := match p_id u2 with Some v => Some v | None => p_id u1 end;
     p_type := match p_type u2 with Some v => Some v | None => p_type u1 end;
     p_title := match p_title u2 with Some v => Some v | None => p_title u1 end;
     p_content :=
       match p_content u2 with Some v => Some v | None => p_content u1 end;
     p_version :=
       match p_version u2 with Some v => Some v | None => p_version u1 end;
     p_timestamp :=
       match p_timestamp u2 with Some v => Some v | None => p_timestamp u1 end |}.

(** The object [{}]. *)
Definition no_updates : PartialArtifact :=
  {| p_id := None; p_type := None; p_title := None; p_content := None;
     p_version := None; p_timestamp := None |}.

(** An action that cannot rename an artifact: every action but an
    [updateArtifact] whose updates carry an [id] key. *)
Definition keeps_artifact_ids (act : Action) : bool :=
  match act with
  | AUpdateArtifact _ updates =>
      match p_id updates with Some _ => false | None => true end
  | _ => true
  end.

(** [preview/PreviewPane.tsx]:
    [artifacts.find(a => a.id === activeArtifactId)]; [null] equals no id. *)
Definition activeArtifact (s : AppState) : option Artifact :=
  match activeArtifactId s with
  | Some id => artifact_of id s
  | None => None
  end.

(** What the pane renders for the active artifact. *)
Inductive PreviewView :=
| NoArtifactSelected
| MarkdownView (content : string)
| SlideView (a : Artifact)
| JsonView (content : string).

Definition PreviewPane (s : AppState) : PreviewView :=
  match activeArtifact s with
  | None => NoArtifactSelected
  | Some a =>
      match art_type a with
      | report | outline => MarkdownView (art_content a)
      | image | plan => SlideView a
      | code => JsonView (art_content a)
      end
  end.

(** The actions [useChatStream] can reach: the ones behind the names it
    destructured. *)
Definition stream_action (act : Action) : bool :=
  match act with
  | AAddMessage _ | AAddLog _ | AAddArtifact _
  | ASetIsStreaming _ | ASetActiveArtifactId _ => true
  | _ => false
  end.

Definition is_artifact_action (act : Action) : bool :=
  match act with
  | AAddArtifact _ | AUpdateArtifact _ _ => true
  | _ => false
  end.

(** A computation that reaches the store only through actions behind the
    names [useChatStream] destructured. *)
Definition through_stream_actions {A} (m : M A) : Prop :=
  forall w, exists acts,
    forallb stream_action acts = true
    /\ store (m w).2 = run acts (store w).

(** The event names the handler's [switch] has a case for. *)
Definition json_events : list string :=
  ["start_of_agent"; "on_chain_start"; "end_of_agent"; "on_chain_end";
   "artifact"].

(** An event the handler can do nothing with: no data, or, for an event
    other than 'message', a payload that does not parse, parses to [null],
    or an event name without a case. *)
Definition unusable (JSON_parse : string -> Parsed) (ev : EventSourceMessage)
  : Prop :=
  ev_data ev = ""
  \/ (ev_event ev <> "message"
      /\ (JSON_parse (ev_data ev) = ParseThrows
          \/ JSON_parse (ev_data ev) = ParsedNull
          \/ ev_event ev ∉ json_events)).

(** The artifact the handler builds from a payload. *)
Definition artifact_from (now : Z) (d : Payload) : Artifact :=
  {| art_id := d_id d; art_type := d_type d; art_title := d_title d;
     art_content := d_content d; art_version := version_or_1 d;
     art_timestamp := now |}.

(** What [PreviewPane] renders for an artifact. *)
Definition view_of (a : Artifact) : PreviewView :=
  match art_type a with
  | report | outline => MarkdownView (art_content a)
  | image | plan => SlideView a
  | code => JsonView (art_content a)
  end.

(** The log line the handler builds for an agent event. *)
Definition log_from (now : Z) (d : Payload) (step : string)
    (status : LogStatus) : AgentLog :=
  {| log_id := "log-" ++ pretty now; log_agent := agent_or_System d;
     log_step := step; log_status := status; log_timestamp := now;
     log_details := None |}.

(** An attempt whose connection is not established: [fetch] rejects or the
    response is not ok. *)
Definition refused (a : Attempt) : bool :=
  match fetch_error a with
  | Some _ => true
  | None => negb (response_ok a)
  end.

(** ** The chat pane and the home page over the store *)

Import Stdlib.Strings.Ascii.

(** What [startStream(text, threadId)] is called with. *)
Record StreamCall := { sent_message : string; sent_threadId : string }.

Section ChatPaneSend.

(** [!s.trim()], a builtin: the string has nothing but white space. *)
Variable blank : string -> bool.

(** [currentSessionId || "demo-thread"] *)
Definition threadId_of (s : AppState) : string :=
  match currentSessionId s with
  | Some id => if truthy id then id else "demo-thread"
  | None => "demo-thread"
  end.

(** [ChatPane.handleSend]: the store it leaves and the stream it starts. *)
Definition handleSend (s : AppState) : AppState * option StreamCall :=
  if blank (messageInput s) || isStreaming s then (s, None)
  else
    let text := messageInput s in
    let s1 := setMessageInput "" s in
    (s1, Some {| sent_message := text; sent_threadId := threadId_of s |}).

(** [ChatPane.handleKeyDown] *)
Definition handleKeyDown (key : string) (shiftKey : bool) (s : AppState)
  : AppState * option StreamCall :=
  if bool_decide (key = "Enter") && negb shiftKey then handleSend s
  else (s, None).

(** [HomePage.handleStart] with the topic typed; [router.push] is not part
    of the store. *)
Definition handleStart (topic : string) (now : Z) (s : AppState) : AppState :=
  if blank topic then s
  else
    let newSessionId := "session-" ++ pretty now in
    let s1 := setCurrentSessionId (Some newSessionId) s in
    addMessage {| msg_id := "msg-" ++ pretty now; msg_role := user;
                  msg_content := Str topic; msg_timestamp := now;
                  msg_agentName := None; msg_isThinking := None |} s1.

End ChatPaneSend.

(** A stand-in for [!s.trim()] on strings of spaces. *)
Fixpoint only_spaces (s : string) : bool :=
  match s with
  | "" => true
  | String c t => bool_decide (c = " "%char) && only_spaces t
  end.

(** ** [frontend/src/lib/api.ts] *)

Fixpoint all_slashes (s : string) : bool :=
  match s with
  | "" => true
  | String c t => bool_decide (c = "/"%char) && all_slashes t
  end.

(** [s.replace(/\/+$/, "")]: the match starts at the first position from
    which only slashes follow, and at least one does. *)
Fixpoint strip_trailing_slashes (s : string) : string :=
  match s with
  | "" => ""
  | String c t => if all_slashes s then "" else String c (strip_trailing_slashes t)
  end.

(** [API_BASE_URL], from [process.env.NEXT_PUBLIC_API_URL] ([None] when the
    variable is not defined). *)
Definition API_BASE_URL (env : option string) : string :=
  strip_trailing_slashes (default "http://localhost:8000" env).

(** [path.startsWith("/")] *)
Definition starts_with_slash (path : string) : bool :=
  match path with
  | String c _ => bool_decide (c = "/"%char)
  | "" => false
  end.

Definition apiUrl (env : option string) (path : string) : string :=
  if negb (truthy path) then API_BASE_URL env
  else if starts_with_slash path then API_BASE_URL env ++ path
  else API_BASE_URL env ++ "/" ++ path.

(** The last character of a string is a slash. *)
Fixpoint ends_with_slash (s : string) : bool :=
  match s with
  | "" => false
  | String c "" => bool_decide (c = "/"%char)
  | String _ t => ends_with_slash t
  end.

(** [n] slashes. *)
Fixpoint slashes (n : nat) : string :=
  match n with
  | O => ""
  | S n => String "/" (slashes n)
  end.

(** ** The effects of [useSlideGeneration] and the status of [SlideView] *)

Record RegenerateSignal := { sig_slideId : Z; sig_nonce : Z }.

(** The effect on [slide.slide_id]. *)
Definition resetOnSlideChange (h : HookState) : HookState :=
  {| imageUrl := None; isGenerating := false |}.


(** The effect on [regenerateSignal, slide.slide_id]. *)
Definition onRegenerateSignal (signal : option RegenerateSignal)
    (slide : Slide) (h : HookState) : HookState :=
  match signal with
  | Some sg =>
      if bool_decide (sig_slideId sg = slide_id slide)
      then {| imageUrl := None; isGenerating := isGenerating h |}
      else h
  | None => h
  end.

(** *** The hook over time

    [generateImage] is asynchronous: it sets [isGenerating], sends its
    request and waits; the effects run again after every render. *)

(** The hook between two events: its state, and the requests sent so far.
    A call of [generateImage] is waiting for its answer exactly while
    [isGenerating] holds. *)
Record Generation := {
  gen_hook : HookState;
  gen_sent : list GenerateRequest
}.

(** [generateImage] up to its [await]: the guard, [setIsGenerating(true)]
    and the request. *)
Definition generateImage_start (slide : Slide) (styleDef : option StyleDef)
    (g : Generation) : Generation :=
  if url_set (imageUrl (gen_hook g)) then g
  else
    {| gen_hook := {| imageUrl := imageUrl (gen_hook g); isGenerating := true |};
       gen_sent := (gen_sent g
                    ++ [{| req_slide := slide; req_style_def := styleDef |}])%list |}.

(** [generateImage] from the answer on: the url of the answer, or [null]
    from the [catch], and [setIsGenerating(false)] from the [finally]. *)
Definition generateImage_finish (outcome : FetchOutcome) (now : Z)
    (g : Generation) : Generation :=
  {| gen_hook :=
       {| imageUrl := match outcome with
                      | Ok url => Some (url ++ "?t=" ++ pretty now)
                      | FetchRejects | NotOk | BadJson => None
                      end;
          isGenerating := false |};
     gen_sent := gen_sent g |}.

(** The effect on [imageUrl, isGenerating, generateImage], run after a
    render. *)
Definition auto_effect (slide : Slide) (styleDef : option StyleDef)
    (g : Generation) : Generation :=
  if negb (url_set (imageUrl (gen_hook g))) && negb (isGenerating (gen_hook g))
  then generateImage_start slide styleDef g
  else g.

(** What happens to a mounted hook whose slide stays the same: the server
    answers the request under way, or the regenerate signal changes. *)
Inductive HookEvent :=
| ImageAnswered (outcome : FetchOutcome) (now : Z)
| SignalArrived (signal : option RegenerateSignal).

(** One event, and the effects of the render that follows it. An answer
    arrives only for a request under way. *)
Definition hook_step (slide : Slide) (styleDef : option StyleDef)
    (g : Generation) (e : HookEvent) : Generation :=
  auto_effect slide styleDef
    match e with
    | ImageAnswered outcome now =>
        if isGenerating (gen_hook g) then generateImage_finish outcome now g
        else g
    | SignalArrived signal =>
        {| gen_hook := onRegenerateSignal signal slide (gen_hook g);
           gen_sent := gen_sent g |}
    end.

(** The hook after its first render. *)
Definition hook_mount (slide : Slide) (styleDef : option StyleDef) : Generation :=
  auto_effect slide styleDef
    {| gen_hook := {| imageUrl := None; isGenerating := false |};
       gen_sent := [] |}.

Definition hook_run (slide : Slide) (styleDef : option StyleDef)
    (es : list HookEvent) (g : Generation) : Generation :=
  fold_left (hook_step slide styleDef) es g.

Definition is_ok (answer : FetchOutcome * Z) : bool :=
  match answer.1 with
  | Ok _ => true
  | _ => false
  end.

(** The answers up to the first [Ok], that one included. *)
Fixpoint until_first_ok (answers : list (FetchOutcome * Z))
  : list (FetchOutcome * Z) :=
  match answers with
  | [] => []
  | a :: rest => if is_ok a then [a] else a :: until_first_ok rest
  end.

(** [SlideView]: [imageUrl ? 'ready' : isGenerating ? 'generating' : 'idle'] *)
Inductive Status := ready | generating | idle.

Definition status (h : HookState) : Status :=
  if url_set (imageUrl h) then ready
  else if isGenerating h then generating else idle.

(** ** [Workspace] and the slide [PreviewPane] *)

Record SlidePlan := {
  slides : list Slide;
  plan_reasoning : option string;
  thinking_steps : option (list (string * string));
  refinement_log : option (list string)
}.

Record WorkspaceState := {
  ws_plan : option SlidePlan;
  ws_styleDef : option StyleDef;
  selectedSlide : option Slide;
  regenerateSignal : option RegenerateSignal;
  ws_isSidebarOpen : bool;
  chatWidth : Z;
  isResizing : bool
}.

(** The state [Workspace] mounts with. *)
Definition initialWorkspace : WorkspaceState :=
  {| ws_plan := None; ws_styleDef := None; selectedSlide := None;
     regenerateSignal := None; ws_isSidebarOpen := true;
     chatWidth := 400; isResizing := false |}.

Definition startResizing (w : WorkspaceState) : WorkspaceState :=
  {| ws_plan := ws_plan w; ws_styleDef := ws_styleDef w;
     selectedSlide := selectedSlide w;
     regenerateSignal := regenerateSignal w;
     ws_isSidebarOpen := ws_isSidebarOpen w;
     chatWidth := chatWidth w; isResizing := true |}.

Definition stopResizing (w : WorkspaceState) : WorkspaceState :=
  {| ws_plan := ws_plan w; ws_styleDef := ws_styleDef w;
     selectedSlide := selectedSlide w;
     regenerateSignal := regenerateSignal w;
     ws_isSidebarOpen := ws_isSidebarOpen w;
     chatWidth := chatWidth w; isResizing := false |}.

(** [resize], with [e.clientX] in whole pixels. *)
Definition resize (clientX : Z) (w : WorkspaceState) : WorkspaceState :=
  if isResizing w then
    let newWidth := Z.max 250 (Z.min clientX 800) in
    {| ws_plan := ws_plan w; ws_styleDef := ws_styleDef w;
       selectedSlide := selectedSlide w;
       regenerateSignal := regenerateSignal w;
       ws_isSidebarOpen := ws_isSidebarOpen w;
       chatWidth := newWidth; isResizing := isResizing w |}
  else w.

Definition toggleSidebarOpen (w : WorkspaceState) : WorkspaceState :=
  {| ws_plan := ws_plan w; ws_styleDef := ws_styleDef w;
     selectedSlide := selectedSlide w;
     regenerateSignal := regenerateSignal w;
     ws_isSidebarOpen := negb (ws_isSidebarOpen w);
     chatWidth := chatWidth w; isResizing := isResizing w |}.

Definition setSelectedSlide (sl : option Slide) (w : WorkspaceState)
  : WorkspaceState :=
  {| ws_plan := ws_plan w; ws_styleDef := ws_styleDef w;
     selectedSlide := sl;
     regenerateSignal := regenerateSignal w;
     ws_isSidebarOpen := ws_isSidebarOpen w;
     chatWidth := chatWidth w; isResizing := isResizing w |}.

Definition handlePlanGenerated (nextPlan : SlidePlan)
    (nextStyleDef : option StyleDef) (w : WorkspaceState) : WorkspaceState :=
  {| ws_plan := Some nextPlan; ws_styleDef := nextStyleDef;
     selectedSlide := None; regenerateSignal := None;
     ws_isSidebarOpen := ws_isSidebarOpen w;
     chatWidth := chatWidth w; isResizing := isResizing w |}.

(** The updater passed to [setPlan] by [handleSlideUpdated]. *)
Definition replace_slide (updatedSlide : Slide) (prev : option SlidePlan)
  : option SlidePlan :=
  match prev with
  | None => None
  | Some p =>
      Some {| slides :=
                map (fun slide =>
                       if bool_decide (slide_id slide = slide_id updatedSlide)
                       then updatedSlide else slide) (slides p);
              plan_reasoning := plan_reasoning p;
              thinking_steps := thinking_steps p;
              refinement_log := refinement_log p |}
  end.

Definition handleSlideUpdated (updatedSlide : Slide) (now : Z)
    (w : WorkspaceState) : WorkspaceState :=
  {| ws_plan := replace_slide updatedSlide (ws_plan w);
     ws_styleDef := ws_styleDef w;
     selectedSlide := Some updatedSlide;
     regenerateSignal :=
       Some {| sig_slideId := slide_id updatedSlide; sig_nonce := now |};
     ws_isSidebarOpen := ws_isSidebarOpen w;
     chatWidth := chatWidth w; isResizing := isResizing w |}.

(** What the user and the chat pane can do to the workspace. *)
Inductive WorkspaceEvent :=
| StartResizing
| StopResizing
| MouseMove (clientX : Z)
| ToggleSidebar
| SlideSelected (sl : Slide)
| PlanGenerated (nextPlan : SlidePlan) (nextStyleDef : option StyleDef)
| SlideUpdated (updatedSlide : Slide) (now : Z).

Definition workspace_step (w : WorkspaceState) (e : WorkspaceEvent)
  : WorkspaceState :=
  match e with
  | StartResizing => startResizing w
  | StopResizing => stopResizing w
  | MouseMove x => resize x w
  | ToggleSidebar => toggleSidebarOpen w
  | SlideSelected sl => setSelectedSlide (Some sl) w
  | PlanGenerated p sd => handlePlanGenerated p sd w
  | SlideUpdated sl now => handleSlideUpdated sl now w
  end.

Definition workspace_run (es : list WorkspaceEvent) (w : WorkspaceState)
  : WorkspaceState := fold_left workspace_step es w.



(** [plan?.slides[0]?.content_text.split('\n')[0] || "Untitled Presentation"] *)
Fixpoint first_line (s : string) : string :=
  match s with
  | "" => ""
  | String c t => if bool_decide (c = "010"%char) then "" else String c (first_line t)
  end.

Definition header_title (w : WorkspaceState) : string :=
  match ws_plan w with
  | Some p =>
      match slides p with
      | first :: _ =>
          let line := first_line (content_text first) in
          if truthy line then line else "Untitled Presentation"
      | [] => "Untitled Presentation"
      end
  | None => "Untitled Presentation"
  end.

(** A mouse-down on the divider. *)
Definition is_start (e : WorkspaceEvent) : bool :=
  match e with
  | StartResizing => true
  | _ => false
  end.

(** A plan of two slides and an edit of its first slide. *)
Definition sample_second_slide : Slide :=
  {| slide_id := 2; text_expected := false; slide_layout_id := "content";
     visual_prompt := "a tea field"; content_text := "Tea";
     tool := None; reasoning := None |}.

Definition sample_plan : SlidePlan :=
  {| slides := [sample_slide; sample_second_slide];
     plan_reasoning := None; thinking_steps := None;
     refinement_log := None |}.

Definition sample_update : Slide :=
  {| slide_id := 1; text_expected := true; slide_layout_id := "title";
     visual_prompt := "a bright gradient"; content_text := "Hello, tea";
     tool := None; reasoning := None |}.

(** ** [LiveThinkingDisplay] *)

(** [haystack.includes(needle)] on strings. *)
Fixpoint includes (needle haystack : string) : bool :=
  String.prefix needle haystack
  || match haystack with
     | "" => false
     | String _ t => includes needle t
     end.

(** [l.slice(-n)]: the last [n] elements, all of them when there are
    fewer. *)
Definition slice_last {A} (n : nat) (l : list A) : list A :=
  drop (length l - n) l.

Module LiveThinkingDisplay.

Definition PHASES : list string := ["analysis"; "planning"; "refinement"].

Definition FALLBACK_LOGS (phase : string) : list string :=
  if bool_decide (phase = "analysis") then
    ["Parsing user intent..."; "Identifying key themes...";
     "Analyzing semantic structure..."]
  else if bool_decide (phase = "planning") then
    ["Structuring narrative flow..."; "Drafting slide outline...";
     "Selecting optimal layouts..."]
  else if bool_decide (phase = "refinement") then
    ["Polishing language tones..."; "Optimizing visual prompts...";
     "Finalizing slide composition..."]
  else [].

(** [data.content] as the handler uses it: what the template literal
    prints for it, and what [data.content.includes(needle)] gives
    ([None] when that call throws, as on [undefined]). *)
Record LogContent := {
  printed : string;
  content_includes : string -> option bool
}.

(** A content that is a string. *)
Definition text (s : string) : LogContent :=
  {| printed := s; content_includes := fun needle => Some (includes needle s) |}.

(** [JSON.parse(event.data)] as the handler uses it. [Unreadable]: the
    parse throws, or gives [null], on which [data.type] throws. *)
Inductive StreamData :=
| Unreadable
| Data (type : option string) (content : LogContent).

Record State := {
  phaseIndex : nat;
  logs : list string;
  isStreaming : bool;
  (** the [EventSource] exists and was not closed *)
  source_open : bool
}.

Definition initial : State :=
  {| phaseIndex := 0; logs := []; isStreaming := false; source_open := false |}.

Definition session_given (sessionId : option string) : bool :=
  match sessionId with
  | Some id => truthy id
  | None => false
  end.

(** The effect on [sessionId], at mount. *)
Definition mount (sessionId : option string) (st : State) : State :=
  if session_given sessionId then
    {| phaseIndex := phaseIndex st; logs := logs st;
       isStreaming := true; source_open := true |}
  else st.

Definition log_line (timestamp body : string) : string :=
  "[" ++ timestamp ++ "] " ++ body.

(** The phase a 'log' content moves to; [None]: [setPhaseIndex] is not
    called. *)
Definition phase_of (content : LogContent) : option nat :=
  match content_includes content "Director" with
  | None => None
  | Some true => Some 1%nat
  | Some false =>
      match content_includes content "Refiner" with
      | Some true => Some 2%nat
      | _ => None
      end
  end.

(** [eventSource.onmessage] *)
Definition onmessage (timestamp : string) (d : StreamData) (st : State)
  : State :=
  match d with
  | Unreadable => st
  | Data type content =>
      if bool_decide (type = Some "log") then
        {| phaseIndex := default (phaseIndex st) (phase_of content);
           logs := slice_last 8 (logs st ++ [log_line timestamp (printed content)])%list;
           isStreaming := isStreaming st; source_open := source_open st |}
      else if bool_decide (type = Some "done")
              || bool_decide (type = Some "timeout") then
        {| phaseIndex := phaseIndex st; logs := logs st;
           isStreaming := false; source_open := false |}
      else st
  end.

(** [eventSource.onerror] *)
Definition onerror (st : State) : State :=
  {| phaseIndex := phaseIndex st; logs := logs st;
     isStreaming := false; source_open := false |}.

(** The interval of the fallback: [(prev + 1) % PHASES.length]. *)
Definition cycle_phase (st : State) : State :=
  {| phaseIndex := (phaseIndex st + 1) mod length PHASES;
     logs := logs st; isStreaming := isStreaming st;
     source_open := source_open st |}.

(** [generateFallbackLog]; [random] stands for [Math.random()] scaled:
    [Math.floor(Math.random() * n)] is some index below [n]. *)
Definition generateFallbackLog (timestamp : string) (random : nat)
    (st : State) : State :=
  let currentLogs := FALLBACK_LOGS (nth (phaseIndex st) PHASES "") in
  let randomLog := nth (random mod length currentLogs) currentLogs "" in
  {| phaseIndex := phaseIndex st;
     logs := slice_last 6 (logs st ++ [log_line timestamp randomLog])%list;
     isStreaming := isStreaming st; source_open := source_open st |}.

(** What can happen to a mounted display. *)
Inductive Event :=
| Message (timestamp : string) (d : StreamData)
| Error
| Tick
| FallbackLog (timestamp : string) (random : nat).

(** The event source delivers only while it is open; the two fallback
    effects are installed only without a session id and outside a
    stream. *)
Definition step (sessionId : option string) (st : State) (e : Event) : State :=
  match e with
  | Message timestamp d =>
      if source_open st then onmessage timestamp d st else st
  | Error => if source_open st then onerror st else st
  | Tick =>
      if isStreaming st || session_given sessionId then st
      else cycle_phase st
  | FallbackLog timestamp random =>
      if isStreaming st || session_given sessionId then st
      else generateFallbackLog timestamp random st
  end.

Definition display (sessionId : option string) (es : list Event) : State :=
  fold_left (step sessionId) es (mount sessionId initial).

(** The feed and the phase index are within their bounds. *)
Definition in_range (st : State) : Prop :=
  (length (logs st) <= 8)%nat /\ (phaseIndex st < length PHASES)%nat.

(** A line the stream produced: the line of a 'log' message of the run. *)
Definition streamed (es : list Event) (line : string) : Prop :=
  exists ts content,
    In (Message ts (Data (Some "log") content)) es
    /\ line = log_line ts (printed content).

(** A line the fallback produced. *)
Definition canned (line : string) : Prop :=
  exists ts phase body,
    In phase PHASES /\ In body (FALLBACK_LOGS phase)
    /\ line = log_line ts body.

End LiveThinkingDisplay.

(** A short stream for the display: two log lines, then the end. *)
Definition sample_feed : list LiveThinkingDisplay.Event :=
  [LiveThinkingDisplay.Message "10:00:00"
     (LiveThinkingDisplay.Data (Some "log")
        (LiveThinkingDisplay.text "Director is planning"));
   LiveThinkingDisplay.Tick;
   LiveThinkingDisplay.Message "10:00:02"
     (LiveThinkingDisplay.Data (Some "log")
        (LiveThinkingDisplay.text "Refiner is polishing"));
   LiveThinkingDisplay.Message "10:00:03"
     (LiveThinkingDisplay.Data (Some "done") (LiveThinkingDisplay.text ""))].

(** ** [useInpainting] inside [SlideView] *)

Module Inpainting.

(** Coordinates relative to the container, as [getCoords] gives them.
    They are JS numbers, here integers: of their arithmetic the handlers
    use the sign of a difference, its absolute value and comparisons with
    10, and the properties stated of them are not about sums. *)
Record Point := { pt_x : Z; pt_y : Z }.

Record Selection := { sel_x : Z; sel_y : Z; sel_w : Z; sel_h : Z }.

Record State := {
  isSelecting : bool;
  selection : option Selection;
  startPos : option Point;
  showInstruction : bool;
  instruction : string;
  isRefining : bool
}.

Definition initial : State :=
  {| isSelecting := false; selection := None; startPos := None;
     showInstruction := false; instruction := ""; isRefining := false |}.

Definition handleMouseDown (isEditMode : bool) (url : option string)
    (p : Point) (st : State) : State :=
  if negb isEditMode || negb (url_set url) || isRefining st then st
  else
    {| isSelecting := true; selection := None; startPos := Some p;
       showInstruction := false; instruction := instruction st;
       isRefining := isRefining st |}.

Definition handleMouseMove (current : Point) (st : State) : State :=
  match isSelecting st, startPos st with
  | true, Some start =>
      let w := pt_x current - pt_x start in
      let h := pt_y current - pt_y start in
      {| isSelecting := isSelecting st;
         selection :=
           Some {| sel_x := if (0 <? w)%Z then pt_x start else pt_x current;
                   sel_y := if (0 <? h)%Z then pt_y start else pt_y current;
                   sel_w := Z.abs w; sel_h := Z.abs h |};
         startPos := startPos st; showInstruction := showInstruction st;
         instruction := instruction st; isRefining := isRefining st |}
  | _, _ => st
  end.

(** [selection && selection.w > 10 && selection.h > 10] *)
Definition large_enough (sel : option Selection) : bool :=
  match sel with
  | Some s => (10 <? sel_w s)%Z && (10 <? sel_h s)%Z
  | None => false
  end.

Definition handleMouseUp (st : State) : State :=
  if negb (isSelecting st) then st
  else if large_enough (selection st) then
    {| isSelecting := false; selection := selection st;
       startPos := startPos st; showInstruction := true;
       instruction := instruction st; isRefining := isRefining st |}
  else
    {| isSelecting := false; selection := None;
       startPos := startPos st; showInstruction := showInstruction st;
       instruction := instruction st; isRefining := isRefining st |}.

(** [cancelSelection], and the Cancel button of the popover:
    [setSelection(null); setShowInstruction(false)]. *)
Definition cancelSelection (st : State) : State :=
  {| isSelecting := isSelecting st; selection := None;
     startPos := startPos st; showInstruction := false;
     instruction := instruction st; isRefining := isRefining st |}.

Definition setInstruction (v : string) (st : State) : State :=
  {| isSelecting := isSelecting st; selection := selection st;
     startPos := startPos st; showInstruction := showInstruction st;
     instruction := v; isRefining := isRefining st |}.

(** [handleInpaint] up to its request. [imageRef.current] is the image
    element, which [SlideView] renders exactly when [imageUrl] is set. *)
Definition handleInpaint_start (url : option string) (st : State) : State :=
  match selection st with
  | None => st
  | Some _ =>
      if negb (url_set url) then st
      else
        {| isSelecting := isSelecting st; selection := selection st;
           startPos := startPos st; showInstruction := showInstruction st;
           instruction := instruction st; isRefining := true |}
  end.

(** How the request of [handleInpaint] ends: something on the way throws
    (no canvas context, a url that does not parse, [fetch] rejects, the
    response is not ok, the body is not JSON), or the new url arrives. *)
Inductive Answer :=
| InpaintFails
| InpaintOk (url : string).

(** A slide view: the state of [useSlideGeneration] and of
    [useInpainting]. *)
Record View := { hook : HookState; inpaint : State }.

(** [handleInpaint] from the answer on, [finally] included. *)
Definition handleInpaint_end (answer : Answer) (now : Z) (v : View) : View :=
  let st := inpaint v in
  match answer with
  | InpaintOk url =>
      {| hook := {| imageUrl := Some (url ++ "?t=" ++ pretty now);
                    isGenerating := isGenerating (hook v) |};
         inpaint := {| isSelecting := isSelecting st; selection := None;
                       startPos := startPos st; showInstruction := false;
                       instruction := ""; isRefining := false |} |}
  | InpaintFails =>
      {| hook := hook v;
         inpaint := {| isSelecting := isSelecting st;
                       selection := selection st;
                       startPos := startPos st;
                       showInstruction := showInstruction st;
                       instruction := instruction st;
                       isRefining := false |} |}
  end.

Definition mounted (h : HookState) : View := {| hook := h; inpaint := initial |}.

(** What can happen to a slide view. [MouseDown] carries the edit mode of
    the pane at that moment; [HookMoves] is any change the slide hook makes
    to its own state. *)
Inductive Event :=
| MouseDown (isEditMode : bool) (p : Point)
| MouseMove (p : Point)
| MouseUp
| Cancel
| Typed (v : string)
| Apply
| Answered (answer : Answer) (now : Z)
| HookMoves (h : HookState).

Section Steps.

(** [!s.trim()], a builtin. *)
Variable blank : string -> bool.

(** The Apply button exists while the popover is rendered
    ([showInstruction && selection]) and is disabled while
    [!instruction.trim() || isRefining]. *)
Definition apply_enabled (st : State) : bool :=
  showInstruction st && bool_decide (is_Some (selection st))
  && negb (blank (instruction st) || isRefining st).

(** An answer arrives only for a request that is under way, which is
    when [isRefining] holds. *)
Definition step (v : View) (e : Event) : View :=
  match e with
  | MouseDown isEditMode p =>
      {| hook := hook v;
         inpaint := handleMouseDown isEditMode (imageUrl (hook v)) p (inpaint v) |}
  | MouseMove p => {| hook := hook v; inpaint := handleMouseMove p (inpaint v) |}
  | MouseUp => {| hook := hook v; inpaint := handleMouseUp (inpaint v) |}
  | Cancel => {| hook := hook v; inpaint := cancelSelection (inpaint v) |}
  | Typed s => {| hook := hook v; inpaint := setInstruction s (inpaint v) |}
  | Apply =>
      if apply_enabled (inpaint v)
      then {| hook := hook v;
              inpaint := handleInpaint_start (imageUrl (hook v)) (inpaint v) |}
      else v
  | Answered answer now =>
      if isRefining (inpaint v) then handleInpaint_end answer now v else v
  | HookMoves h => {| hook := h; inpaint := inpaint v |}
  end.

Definition view_run (es : list Event) (v : View) : View := fold_left step es v.

End Steps.

(** The popover stands over a selection larger than 10 by 10, a drag is
    never under way together with the popover or a request, and no
    selection has a negative size. *)
Definition consistent (st : State) : Prop :=
  (showInstruction st = true ->
   exists sel, selection st = Some sel /\ 10 < sel_w sel /\ 10 < sel_h sel)
  /\ (isSelecting st = true ->
      showInstruction st = false /\ isRefining st = false
      /\ is_Some (startPos st))
  /\ (forall sel, selection st = Some sel -> 0 <= sel_w sel /\ 0 <= sel_h sel).

Definition in_view_mode (e : Event) : bool :=
  match e with
  | MouseDown isEditMode _ => negb isEditMode
  | _ => true
  end.

(** Nothing is selected, shown or under way. *)
Definition untouched (st : State) : Prop :=
  isSelecting st = false /\ selection st = None
  /\ showInstruction st = false /\ isRefining st = false.

End Inpainting.

(** A drag of the mouse over a slide while the pane is in view mode. *)
Definition sample_drag : list Inpainting.Event :=
  [Inpainting.MouseDown false {| Inpainting.pt_x := 10; Inpainting.pt_y := 10 |};
   Inpainting.MouseMove {| Inpainting.pt_x := 90; Inpainting.pt_y := 70 |};
   Inpainting.MouseUp].


(** ** The chat pane of the workspace: [handleSubmission] and
       [processBackendCall] *)

Module PlanChat.

Record File := { file_name : string }.

(** [isStreaming?: boolean]: absent counts as [false]. *)
Record Message := { role : string; content : string; isStreaming : bool }.

Record State := {
  messages : list Message;
  loading : bool;
  error : option string;
  streamSessionId : option string
}.

Definition ai (text : string) : Message :=
  {| role := "ai"; content := text; isStreaming := false |}.

Definition initial : State :=
  {| messages :=
       [ai "Hello! checking in. How can I assist you with your presentation today?"];
     loading := false; error := None; streamSessionId := None |}.

(** The requests the pane sends. *)
Inductive Request :=
| EditSlide (instruction : string) (slide : option Slide)
    (plan : option SlidePlan) (style_def : option StyleDef)
| Style (description : string) (file : option File)
| Plan (session_id : string) (text : string) (style_def : option StyleDef).

(** How a request ends: [fetch] or [res.json()] rejects with an error of
    that message, the response is not ok, or the body is read. *)
Inductive Answer (A : Type) :=
| Rejects (message : string)
| NotOk
| Ok (body : A).
Arguments Rejects {A} message.
Arguments NotOk {A}.
Arguments Ok {A} body.

(** What the network and the clock give during one submission. *)
Record Network := {
  edit_answer : Answer Slide;
  style_answer : Answer (option StyleDef);
  plan_answer : Answer SlidePlan;
  (** [`plan_${Date.now()}_${Math.random().toString(36).substr(2, 9)}`] *)
  session_id : string;
  clock : Z
}.

(** The workspace, its chat pane, and the requests sent so far. *)
Record Page := {
  workspace : WorkspaceState;
  chat : State;
  sent : list Request
}.

(** [newMsgs.pop()] *)
Definition pop (l : list Message) : list Message := removelast l.

Definition last_role_is (r : string) (l : list Message) : bool :=
  match last l with
  | Some m => bool_decide (role m = r)
  | None => false
  end.

Definition last_isStreaming (l : list Message) : bool :=
  match last l with
  | Some m => isStreaming m
  | None => false
  end.

(** [e.message || "Error occurred."] *)
Definition error_text (message : string) : string :=
  if truthy message then message else "Error occurred.".

(** The [catch] and the [finally] of [processBackendCall]. *)
Definition failed (message : string) (p : Page) : Page :=
  let prev := messages (chat p) in
  let newMsgs :=
    if last_role_is "ai-streaming-thinking" prev || last_isStreaming prev
    then pop prev else prev in
  {| workspace := workspace p;
     chat := {| messages :=
                  (newMsgs ++ [ai "Sorry, I encountered an error. Please try again."])%list;
                loading := false;
                error := Some (error_text message);
                streamSessionId := streamSessionId (chat p) |};
     sent := sent p |}.

Definition push (m : Message) (p : Page) : Page :=
  {| workspace := workspace p;
     chat := {| messages := (messages (chat p) ++ [m])%list;
                loading := loading (chat p); error := error (chat p);
                streamSessionId := streamSessionId (chat p) |};
     sent := sent p |}.

Definition send (r : Request) (p : Page) : Page :=
  {| workspace := workspace p; chat := chat p; sent := (sent p ++ [r])%list |}.

Section Chat.

(** [JSON.stringify], a builtin. *)
Variable stringify_log : list string -> string.
Variable stringify_steps : list (string * string) -> string.

(** The updater that finalizes the messages once the plan is there. *)
Definition final_messages (data : SlidePlan) (prev : list Message)
  : list Message :=
  let newMsgs :=
    if last_role_is "ai-streaming-thinking" prev then pop prev else prev in
  let with_log :=
    match refinement_log data with
    | Some (line :: lines) =>
        (newMsgs ++ [{| role := "ai-refiner";
                        content := stringify_log (line :: lines);
                        isStreaming := false |}])%list
    | _ => newMsgs
    end in
  let with_thinking :=
    match thinking_steps data with
    | Some (s :: steps) =>
        (with_log ++ [{| role := "ai-thinking";
                         content := stringify_steps (s :: steps);
                         isStreaming := false |}])%list
    | _ =>
        match plan_reasoning data with
        | Some r =>
            if truthy r
            then (with_log ++ [{| role := "ai-thinking"; content := r;
                                  isStreaming := false |}])%list
            else with_log
        | None => with_log
        end
    end in
  (with_thinking
     ++ [ai ("Created a plan with " ++ pretty (length (slides data))
             ++ " slides. Check the preview!")])%list.

(** The edit branch of [processBackendCall]. *)
Definition edit (net : Network) (text : string) (p : Page) : Page :=
  let w := workspace p in
  let p1 := push {| role := "ai"; content := "Reading your request...";
                    isStreaming := true |} p in
  let p2 := send (EditSlide text (selectedSlide w)
                    (match selectedSlide w with
                     | Some _ => None
                     | None => ws_plan w
                     end)
                    (ws_styleDef w)) p1 in
  match edit_answer net with
  | Rejects message => failed message p2
  | NotOk => failed "Failed to edit slide." p2
  | Ok updatedSlide =>
      {| workspace := handleSlideUpdated updatedSlide (clock net) w;
         chat := {| messages :=
                      (pop (messages (chat p2))
                         ++ [ai ("Updated Slide "
                                 ++ pretty (slide_id updatedSlide) ++ ".")])%list;
                    loading := false; error := error (chat p2);
                    streamSessionId := streamSessionId (chat p2) |};
         sent := sent p2 |}
  end.

(** The generate branch of [processBackendCall]. *)
Definition generate (net : Network) (text : string) (file : option File)
    (p : Page) : Page :=
  let p1 := push {| role := "ai"; content := "Analyzing requirements...";
                    isStreaming := true |} p in
  let p2 := send (Style text file) p1 in
  match style_answer net with
  | Rejects message => failed message p2
  | NotOk => failed "Style analysis failed." p2
  | Ok nextStyleDef =>
      let p3 :=
        {| workspace := workspace p2;
           chat := {| messages :=
                        (pop (messages (chat p2))
                           ++ [{| role := "ai-streaming-thinking";
                                  content := "Thinking...";
                                  isStreaming := false |}])%list;
                      loading := loading (chat p2); error := error (chat p2);
                      streamSessionId := Some (session_id net) |};
           sent := sent p2 |} in
      let p4 := send (Plan (session_id net) text nextStyleDef) p3 in
      match plan_answer net with
      | Rejects message => failed message p4
      | NotOk => failed "Plan generation failed." p4
      | Ok data =>
          {| workspace := handlePlanGenerated data nextStyleDef (workspace p4);
             chat := {| messages := final_messages data (messages (chat p4));
                        loading := false; error := error (chat p4);
                        streamSessionId := None |};
             sent := sent p4 |}
      end
  end.

(** [const isEdit = !!plan && !file] *)
Definition isEdit (w : WorkspaceState) (file : option File) : bool :=
  bool_decide (is_Some (ws_plan w)) && bool_decide (file = None).

Definition processBackendCall (net : Network) (text : string)
    (file : option File) (p : Page) : Page :=
  if isEdit (workspace p) file then edit net text p
  else generate net text file p.

(** [handleSubmission] from its call to its end, the answers included,
    with nothing in between; [alone] below builds the same from its steps. *)
Definition handleSubmission (net : Network) (text : string)
    (file : option File) (p : Page) : Page :=
  if negb (truthy text) && bool_decide (file = None) then p
  else
    let userMsgContent :=
      text ++ match file with
              | Some f => " [Attached: " ++ file_name f ++ "]"
              | None => ""
              end in
    let p1 :=
      {| workspace := workspace p;
         chat := {| messages :=
                      (messages (chat p)
                         ++ [{| role := "user"; content := userMsgContent;
                                isStreaming := false |}])%list;
                    loading := true; error := None;
                    streamSessionId := streamSessionId (chat p) |};
         sent := sent p |} in
    processBackendCall net text file p1.

End Chat.

(** *** A submission over time

    [handleSubmission] and [processBackendCall] are asynchronous: between a
    request and its answer other handlers run, another submission among
    them, since nothing in [handleSubmission] looks at [loading]. *)

(** A call of [processBackendCall] that waits for an answer, with what its
    continuation still reads of its local variables. *)
Inductive Waiting :=
| AwaitEdit
| AwaitStyle (text : string)
| AwaitPlan (nextStyleDef : option StyleDef).

Section Steps.

Variable stringify_log : list string -> string.
Variable stringify_steps : list (string * string) -> string.

(** [handleSubmission] and [processBackendCall] up to the first [await]. *)
Definition submit (text : string) (file : option File) (p : Page)
  : Page * option Waiting :=
  if negb (truthy text) && bool_decide (file = None) then (p, None)
  else
    let userMsgContent :=
      text ++ match file with
              | Some f => " [Attached: " ++ file_name f ++ "]"
              | None => ""
              end in
    let p1 :=
      {| workspace := workspace p;
         chat := {| messages :=
                      (messages (chat p)
                         ++ [{| role := "user"; content := userMsgContent;
                                isStreaming := false |}])%list;
                    loading := true; error := None;
                    streamSessionId := streamSessionId (chat p) |};
         sent := sent p |} in
    let w := workspace p1 in
    if isEdit w file then
      (send (EditSlide text (selectedSlide w)
               (match selectedSlide w with
                | Some _ => None
                | None => ws_plan w
                end)
               (ws_styleDef w))
         (push {| role := "ai"; content := "Reading your request...";
                  isStreaming := true |} p1),
       Some AwaitEdit)
    else
      (send (Style text file)
         (push {| role := "ai"; content := "Analyzing requirements...";
                  isStreaming := true |} p1),
       Some (AwaitStyle text)).

(** [processBackendCall] from an answer to the next [await], or to its
    end. The updaters passed to [setMessages] and [setPlan] see the state
    of the moment. *)
Definition resume (net : Network) (waiting : Waiting) (p : Page)
  : Page * option Waiting :=
  match waiting with
  | AwaitEdit =>
      (match edit_answer net with
       | Rejects message => failed message p
       | NotOk => failed "Failed to edit slide." p
       | Ok updatedSlide =>
           {| workspace :=
                handleSlideUpdated updatedSlide (clock net) (workspace p);
              chat := {| messages :=
                           (pop (messages (chat p))
                              ++ [ai ("Updated Slide "
                                      ++ pretty (slide_id updatedSlide)
                                      ++ ".")])%list;
                         loading := false; error := error (chat p);
                         streamSessionId := streamSessionId (chat p) |};
              sent := sent p |}
       end, None)
  | AwaitStyle text =>
      match style_answer net with
      | Rejects message => (failed message p, None)
      | NotOk => (failed "Style analysis failed." p, None)
      | Ok nextStyleDef =>
          (send (Plan (session_id net) text nextStyleDef)
             {| workspace := workspace p;
                chat := {| messages :=
                             (pop (messages (chat p))
                                ++ [{| role := "ai-streaming-thinking";
                                       content := "Thinking...";
                                       isStreaming := false |}])%list;
                           loading := loading (chat p);
                           error := error (chat p);
                           streamSessionId := Some (session_id net) |};
                sent := sent p |},
           Some (AwaitPlan nextStyleDef))
      end
  | AwaitPlan nextStyleDef =>
      (match plan_answer net with
       | Rejects message => failed message p
       | NotOk => failed "Plan generation failed." p
       | Ok data =>
           {| workspace := handlePlanGenerated data nextStyleDef (workspace p);
              chat := {| messages :=
                           final_messages stringify_log stringify_steps data
                             (messages (chat p));
                         loading := false; error := error (chat p);
                         streamSessionId := None |};
              sent := sent p |}
       end, None)
  end.

(** A call that runs to its end with nothing in between. *)
Definition finish (net : Network) (waiting : option Waiting) (p : Page) : Page :=
  match waiting with
  | None => p
  | Some w1 =>
      match resume net w1 p with
      | (p1, None) => p1
      | (p1, Some w2) => (resume net w2 p1).1
      end
  end.

(** A submission that runs to its end before anything else happens. *)
Definition alone (net : Network) (text : string) (file : option File)
    (p : Page) : Page :=
  let '(p1, waiting) := submit text file p in finish net waiting p1.

(** Two submissions of text, the second one made while the first one
    waits for its first answer; the answers then arrive in turn. *)
Definition overlapped (net : Network) (first second : string) (p : Page)
  : Page :=
  let '(p1, w1) := submit first None p in
  let '(p2, w2) := submit second None p1 in
  match w1, w2 with
  | Some a, Some b =>
      let '(p3, a') := resume net a p2 in
      let '(p4, b') := resume net b p3 in
      let p5 := match a' with
                | Some a'' => (resume net a'' p4).1
                | None => p4
                end in
      match b' with
      | Some b'' => (resume net b'' p5).1
      | None => p5
      end
  | _, _ => p2
  end.

End Steps.

(** A message that stands for something still under way. *)
Definition placeholder (m : Message) : bool :=
  bool_decide (role m = "ai-streaming-thinking") || isStreaming m.

Definition is_edit_request (r : Request) : bool :=
  match r with
  | EditSlide _ _ _ _ => true
  | _ => false
  end.

Definition apology : Message :=
  ai "Sorry, I encountered an error. Please try again.".

(** [after] is [before] followed by replies none of which is a placeholder
    or a message of the user, the last one a plain message of the
    assistant. *)
Definition settled (before after : list Message) : Prop :=
  exists replies,
    after = (before ++ replies)%list
    /\ (forall m, In m replies -> placeholder m = false /\ role m <> "user")
    /\ exists m, last replies = Some m /\ role m = "ai".

End PlanChat.

(** Stand-ins for [JSON.stringify], and a network that answers every
    request of the chat pane. *)
Definition sample_stringify_log (l : list string) : string :=
  "[" ++ String.concat "," l ++ "]".

Definition sample_stringify_steps (l : list (string * string)) : string :=
  "[" ++ String.concat "," (map (fun step => step.1 ++ ":" ++ step.2) l) ++ "]".

Definition sample_network : PlanChat.Network :=
  {| PlanChat.edit_answer := PlanChat.Ok sample_update;
     PlanChat.style_answer := PlanChat.Ok None;
     PlanChat.plan_answer := PlanChat.Ok sample_plan;
     PlanChat.session_id := "plan_1700000000000_k3j9x2m1q";
     PlanChat.clock := 1700000000500 |}.

(** The page once [sample_plan] is on show. *)
Definition sample_page : PlanChat.Page :=
  {| PlanChat.workspace := handlePlanGenerated sample_plan None initialWorkspace;
     PlanChat.chat := PlanChat.initial;
     PlanChat.sent := [] |}.

(** * Properties of the store *)

Local Open Scope list_scope.

Lemma with_messages_same s : with_messages (messages s) s = s.
Proof. by destruct s. Qed.

Lemma with_artifacts_same s : with_artifacts (artifacts s) s = s.
Proof. by destruct s. Qed.

Lemma spread_full a b : spread a (as_partial b) = b.
Proof. by destruct b. Qed.

Lemma find_id_None {A} (key : A -> string) (k : string) (l : list A) :
  find (fun x => bool_decide (key x = k)) l = None <->
  (forall x, In x l -> key x <> k).
Proof.
  induction l as [|y l IH]; simpl.
  - split; [intros _ x [] | done].
  - case_bool_decide as Hy.
    + split; [done | intros H; destruct (H y); auto].
    + rewrite IH. split.
      * intros H x [<- | Hx]; auto.
      * intros H x Hx. apply H. by right.
Qed.

Lemma map_replace_other {A} (key : A -> string) (k : string) (f : A -> A)
    (l : list A) :
  (forall x, In x l -> key x = k -> f x = x) ->
  map (fun x => if bool_decide (key x = k) then f x else x) l = l.
Proof.
  induction l as [|y l IH]; simpl; intros H; [done |].
  rewrite IH by (intros x Hx; apply H; by right).
  case_bool_decide as Hy; [|done].
  by rewrite H; [| left |].
Qed.

Lemma lookup_map_replace {A} (key : A -> string) (k : string) (f : A -> A)
    (l : list A) (i : nat) :
  map (fun x => if bool_decide (key x = k) then f x else x) l !! i
  = (fun x => if bool_decide (key x = k) then f x else x) <$> (l !! i).
Proof. apply list_lookup_fmap. Qed.

Lemma addMessage_present s msg :
  (exists m, In m (messages s) /\ msg_id m = msg_id msg) -> addMessage msg s = s.
Proof.
  intros (m & Hin & Hid). unfold addMessage.
  destruct (find _ (messages s)) eqn:Hf; [done |].
  rewrite find_id_None in Hf. by destruct (Hf m Hin).
Qed.

Lemma addMessage_ids_distinct s msg :
  NoDup (map msg_id (messages s)) ->
  NoDup (map msg_id (messages (addMessage msg s))).
Proof.
  intros Hnd. unfold addMessage.
  destruct (find _ (messages s)) eqn:Hf; [done |].
  rewrite find_id_None in Hf. simpl.
  rewrite List.map_app. apply NoDup_app. split_and!; [done | | apply NoDup_singleton].
  intros x Hx Hx'. apply list_elem_of_In in Hx, Hx'.
  apply in_map_iff in Hx as (m & <- & Hm). simpl in Hx'.
  destruct Hx' as [Heq | []]. by destruct (Hf m Hm).
Qed.

Lemma run_snoc acts act s : run (acts ++ [act]) s = dispatch act (run acts s).
Proof. unfold run. by rewrite fold_left_app. Qed.

(** C8. When a message with the id of [msg] is already stored,
    [addMessage msg] returns the state unchanged; consequently the ids stay
    pairwise distinct along any sequence of [addMessage] calls, from a state
    whose ids are distinct and in particular from the initial store. *)
Theorem addMessage_no_duplicate_ids :
  (forall s msg,
      (exists m, In m (messages s) /\ msg_id m = msg_id msg) ->
      addMessage msg s = s)
  /\ (forall s msgs,
         NoDup (map msg_id (messages s)) ->
         NoDup (map msg_id (messages (run (map AAddMessage msgs) s))))
  /\ (forall msgs,
         NoDup (map msg_id (messages (run (map AAddMessage msgs) initialState)))).
Proof.
  assert (Hrun : forall s msgs,
             NoDup (map msg_id (messages s)) ->
             NoDup (map msg_id (messages (run (map AAddMessage msgs) s)))).
  { intros s msgs Hs. induction msgs as [|m msgs IH] using rev_ind; [done |].
    rewrite List.map_app. simpl. rewrite run_snoc. simpl.
    by apply addMessage_ids_distinct. }
  split_and!; [apply addMessage_present | done |].
  intros msgs. apply Hrun. simpl. apply NoDup_nil_2.
Qed.

Lemma addMessage_no_duplicate_ids_witness :
  addMessage (sample_message "m1" "again")
             (run [AAddMessage (sample_message "m1" "hello")] initialState)
  = run [AAddMessage (sample_message "m1" "hello")] initialState
  /\ NoDup (map msg_id (messages
       (run (map AAddMessage [sample_message "m1" "hello";
                              sample_message "m1" "again";
                              sample_message "m2" "bye"])
            (run [AAddMessage (sample_message "m0" "first")] initialState)))).
Proof.
  split.
  - apply (proj1 addMessage_no_duplicate_ids).
    exists (sample_message "m1" "hello"). split; [by left | reflexivity].
  - apply (proj1 (proj2 addMessage_no_duplicate_ids)). vm_compute.
    apply NoDup_cons_2; [apply not_elem_of_nil | apply NoDup_nil_2].
Defined.

(** C9. [updateArtifact id updates] keeps the length of the artifacts
    list, rewrites each position in place (so the order is kept), leaves
    every artifact whose id differs from [id] as it is, and leaves the
    whole list as it is when no stored artifact has that id. *)
Theorem updateArtifact_frame (id : string) (updates : PartialArtifact)
    (s : AppState) :
  length (artifacts (updateArtifact id updates s)) = length (artifacts s)
  /\ (forall (i : nat) a,
         artifacts s !! i = Some a ->
         artifacts (updateArtifact id updates s) !! i
         = Some (if bool_decide (art_id a = id) then spread a updates else a))
  /\ (forall (i : nat) a,
         artifacts s !! i = Some a -> art_id a <> id ->
         artifacts (updateArtifact id updates s) !! i = Some a)
  /\ ((forall a, In a (artifacts s) -> art_id a <> id) ->
      artifacts (updateArtifact id updates s) = artifacts s).
Proof.
  unfold updateArtifact. simpl. split_and!.
  - apply length_map.
  - intros i a Hi. rewrite lookup_map_replace, Hi. done.
  - intros i a Hi Hne. rewrite lookup_map_replace, Hi. simpl.
    by rewrite bool_decide_eq_false_2.
  - intros H. apply map_replace_other. intros a Ha Hid. by destruct (H a Ha).
Qed.

Lemma updateArtifact_frame_witness :
  artifacts (updateArtifact "deck" (only_title "New")
               (run [AAddArtifact (sample_artifact "deck" "v" 1);
                     AAddArtifact (sample_artifact "notes" "n" 1)] initialState))
    !! 1%nat
  = Some (sample_artifact "notes" "n" 1)
  /\ artifacts (updateArtifact "ghost" (only_title "New")
               (run [AAddArtifact (sample_artifact "deck" "v" 1)] initialState))
     = artifacts (run [AAddArtifact (sample_artifact "deck" "v" 1)] initialState).
Proof.
  split.
  - apply (proj1 (proj2 (proj2 (updateArtifact_frame "deck" (only_title "New") _))));
      [reflexivity | discriminate].
  - apply (proj2 (proj2 (proj2 (updateArtifact_frame "ghost" (only_title "New") _)))).
    intros a [<- | []]. discriminate.
Defined.

(** * The log *)

Lemma logs_dispatch act s :
  logs (dispatch act s)
  = match act with
    | AAddLog log => (logs s ++ [log])%list
    | AClearLogs => []
    | _ => logs s
    end.
Proof.
  destruct act; try reflexivity.
  simpl. unfold addMessage. by destruct (find _ _).
  simpl. unfold addArtifact. by destruct (find _ _).
Qed.

(** C5, as stated, fails: [clearLogs] is an operation on the log, and after
    it an event recorded before is no longer there. *)
Lemma clearLogs_drops_recorded_events :
  let s := run [AAddLog (sample_log "log-1" "planner")] initialState in
  logs s = [sample_log "log-1" "planner"]
  /\ logs (dispatch AClearLogs s) = []
  /\ ~ logs s `prefix_of` logs (dispatch AClearLogs s).
Proof.
  simpl. split_and!; [reflexivity | reflexivity |].
  intros [k Hk]. discriminate Hk.
Qed.

(** C5, amended. [addLog] appends exactly one entry at the end of the log
    and keeps what was recorded before as a prefix; [clearLogs] empties the
    log; every other action of the store leaves the log exactly as it is.
    Hence along any run without [clearLogs] the events recorded before are
    kept, unchanged, as a prefix of the log, and a run with neither [addLog]
    nor [clearLogs] leaves the log unchanged. *)
Theorem logs_append_only_until_cleared :
  (forall log s, logs (addLog log s) = logs s ++ [log])
  /\ (forall s, logs (clearLogs s) = [])
  /\ (forall act s,
         is_clearLogs act = false ->
         logs s `prefix_of` logs (dispatch act s))
  /\ (forall acts s,
         forallb (fun act => negb (is_clearLogs act)) acts = true ->
         logs s `prefix_of` logs (run acts s))
  /\ (forall act s,
         logs (dispatch act s)
         = match act with
           | AAddLog log => logs s ++ [log]
           | AClearLogs => []
           | _ => logs s
           end)
  /\ (forall acts s,
         forallb (fun act => match act with
                             | AAddLog _ | AClearLogs => false
                             | _ => true
                             end) acts = true ->
         logs (run acts s) = logs s).
Proof.
  assert (Hstep : forall act s, is_clearLogs act = false ->
                                logs s `prefix_of` logs (dispatch act s)).
  { intros act s Hact. rewrite logs_dispatch.
    destruct act; try done; try discriminate. by apply prefix_app_r. }
  split_and!; [done | done | done | | apply logs_dispatch |].
  - intros acts.
    induction acts as [|act acts IH] using rev_ind; intros s Hacts.
    + done.
    + rewrite forallb_app in Hacts. apply andb_prop in Hacts as [Hacts Hact].
      simpl in Hact. rewrite andb_true_r in Hact. apply negb_true_iff in Hact.
      rewrite run_snoc. etrans; [by apply IH | by apply Hstep].
  - intros acts.
    induction acts as [|act acts IH] using rev_ind; intros s Hacts.
    + done.
    + rewrite forallb_app in Hacts. apply andb_prop in Hacts as [Hacts Hact].
      simpl in Hact. rewrite andb_true_r in Hact.
      rewrite run_snoc, logs_dispatch, <- (IH s Hacts).
      by destruct act.
Qed.

Lemma logs_append_only_until_cleared_witness :
  logs initialState
    `prefix_of` logs (dispatch (AAddLog (sample_log "log-1" "planner")) initialState)
  /\ logs (run [AAddLog (sample_log "log-1" "planner")] initialState)
       `prefix_of`
     logs (run [AToggleSidebar; AAddLog (sample_log "log-2" "reviewer")]
               (run [AAddLog (sample_log "log-1" "planner")] initialState)).
Proof.
  split.
  - apply (proj1 (proj2 (proj2 logs_append_only_until_cleared))). reflexivity.
  - apply (proj1 (proj2 (proj2 (proj2 logs_append_only_until_cleared)))).
    reflexivity.
Defined.

(** * Artifact versions *)

Lemma find_replaced artifact l old :
  find (fun a => bool_decide (art_id a = art_id artifact)) l = Some old ->
  find (fun a => bool_decide (art_id a = art_id artifact))
       (map (fun a => if bool_decide (art_id a = art_id artifact)
                      then spread a (as_partial artifact) else a) l)
  = Some artifact.
Proof.
  induction l as [|a l IH]; simpl; [done |].
  case_bool_decide as Ha.
  - intros _. rewrite spread_full. simpl. by rewrite bool_decide_eq_true_2.
  - intros Hl. simpl. rewrite bool_decide_eq_false_2 by done. by apply IH.
Qed.

Lemma artifact_of_addArtifact_existing s artifact old :
  artifact_of (art_id artifact) s = Some old ->
  artifact_of (art_id artifact) (addArtifact artifact s) = Some artifact.
Proof.
  unfold artifact_of, addArtifact. intros Hold. rewrite Hold. simpl.
  by eapply find_replaced.
Qed.

(** C1, as stated, fails: the store copies the version of the incoming
    artifact. Replacing the stored artifact by one that carries version 1
    again (what the stream handler builds when the payload has no version)
    leaves the version at 1. *)
Lemma addArtifact_replacement_keeps_version_1 :
  let s := run [AAddArtifact (sample_artifact "deck" "draft" 1)] initialState in
  let s' := addArtifact (sample_artifact "deck" "revised" 1) s in
  artifact_of "deck" s = Some (sample_artifact "deck" "draft" 1)
  /\ artifact_of "deck" s' = Some (sample_artifact "deck" "revised" 1)
  /\ ~ (forall before after,
           artifact_of "deck" s = Some before ->
           artifact_of "deck" s' = Some after ->
           art_version before < art_version after).
Proof.
  simpl. split_and!; [reflexivity | reflexivity |].
  intros H. specialize (H _ _ eq_refl eq_refl). simpl in H. lia.
Qed.

(** C1, amended. When an artifact with the id of the incoming artifact is
    already stored, the entry stored for that id after [addArtifact] is the
    incoming artifact itself: its version is the incoming version, whatever
    the version stored before, and it is greater than the version stored
    before exactly when the incoming version is. *)
Theorem addArtifact_stores_incoming_version (s : AppState)
    (artifact old : Artifact) :
  artifact_of (art_id artifact) s = Some old ->
  exists new,
    artifact_of (art_id artifact) (addArtifact artifact s) = Some new
    /\ new = artifact
    /\ art_version new = art_version artifact
    /\ (art_version old < art_version new
        <-> art_version old < art_version artifact).
Proof.
  intros Hold. exists artifact. split_and!; try done.
  by eapply artifact_of_addArtifact_existing.
Qed.

Lemma addArtifact_stores_incoming_version_witness :
  exists new,
    artifact_of "deck"
      (addArtifact (sample_artifact "deck" "revised" 7)
         (run [AAddArtifact (sample_artifact "deck" "draft" 1)] initialState))
    = Some new
    /\ new = sample_artifact "deck" "revised" 7
    /\ art_version new = 7
    /\ (1 < art_version new <-> 1 < 7).
Proof.
  apply (addArtifact_stores_incoming_version
           (run [AAddArtifact (sample_artifact "deck" "draft" 1)] initialState)
           (sample_artifact "deck" "revised" 7)
           (sample_artifact "deck" "draft" 1)).
  reflexivity.
Defined.

(** * Re-submission *)

Lemma addArtifact_same_everywhere s a :
  In a (artifacts s) ->
  (forall b, In b (artifacts s) -> art_id b = art_id a -> b = a) ->
  addArtifact a s = s.
Proof.
  intros Hin Hall. unfold addArtifact.
  destruct (find _ (artifacts s)) eqn:Hf.
  - rewrite map_replace_other; [apply with_artifacts_same |].
    intros b Hb Hid. rewrite spread_full. symmetry. by apply Hall.
  - rewrite find_id_None in Hf. by destruct (Hf a Hin).
Qed.

Lemma length_addArtifact_existing s a old :
  artifact_of (art_id a) s = Some old ->
  length (artifacts (addArtifact a s)) = length (artifacts s).
Proof.
  unfold artifact_of, addArtifact. intros ->. simpl. apply length_map.
Qed.

Lemma stored_has_entry s a :
  In a (artifacts s) -> exists old, artifact_of (art_id a) s = Some old.
Proof.
  intros Hin. unfold artifact_of.
  destruct (find _ (artifacts s)) as [old|] eqn:Hf; [by eexists |].
  rewrite find_id_None in Hf. by destruct (Hf a Hin).
Qed.

(** C7. Re-submitting unchanged work commits nothing new. Adding an
    artifact equal to a stored one leaves the entry for its id equal to it
    (same version, same content) and adds no entry; when every stored
    artifact with that id equals it, the whole state is unchanged. And
    [generateImage] on a slide whose [imageUrl] is set issues no request
    and changes nothing. *)
Theorem resubmission_is_a_noop :
  (forall s a,
      In a (artifacts s) ->
      artifact_of (art_id a) (addArtifact a s) = Some a
      /\ length (artifacts (addArtifact a s)) = length (artifacts s))
  /\ (forall s a,
         In a (artifacts s) ->
         (forall b, In b (artifacts s) -> art_id b = art_id a -> b = a) ->
         addArtifact a s = s)
  /\ (forall slide styleDef outcome now h,
         url_set (imageUrl h) = true ->
         generateImage slide styleDef outcome now h = (h, [])).
Proof.
  split_and!.
  - intros s a Hin. destruct (stored_has_entry s a Hin) as [old Hold]. split.
    + by eapply artifact_of_addArtifact_existing.
    + by eapply length_addArtifact_existing.
  - apply addArtifact_same_everywhere.
  - intros slide styleDef outcome now h Hset. unfold generateImage.
    by rewrite Hset.
Qed.

Lemma resubmission_is_a_noop_witness :
  (artifact_of "deck"
     (addArtifact (sample_artifact "deck" "draft" 1)
        (run [AAddArtifact (sample_artifact "deck" "draft" 1)] initialState))
   = Some (sample_artifact "deck" "draft" 1)
   /\ length (artifacts
        (addArtifact (sample_artifact "deck" "draft" 1)
           (run [AAddArtifact (sample_artifact "deck" "draft" 1)] initialState)))
      = 1%nat)
  /\ addArtifact (sample_artifact "deck" "draft" 1)
       (run [AAddArtifact (sample_artifact "deck" "draft" 1)] initialState)
     = run [AAddArtifact (sample_artifact "deck" "draft" 1)] initialState
  /\ generateImage sample_slide None (Ok "/static/images/2.png") 5 sample_ready
     = (sample_ready, []).
Proof.
  split; [| split].
  - apply (proj1 resubmission_is_a_noop
             (run [AAddArtifact (sample_artifact "deck" "draft" 1)] initialState)
             (sample_artifact "deck" "draft" 1)).
    by left.
  - apply (proj1 (proj2 resubmission_is_a_noop)).
    + by left.
    + intros b [<- | []] _. reflexivity.
  - apply (proj2 (proj2 resubmission_is_a_noop)). reflexivity.
Defined.

(** The urls [generateImage] writes are set in the sense of its own guard,
    so a second call after a successful one issues nothing. *)
Lemma generateImage_then_again slide styleDef url now outcome' now' h :
  url_set (imageUrl h) = false ->
  let h' := fst (generateImage slide styleDef (Ok url) now h) in
  url_set (imageUrl h') = true
  /\ snd (generateImage slide styleDef outcome' now' h') = [].
Proof.
  intros Hunset. unfold generateImage. rewrite Hunset. simpl.
  assert (Hset : truthy (url ++ "?t=" ++ pretty now)%string = true).
  { unfold truthy. apply negb_true_iff, bool_decide_eq_false_2.
    by destruct url. }
  by rewrite Hset.
Qed.

(** A failed generation leaves the url unset and did issue one request. *)
Lemma generateImage_unset_issues_one slide styleDef outcome now h :
  url_set (imageUrl h) = false ->
  snd (generateImage slide styleDef outcome now h)
  = [{| req_slide := slide; req_style_def := styleDef |}].
Proof.
  intros Hunset. unfold generateImage. rewrite Hunset. by destruct outcome.
Qed.

(** * The chat stream *)

Section StreamFacts.

Variable JSON_parse : string -> Parsed.

Lemma bind_inl {A B} (m : M A) (k : A -> M B) w x w' :
  (m ≫= k) w = (inl x, w') ->
  exists y w1, m w = (inl y, w1) /\ k y w1 = (inl x, w').
Proof.
  unfold mbind, M_bind, bind. destruct (m w) as [[y | e] w1]; [eauto | done].
Qed.

Lemma appendMessageContent_unbound :
  bool_decide ("appendMessageContent" ∈ destructured) = false.
Proof.
  apply bool_decide_eq_false_2. unfold destructured.
  rewrite !elem_of_cons, elem_of_nil. intros H.
  repeat (destruct H as [H | H]; [discriminate H |]). done.
Qed.

Lemma setIsStreaming_bound :
  bool_decide ("setIsStreaming" ∈ destructured) = true.
Proof.
  apply bool_decide_eq_true_2. unfold destructured.
  rewrite !elem_of_cons. auto 10.
Qed.

(** The handler's own [try]/[catch] turns every exception into a console
    line: [onmessage] always returns. *)
Lemma onmessage_returns now ev w :
  exists w', onmessage JSON_parse now ev w = (inl tt, w').
Proof.
  unfold onmessage. destruct (negb (truthy (ev_data ev))); [by eexists |].
  unfold try_catch.
  destruct (onmessage_body JSON_parse now ev w) as [[[] | e] w1]; by eexists.
Qed.

Lemma deliver_returns evs w :
  exists w', deliver JSON_parse evs w = (inl tt, w').
Proof.
  revert w. induction evs as [|[now ev] evs IH]; intros w; simpl.
  - by eexists.
  - unfold mbind, M_bind, bind.
    destruct (onmessage_returns now ev w) as [w1 ->]. apply IH.
Qed.

(** The duplicate branch, step by step. *)
Lemma onmessage_duplicate now ev w :
  ev_event ev = "message" ->
  msgId_of now ev ∈ seenMessageIds w ->
  onmessage JSON_parse now ev w
  = (inl tt,
     if truthy (ev_data ev)
     then {| store := store w; seenMessageIds := seenMessageIds w;
             console := console w ++
               [("Error parsing event data",
                 ReferenceError "appendMessageContent")] |}
     else w).
Proof.
  intros Hev Hseen. unfold onmessage.
  destruct (truthy (ev_data ev)) eqn:Hdata; simpl; [|done].
  unfold try_catch, onmessage_body.
  rewrite Hev, bool_decide_eq_true_2 by done. rewrite Hdata.
  unfold mbind, M_bind, bind, seen_has.
  rewrite bool_decide_eq_true_2 by done. cbn [negb].
  unfold call. rewrite appendMessageContent_unbound. done.
Qed.

End StreamFacts.

(** C10. A 'message' event whose id is already in [seenMessageIds] makes
    [onmessage] return normally and leaves the store (hence the message
    list and every message's content) and the set of seen ids as they
    were: the call of [appendMessageContent], a name the hook never bound,
    raises a [ReferenceError] that the handler's own catch logs. *)
Theorem duplicate_message_event_changes_nothing
    (JSON_parse : string -> Parsed) (now : Z) (ev : EventSourceMessage)
    (w : World) :
  ev_event ev = "message" ->
  msgId_of now ev ∈ seenMessageIds w ->
  exists w',
    onmessage JSON_parse now ev w = (inl tt, w')
    /\ store w' = store w
    /\ messages (store w') = messages (store w)
    /\ seenMessageIds w' = seenMessageIds w
    /\ (ev_data ev <> "" ->
        console w' = console w ++
          [("Error parsing event data", ReferenceError "appendMessageContent")]).
Proof.
  intros Hev Hseen. eexists. split; [by apply onmessage_duplicate |].
  unfold truthy. case_bool_decide as Hdata; simpl; by split_and!.
Qed.

Lemma duplicate_message_event_changes_nothing_witness :
  let first := sample_event "message" "m1" "Hel" in
  let again := sample_event "message" "m1" "lo" in
  let w1 := (onmessage sample_parse 1 first fresh_world).2 in
  exists w',
    onmessage sample_parse 2 again w1 = (inl tt, w')
    /\ store w' = store w1
    /\ messages (store w') = messages (store w1)
    /\ seenMessageIds w' = seenMessageIds w1
    /\ (ev_data again <> "" ->
        console w' = console w1 ++
          [("Error parsing event data", ReferenceError "appendMessageContent")]).
Proof.
  intros first again w1.
  apply (duplicate_message_event_changes_nothing sample_parse 2 again w1).
  - reflexivity.
  - apply (bool_decide_unpack _). vm_compute. exact I.
Defined.

(** The stored message still reads "Hel" after the second chunk. *)
Example duplicate_chunk_is_lost :
  let first := sample_event "message" "m1" "Hel" in
  let again := sample_event "message" "m1" "lo" in
  let w1 := (onmessage sample_parse 1 first fresh_world).2 in
  map msg_content (messages (store (onmessage sample_parse 2 again w1).2))
  = [Str "Hel"].
Proof. reflexivity. Qed.

Section StreamRuns.

Variable JSON_parse : string -> Parsed.

(** Within one stream the set of seen ids only grows. *)
Lemma onmessage_seen_grows now ev w id :
  id ∈ seenMessageIds w ->
  id ∈ seenMessageIds (onmessage JSON_parse now ev w).2.
Proof.
  intros Hid.
  unfold onmessage, try_catch, onmessage_body, parsed_data, member, call,
    mbind, M_bind, bind, seen_has, seen_add, on_store, console_error, throw, ret.
  repeat (case_match; simplify_eq/=; try done); set_solver.
Qed.

Lemma deliver_seen_grows evs w id :
  id ∈ seenMessageIds w ->
  id ∈ seenMessageIds (deliver JSON_parse evs w).2.
Proof.
  revert w. induction evs as [|[now ev] evs IH]; intros w Hid; simpl; [done |].
  unfold mbind, M_bind, bind.
  pose proof (onmessage_seen_grows now ev w id Hid) as H1.
  destruct (onmessage_returns JSON_parse now ev w) as [w1 Hw1].
  rewrite Hw1 in *. simpl in H1. by apply IH.
Qed.

(** A 'message' event with data records its id. *)
Lemma onmessage_records_id now ev w :
  ev_event ev = "message" -> ev_data ev <> "" ->
  msgId_of now ev ∈ seenMessageIds (onmessage JSON_parse now ev w).2.
Proof.
  intros Hev Hdata.
  assert (Ht : truthy (ev_data ev) = true).
  { unfold truthy. by rewrite bool_decide_eq_false_2. }
  unfold onmessage, try_catch, onmessage_body. rewrite Ht. cbn [negb].
  rewrite Hev, bool_decide_eq_true_2 by done.
  unfold mbind, M_bind, bind, seen_has, seen_add, call, on_store, ret.
  case_bool_decide as Hseen; simpl.
  - done.
  - set_solver.
Qed.

(** Seen earlier in the same stream: after a 'message' event with id [i]
    and some data, and whatever was delivered since, a further 'message'
    event with id [i] changes nothing in the store. *)
Lemma repeated_id_in_stream_changes_nothing
    now1 ev1 between now2 ev2 w :
  ev_event ev1 = "message" -> ev_data ev1 <> "" -> ev_id ev1 <> "" ->
  ev_event ev2 = "message" -> ev_id ev2 = ev_id ev1 ->
  let w1 := (deliver JSON_parse ((now1, ev1) :: between) w).2 in
  exists w2, onmessage JSON_parse now2 ev2 w1 = (inl tt, w2)
             /\ store w2 = store w1.
Proof.
  intros Hev1 Hdata1 Hid1 Hev2 Hid2 w1.
  assert (Hseen : msgId_of now2 ev2 ∈ seenMessageIds w1).
  { assert (Hsame : msgId_of now2 ev2 = msgId_of now1 ev1).
    { unfold msgId_of, truthy. rewrite Hid2.
      by rewrite bool_decide_eq_false_2. }
    rewrite Hsame. unfold w1. simpl. unfold mbind, M_bind, bind.
    pose proof (onmessage_records_id now1 ev1 w Hev1 Hdata1) as H1.
    destruct (onmessage_returns JSON_parse now1 ev1 w) as [wa Hwa].
    rewrite Hwa in *. by apply deliver_seen_grows. }
  eexists. split; [by apply onmessage_duplicate |].
  by destruct (truthy (ev_data ev2)).
Qed.

End StreamRuns.

(** * Leaving the stream *)

Section StreamExit.

Variable JSON_parse : string -> Parsed.

Lemma call_setIsStreaming v w :
  call "setIsStreaming" (ASetIsStreaming v) w
  = (inl tt, {| store := setIsStreaming v (store w);
                seenMessageIds := seenMessageIds w;
                console := console w |}).
Proof. unfold call. by rewrite setIsStreaming_bound. Qed.

(** [create] resolves only through [onclose], which clears the flag. *)
Lemma create_once_resolved a w w' :
  create_once JSON_parse a w = (inl tt, w') ->
  isStreaming (store w') = false.
Proof.
  unfold create_once. destruct (fetch_error a); [done |].
  intros H. apply bind_inl in H as (_ & w1 & _ & H).
  apply bind_inl in H as (_ & w2 & _ & H).
  destruct (ending a); [| done | done].
  unfold onclose in H. rewrite call_setIsStreaming in H. by simplify_eq.
Qed.

(** An attempt cut short by the page being hidden never resolves. *)
Lemma create_once_cut_short a w :
  cut_short a = true -> exists e w', create_once JSON_parse a w = (inr e, w').
Proof.
  unfold cut_short, create_once.
  destruct (fetch_error a); [done |]. destruct (response_ok a); [| done].
  destruct (ending a); try done. intros _.
  unfold mbind, M_bind, bind. simpl.
  destruct (deliver_returns JSON_parse (deliveries a) w) as [w1 ->].
  by eexists _, _.
Qed.

Lemma fetchEventSource_outcome attempts : forall w,
  match fetchEventSource JSON_parse attempts w with
  | (inl settled, w') =>
      if settled
      then isStreaming (store w') = false
      else forallb cut_short attempts = true
  | (inr _, _) => True
  end.
Proof.
  induction attempts as [|a rest IH]; intros w; simpl; [done |].
  unfold try_catch. unfold mbind at 1, M_bind at 1, bind at 1.
  destruct (create_once JSON_parse a w) as [[[] | err] w1] eqn:Hc; simpl.
  - by eapply create_once_resolved.
  - destruct (cut_short a); simpl.
    + apply IH.
    + unfold mbind, M_bind, bind. simpl. done.
Qed.

Lemma fetchEventSource_settles attempts : forall w,
  forallb cut_short attempts = false ->
  match fetchEventSource JSON_parse attempts w with
  | (inl settled, _) => settled = true
  | (inr _, _) => True
  end.
Proof.
  intros w Hcut. pose proof (fetchEventSource_outcome attempts w) as H.
  destruct (fetchEventSource JSON_parse attempts w) as [[[|] | err] w1];
    [done | congruence | done].
Qed.

Lemma startStream_outcome attempts w :
  exists settled w',
    startStream JSON_parse attempts w = (inl settled, w')
    /\ (settled = true -> isStreaming (store w') = false)
    /\ (forallb cut_short attempts = false -> settled = true).
Proof.
  unfold startStream. unfold mbind at 1, M_bind at 1, bind at 1.
  rewrite call_setIsStreaming.
  unfold mbind at 1, M_bind at 1, bind at 1. cbn [seen_reset].
  unfold try_catch.
  match goal with |- context [fetchEventSource _ _ ?w0] =>
    pose proof (fetchEventSource_outcome attempts w0) as H;
    pose proof (fetchEventSource_settles attempts w0) as H';
    destruct (fetchEventSource JSON_parse attempts w0) as [[settled | err] w1]
  end.
  - exists settled, w1. split; [done |]. destruct settled; [done |].
    split; [done | congruence].
  - unfold mbind, M_bind, bind, console_error.
    rewrite call_setIsStreaming. simpl. eauto.
Qed.

End StreamExit.

(** C6. [startStream] never throws, and whenever it returns the store's
    [isStreaming] is false: after a normal close ([onclose]), after a failed
    connection, a refused response or a broken stream ([onerror] rethrows
    and the [catch] clears the flag). It does return as soon as one
    connection attempt ends otherwise than by the page being hidden. *)
Theorem startStream_leaves_isStreaming_false
    (JSON_parse : string -> Parsed) (attempts : list Attempt) (w : World) :
  exists settled w',
    startStream JSON_parse attempts w = (inl settled, w')
    /\ (settled = true -> isStreaming (store w') = false)
    /\ (forallb cut_short attempts = false -> settled = true).
Proof. apply startStream_outcome. Qed.

Lemma startStream_leaves_isStreaming_false_witness :
  let broken :=
    sample_attempt [(1, sample_event "message" "m1" "Hel");
                    (2, sample_event "artifact" "" "{}")]
                   (StreamBroke (NetworkError "reset")) in
  exists settled w',
    startStream sample_parse [broken] fresh_world = (inl settled, w')
    /\ settled = true
    /\ isStreaming (store w') = false.
Proof.
  intros broken.
  destruct (startStream_leaves_isStreaming_false sample_parse [broken] fresh_world)
    as (settled & w' & Hrun & Hoff & Hret).
  exists settled, w'. split; [exact Hrun |].
  assert (Hs : settled = true) by (apply Hret; reflexivity).
  split; [exact Hs | exact (Hoff Hs)].
Defined.

Example startStream_closed_normally :
  let closed :=
    sample_attempt [(1, sample_event "message" "m1" "Hel");
                    (2, sample_event "artifact" "" "{}")] ServerClosed in
  let w' := (startStream sample_parse [closed] fresh_world).2 in
  isStreaming (store w') = false
  /\ map art_version (artifacts (store w')) = [1]
  /\ activeArtifactId (store w') = Some "deck".
Proof. by vm_compute. Qed.

(** While the page is hidden the promise is pending and the flag stays
    up; the stream is re-opened when the page is shown again. *)
Example startStream_hidden_then_closed :
  let hidden := sample_attempt [(1, sample_event "message" "m1" "Hel")]
                               PageHidden in
  let closed := sample_attempt [] ServerClosed in
  startStream sample_parse [hidden] fresh_world
  = (inl false,
     {| store := setIsStreaming true
                   (addMessage
                      {| msg_id := "m1"; msg_role := assistant;
                         msg_content := Str "Hel"; msg_timestamp := 1;
                         msg_agentName := None; msg_isThinking := None |}
                      initialState);
        seenMessageIds := {["m1"]}; console := [] |})
  /\ (startStream sample_parse [hidden; closed] fresh_world).1 = inl true
  /\ isStreaming
       (store (startStream sample_parse [hidden; closed] fresh_world).2)
     = false.
Proof. by vm_compute. Qed.

Example startStream_refused :
  let refused :=
    {| fetch_error := None; response_ok := false; response_status := 503;
       deliveries := []; ending := ServerClosed |} in
  startStream sample_parse [refused] fresh_world
  = (inl true,
     {| store := initialState; seenMessageIds := ∅;
        console := [("SSE Error", ConnectError 503);
                    ("Stream failed", ConnectError 503)] |}).
Proof. by vm_compute. Qed.

(** * The style anchor *)

Module EngineFacts.
Import ConsistencyEngine EngineSamples.

Lemma serve_cons r rs s : serve (r :: rs) s = serve rs (handle r s).
Proof. reflexivity. Qed.

Lemma serve_app rs1 rs2 s : serve (rs1 ++ rs2) s = serve rs2 (serve rs1 s).
Proof. unfold serve. by rewrite fold_left_app. Qed.

Lemma count_app f l1 l2 : count f (l1 ++ l2) = (count f l1 + count f l2)%nat.
Proof. unfold count. by rewrite List.filter_app, length_app. Qed.

Lemma count_failed l : Forall failed_attempt l -> count produced_anchor l = 0%nat.
Proof.
  induction 1 as [|i l [_ Hi] _ IH]; [done |].
  unfold count in *. simpl. unfold produced_anchor at 1. rewrite Hi.
  by rewrite andb_false_r.
Qed.

Lemma count_conditioned f a l :
  (forall i, f i = true -> anchor_producing i = true) ->
  Forall (conditioned_on a) l -> count f l = 0%nat.
Proof.
  intros Hf. induction 1 as [|i l [Hi _] _ IH]; [done |].
  unfold count in *. simpl. destruct (f i) eqn:Hfi; [| done].
  apply Hf in Hfi. unfold anchor_producing in Hfi. by rewrite Hi in Hfi.
Qed.

Lemma produced_is_producing i :
  produced_anchor i = true -> anchor_producing i = true.
Proof. unfold produced_anchor. by intros [? _]%andb_prop. Qed.

Lemma opening_handle r s : opening (handle r s) = opening s.
Proof.
  destruct r as [slide sa la|]; simpl; [| done].
  destruct (style_anchor s); [done |]. unfold select_and_generate.
  destruct (prior_anchor (opening s)); [done |].
  destruct (style_definition (opening s)); [by destruct sa | by destruct la].
Qed.

Lemma opening_serve rs : forall s, opening (serve rs s) = opening s.
Proof.
  induction rs as [|r rs IH]; intros s; [done |].
  by rewrite serve_cons, IH, opening_handle.
Qed.

(** With an anchor set, an image request issues one slide call that
    carries the anchor, and the anchor stays. *)
Lemma handle_with_anchor slide sa la s a :
  style_anchor s = Some a ->
  handle (ImageRequest slide sa la) s
  = {| opening := opening s; style_anchor := Some a;
       port_calls := port_calls s
                     ++ [{| issued := {| prompt := SlidePrompt slide;
                                         referenceImage := Some (image_bytes_ref a) |};
                            returned := la |}] |}.
Proof. intros Ha. simpl. by rewrite Ha. Qed.

Lemma serve_with_anchor rest : forall s a,
  style_anchor s = Some a ->
  forallb (fun r => negb (is_restyle r)) rest = true ->
  style_anchor (serve rest s) = Some a
  /\ map issued (port_calls (serve rest s))
     = map issued (port_calls s)
       ++ map (fun slide => {| prompt := SlidePrompt slide;
                               referenceImage := Some (image_bytes_ref a) |})
              (omap slide_of rest).
Proof.
  induction rest as [|r rest IH]; intros s a Ha Hrest.
  - split; [done |]. cbn [serve fold_left omap map]. symmetry. apply app_nil_r.
  - simpl in Hrest. apply andb_prop in Hrest as [Hr Hrest].
    destruct r as [slide sa la|]; [| done].
    rewrite serve_cons, (handle_with_anchor slide sa la s a Ha).
    destruct (IH {| opening := opening s; style_anchor := Some a;
                    port_calls := port_calls s
                      ++ [{| issued := {| prompt := SlidePrompt slide;
                                          referenceImage :=
                                            Some (image_bytes_ref a) |};
                             returned := la |}] |} a eq_refl Hrest)
      as [H1 H2].
    split; [done |]. rewrite H2. simpl. rewrite List.map_app. simpl.
    by rewrite <- app_assoc.
Qed.

(** One request keeps the calls of the session tidy. *)
Lemma handle_tidy o r s :
  opening s = o -> is_restyle r = false -> tidy o s -> tidy o (handle r s).
Proof.
  intros Ho Hr Hs. destruct r as [slide sa la|]; [| done]. clear Hr.
  unfold tidy in *. destruct (style_anchor s) as [a|] eqn:Ha.
  - rewrite (handle_with_anchor slide sa la s a Ha). simpl.
    destruct Hs as (failed & selection & later & Hcalls & Hf & Hsel & Hl).
    exists failed, selection, (later ++ [{| issued := {| prompt := SlidePrompt slide;
                                         referenceImage := Some (image_bytes_ref a) |};
                            returned := la |}]).
    split_and!; try done.
    + rewrite Hcalls. by rewrite <- !app_assoc.
    + apply Forall_app. split; [done |]. apply Forall_singleton.
      split; [done | by exists slide].
  - simpl. rewrite Ha. unfold select_and_generate, selected_by. rewrite Ho.
    destruct (prior_anchor o) as [p|].
    + simpl. eexists (port_calls s), [], [_]. split_and!; try done.
      apply Forall_singleton. split; [done | by exists slide].
    + destruct (style_definition o) as [st|].
      * destruct sa as [h|]; simpl.
        -- eexists (port_calls s), [_], [_]. split_and!; try done.
           apply Forall_singleton. split; [done | by exists slide].
        -- apply Forall_app. split; [done |]. by apply Forall_singleton.
      * destruct la as [h|]; simpl.
        -- eexists (port_calls s), [_], [].
           split_and!; try done; by exists slide.
        -- apply Forall_app. split; [done |]. by apply Forall_singleton.
Qed.

Lemma serve_tidy o rs : forall s,
  opening s = o ->
  forallb (fun r => negb (is_restyle r)) rs = true ->
  tidy o s -> tidy o (serve rs s).
Proof.
  induction rs as [|r rs IH]; intros s Ho Hrs Hs; [done |].
  simpl in Hrs. apply andb_prop in Hrs as [Hr Hrs].
  apply negb_true_iff in Hr. rewrite serve_cons. apply IH; [| done |].
  - by rewrite opening_handle.
  - by apply handle_tidy.
Qed.

(** In a tidy session the answered anchor-producing calls are those of the
    selection: one for an anchor that was produced, none otherwise. *)
Lemma tidy_produced o s :
  tidy o s ->
  count produced_anchor (port_calls s)
  = match style_anchor s with
    | Some a =>
        match origin a with
        | reused_from_prior_session => 0%nat
        | _ => 1%nat
        end
    | None => 0%nat
    end
  /\ (forall a, style_anchor s = Some a ->
        match prior_anchor o, style_definition o with
        | Some _, _ => origin a = reused_from_prior_session
        | None, Some _ => origin a = explicit_style
        | None, None => origin a = first_slide_fallback
        end).
Proof.
  unfold tidy. destruct (style_anchor s) as [a|].
  - intros (failed & selection & later & -> & Hf & Hsel & Hl).
    rewrite !count_app, (count_failed failed Hf),
      (count_conditioned produced_anchor a later produced_is_producing Hl).
    unfold selected_by in Hsel.
    destruct (prior_anchor o) as [p|].
    { destruct Hsel as [-> ->]. split; [done |]. by intros ? [= <-]. }
    destruct (style_definition o) as [st|].
    + destruct Hsel as [Ho ->]. rewrite Ho. split; [done |]. by intros ? [= <-].
    + destruct Hsel as [Ho (slide & ->)]. rewrite Ho.
      split; [done |]. by intros ? [= <-].
  - intros Hf. split; [by apply count_failed | done].
Qed.

(** Answered anchor-producing calls never exceed one per restyle, plus the
    first. *)
Lemma handle_produced r s k :
  (count produced_anchor (port_calls s)
   + match style_anchor s with Some _ => 0 | None => 1 end <= 1 + k)%nat ->
  (count produced_anchor (port_calls (handle r s))
   + match style_anchor (handle r s) with Some _ => 0 | None => 1 end
   <= 1 + (k + if is_restyle r then 1 else 0))%nat.
Proof.
  intros Hs. destruct r as [slide sa la|]; simpl.
  - destruct (style_anchor s) as [a|] eqn:Ha; simpl.
    + rewrite count_app. unfold count at 2. simpl. lia.
    + unfold select_and_generate.
      destruct (prior_anchor (opening s)); simpl.
      { rewrite count_app. unfold count at 2. simpl. lia. }
      destruct (style_definition (opening s)); simpl.
      * destruct sa; simpl; rewrite count_app; unfold count at 2; simpl; lia.
      * destruct la; simpl; rewrite count_app; unfold count at 2; simpl; lia.
  - destruct (style_anchor s); lia.
Qed.

Lemma produced_bounded rs : forall s k,
  (count produced_anchor (port_calls s)
   + match style_anchor s with Some _ => 0 | None => 1 end <= 1 + k)%nat ->
  (count produced_anchor (port_calls (serve rs s))
   + match style_anchor (serve rs s) with Some _ => 0 | None => 1 end
   <= 1 + (k + restyles rs))%nat.
Proof.
  induction rs as [|r rs IH]; intros s k Hs.
  - unfold restyles. simpl. lia.
  - rewrite serve_cons.
    apply (handle_produced r) in Hs. apply IH in Hs.
    unfold restyles in *. simpl. destruct (is_restyle r); simpl; lia.
Qed.

(** While no anchor is set and none can be reused, an image request issues
    exactly one anchor-producing call. *)
Lemma handle_without_anchor slide sa la s :
  style_anchor s = None ->
  prior_anchor (opening s) = None ->
  count anchor_producing (port_calls (handle (ImageRequest slide sa la) s))
  = S (count anchor_producing (port_calls s)).
Proof.
  intros Ha Hp. simpl. rewrite Ha. unfold select_and_generate. rewrite Hp.
  destruct (style_definition (opening s)).
  - destruct sa; simpl; rewrite count_app; unfold count at 2; simpl; lia.
  - destruct la; simpl; rewrite count_app; unfold count at 2; simpl; lia.
Qed.

End EngineFacts.

(** C2, as stated, fails: the port may answer the anchor-producing call
    with an error. No anchor is stored then, the next image request issues
    the call again, and a session without any restyle has three
    anchor-producing calls; its anchor is not set at the first image
    request but at the third. *)
Lemma failed_anchor_call_is_issued_again :
  let s := ConsistencyEngine.serve EngineSamples.style_fails_twice
             (ConsistencyEngine.open EngineSamples.themed) in
  ConsistencyEngine.restyles EngineSamples.style_fails_twice = 0%nat
  /\ ConsistencyEngine.count ConsistencyEngine.anchor_producing
       (ConsistencyEngine.port_calls s) = 3%nat
  /\ map ConsistencyEngine.issued (ConsistencyEngine.port_calls s)
     = [{| ConsistencyEngine.prompt :=
             ConsistencyEngine.StyleOnlyPrompt "navy, flat, soft light";
           ConsistencyEngine.referenceImage := None |};
        {| ConsistencyEngine.prompt :=
             ConsistencyEngine.StyleOnlyPrompt "navy, flat, soft light";
           ConsistencyEngine.referenceImage := None |};
        {| ConsistencyEngine.prompt :=
             ConsistencyEngine.StyleOnlyPrompt "navy, flat, soft light";
           ConsistencyEngine.referenceImage := None |};
        {| ConsistencyEngine.prompt := ConsistencyEngine.SlidePrompt 3;
           ConsistencyEngine.referenceImage := Some 100%nat |}]
  /\ ConsistencyEngine.style_anchor
       (ConsistencyEngine.serve (take 1 EngineSamples.style_fails_twice)
          (ConsistencyEngine.open EngineSamples.themed)) = None
  /\ ConsistencyEngine.style_anchor
       (ConsistencyEngine.serve (take 2 EngineSamples.style_fails_twice)
          (ConsistencyEngine.open EngineSamples.themed)) = None
  /\ ConsistencyEngine.style_anchor s
     = Some {| ConsistencyEngine.image_bytes_ref := 100;
               ConsistencyEngine.origin := ConsistencyEngine.explicit_style |}
  /\ ConsistencyEngine.count ConsistencyEngine.anchor_producing
       (ConsistencyEngine.port_calls s) <> 1%nat.
Proof. vm_compute. split_and!; done || lia. Qed.

(** C2, amended. In a session without restyle, whatever the port answers
    and however many images are requested:
    - the calls are, in this order, anchor-producing calls that failed,
      then the selection (no call for an anchor reused from the prior
      session, else the one anchor-producing call the port answered, the
      dedicated style request when a style is given and the slide itself
      otherwise), then slide calls that carry the handle of that anchor as
      their reference image; as long as no anchor is set every call is a
      failed attempt;
    - so exactly one anchor-producing call is answered when the anchor was
      produced, none when it was reused or is not set, and the origin of
      the anchor follows the priority order;
    - the first image request sets the anchor when it finds what its
      selection needs, issuing at most one anchor-producing call;
    - once an anchor is set it stays, and each later image request issues
      exactly one slide call whose reference image is that anchor;
    - while no anchor is set and none can be reused, each image request
      issues exactly one anchor-producing call, also after a failure.
    A restyle clears the anchor and touches no call, and in any session the
    answered anchor-producing calls are at most one plus the number of
    restyles. *)
Theorem anchor_selected_once_per_session :
  (forall o rs,
      forallb (fun r => negb (ConsistencyEngine.is_restyle r)) rs = true ->
      let s := ConsistencyEngine.serve rs (ConsistencyEngine.open o) in
      match ConsistencyEngine.style_anchor s with
      | None =>
          Forall ConsistencyEngine.failed_attempt (ConsistencyEngine.port_calls s)
      | Some a =>
          exists failed selection later,
            ConsistencyEngine.port_calls s = failed ++ selection ++ later
            /\ Forall ConsistencyEngine.failed_attempt failed
            /\ ConsistencyEngine.selected_by o a selection
            /\ Forall (fun i =>
                 ConsistencyEngine.referenceImage (ConsistencyEngine.issued i)
                 = Some (ConsistencyEngine.image_bytes_ref a)
                 /\ exists slide,
                      ConsistencyEngine.prompt (ConsistencyEngine.issued i)
                      = ConsistencyEngine.SlidePrompt slide) later
      end
      /\ ConsistencyEngine.count ConsistencyEngine.produced_anchor
           (ConsistencyEngine.port_calls s)
         = match ConsistencyEngine.style_anchor s with
           | Some a =>
               match ConsistencyEngine.origin a with
               | ConsistencyEngine.reused_from_prior_session => 0%nat
               | _ => 1%nat
               end
           | None => 0%nat
           end
      /\ (forall a, ConsistencyEngine.style_anchor s = Some a ->
            match ConsistencyEngine.prior_anchor o,
                  ConsistencyEngine.style_definition o with
            | Some _, _ =>
                ConsistencyEngine.origin a
                = ConsistencyEngine.reused_from_prior_session
            | None, Some _ =>
                ConsistencyEngine.origin a = ConsistencyEngine.explicit_style
            | None, None =>
                ConsistencyEngine.origin a
                = ConsistencyEngine.first_slide_fallback
            end))
  /\ (forall o slide sa la,
         let s := ConsistencyEngine.handle
                    (ConsistencyEngine.ImageRequest slide sa la)
                    (ConsistencyEngine.open o) in
         (ConsistencyEngine.count ConsistencyEngine.anchor_producing
            (ConsistencyEngine.port_calls s) <= 1)%nat
         /\ (ConsistencyEngine.selects o sa la = true ->
             is_Some (ConsistencyEngine.style_anchor s)))
  /\ (forall s a rest,
         ConsistencyEngine.style_anchor s = Some a ->
         forallb (fun r => negb (ConsistencyEngine.is_restyle r)) rest = true ->
         ConsistencyEngine.style_anchor (ConsistencyEngine.serve rest s) = Some a
         /\ map ConsistencyEngine.issued
              (ConsistencyEngine.port_calls (ConsistencyEngine.serve rest s))
            = map ConsistencyEngine.issued (ConsistencyEngine.port_calls s)
              ++ map (fun slide =>
                        {| ConsistencyEngine.prompt :=
                             ConsistencyEngine.SlidePrompt slide;
                           ConsistencyEngine.referenceImage :=
                             Some (ConsistencyEngine.image_bytes_ref a) |})
                     (omap ConsistencyEngine.slide_of rest))
  /\ (forall s slide sa la,
         ConsistencyEngine.style_anchor s = None ->
         ConsistencyEngine.prior_anchor (ConsistencyEngine.opening s) = None ->
         ConsistencyEngine.count ConsistencyEngine.anchor_producing
           (ConsistencyEngine.port_calls
              (ConsistencyEngine.handle
                 (ConsistencyEngine.ImageRequest slide sa la) s))
         = S (ConsistencyEngine.count ConsistencyEngine.anchor_producing
                (ConsistencyEngine.port_calls s)))
  /\ (forall s,
         ConsistencyEngine.style_anchor
           (ConsistencyEngine.handle ConsistencyEngine.Restyle s) = None
         /\ ConsistencyEngine.port_calls
              (ConsistencyEngine.handle ConsistencyEngine.Restyle s)
            = ConsistencyEngine.port_calls s
         /\ ConsistencyEngine.opening
              (ConsistencyEngine.handle ConsistencyEngine.Restyle s)
            = ConsistencyEngine.opening s)
  /\ (forall o rs,
         (ConsistencyEngine.count ConsistencyEngine.produced_anchor
            (ConsistencyEngine.port_calls
               (ConsistencyEngine.serve rs (ConsistencyEngine.open o)))
          <= 1 + ConsistencyEngine.restyles rs)%nat).
Proof.
  split_and!.
  - intros o rs Hrs s.
    assert (Htidy : ConsistencyEngine.tidy o s).
    { subst s. apply EngineFacts.serve_tidy; [done | done |].
      unfold ConsistencyEngine.tidy. simpl. apply Forall_nil_2. }
    destruct (EngineFacts.tidy_produced o s Htidy) as [Hcount Horigin].
    split_and!; [| done | done].
    unfold ConsistencyEngine.tidy in Htidy.
    by destruct (ConsistencyEngine.style_anchor s).
  - intros o slide sa la s. subst s.
    unfold ConsistencyEngine.selects. simpl.
    unfold ConsistencyEngine.select_and_generate. simpl.
    destruct (ConsistencyEngine.prior_anchor o); simpl.
    { split; [vm_compute; lia | by eexists]. }
    destruct (ConsistencyEngine.style_definition o); simpl.
    + destruct sa; simpl; (split; [vm_compute; lia |]);
        [by eexists | done].
    + destruct la; simpl; (split; [vm_compute; lia |]);
        [by eexists | done].
  - intros s a rest Ha Hrest. by apply EngineFacts.serve_with_anchor.
  - intros s slide sa la. apply EngineFacts.handle_without_anchor.
  - done.
  - intros o rs.
    pose proof (EngineFacts.produced_bounded rs (ConsistencyEngine.open o) 0) as H.
    simpl in H. specialize (H ltac:(lia)). lia.
Qed.

Lemma anchor_selected_once_per_session_witness :
  let first := ConsistencyEngine.handle
                 (ConsistencyEngine.ImageRequest 1 (Some 100%nat) (Some 11%nat))
                 (ConsistencyEngine.open EngineSamples.plain) in
  map ConsistencyEngine.issued
    (ConsistencyEngine.port_calls
       (ConsistencyEngine.serve (tail EngineSamples.five_slides) first))
  = map ConsistencyEngine.issued (ConsistencyEngine.port_calls first)
    ++ map (fun slide =>
              {| ConsistencyEngine.prompt := ConsistencyEngine.SlidePrompt slide;
                 ConsistencyEngine.referenceImage := Some 11%nat |})
           [2%nat; 3%nat; 4%nat; 5%nat].
Proof.
  intros first.
  apply (proj2 (proj1 (proj2 (proj2 anchor_selected_once_per_session))
                  first
                  {| ConsistencyEngine.image_bytes_ref := 11;
                     ConsistencyEngine.origin :=
                       ConsistencyEngine.first_slide_fallback |}
                  (tail EngineSamples.five_slides) eq_refl eq_refl)).
Defined.

(** The scenario of the spec: five image steps and no explicit style give
    one fallback anchor, made by the first request, and four calls that
    reuse it. *)
Example five_slides_one_fallback_anchor :
  let s := ConsistencyEngine.serve EngineSamples.five_slides
             (ConsistencyEngine.open EngineSamples.plain) in
  ConsistencyEngine.count ConsistencyEngine.anchor_producing
    (ConsistencyEngine.port_calls s) = 1%nat
  /\ ConsistencyEngine.style_anchor s
     = Some {| ConsistencyEngine.image_bytes_ref := 11;
               ConsistencyEngine.origin := ConsistencyEngine.first_slide_fallback |}
  /\ map (fun i => ConsistencyEngine.referenceImage (ConsistencyEngine.issued i))
         (ConsistencyEngine.port_calls s)
     = [None; Some 11%nat; Some 11%nat; Some 11%nat; Some 11%nat].
Proof. by vm_compute. Qed.

(** With an explicit style the dedicated request comes first and all five
    slides are conditioned on its result. *)
Example five_slides_explicit_style :
  let s := ConsistencyEngine.serve EngineSamples.five_slides
             (ConsistencyEngine.open EngineSamples.themed) in
  ConsistencyEngine.count ConsistencyEngine.anchor_producing
    (ConsistencyEngine.port_calls s) = 1%nat
  /\ map (fun i => ConsistencyEngine.referenceImage (ConsistencyEngine.issued i))
         (ConsistencyEngine.port_calls s)
     = [None; Some 100%nat; Some 100%nat; Some 100%nat; Some 100%nat;
        Some 100%nat].
Proof. by vm_compute. Qed.

(** * The Supervisor *)

Module SupervisorFacts.
Import Supervisor.

Lemma commit_versioned arts c :
  commit arts c = <[c_id c := versioned c (next_version arts c)]> arts.
Proof. reflexivity. Qed.

(** Committing candidates with distinct ids into an empty store gives each
    its own entry at version 1. *)
Lemma commits_distinct cs :
  NoDup (map c_id cs) ->
  let m := foldl commit ∅ cs in
  size m = length cs
  /\ (forall i, i ∉ map c_id cs -> m !! i = None)
  /\ (forall c, c ∈ cs -> m !! c_id c = Some (versioned c 1))
  /\ (forall i a, m !! i = Some a -> a_version a = 1).
Proof.
  induction cs as [|c cs IH] using rev_ind; intros Hnd m.
  - subst m. simpl. split_and!; try done.
    + intros c Hc. by apply elem_of_nil in Hc.
  - subst m. rewrite foldl_app. simpl.
    rewrite List.map_app in Hnd. simpl in Hnd.
    apply NoDup_app in Hnd as (Hnd & Hfresh & _).
    destruct (IH Hnd) as (Hsize & Hnone & Hsome & Hone).
    assert (Hc : foldl commit ∅ cs !! c_id c = None).
    { apply Hnone. intros Hin. apply (Hfresh _ Hin). by left. }
    rewrite commit_versioned. unfold next_version. rewrite Hc.
    split_and!.
    + rewrite map_size_insert_None by done. rewrite length_app. simpl. lia.
    + intros i Hi. rewrite List.map_app in Hi. simpl in Hi.
      apply not_elem_of_app in Hi as [Hi1 Hi2].
      rewrite lookup_insert_ne; [by apply Hnone |].
      intros Heq. apply Hi2. rewrite Heq. by left.
    + intros c' Hc'. apply elem_of_app in Hc' as [Hc' | Hc'].
      * rewrite lookup_insert_ne; [by apply Hsome |].
        intros Heq. apply (Hfresh (c_id c')).
        -- apply list_elem_of_fmap. eauto.
        -- rewrite Heq. by left.
      * apply list_elem_of_singleton in Hc' as ->. by rewrite lookup_insert_eq.
    + intros i a. destruct (decide (c_id c = i)) as [<- | Hne].
      * rewrite lookup_insert_eq. by intros [= <-].
      * rewrite lookup_insert_ne by done. apply Hone.
Qed.


Lemma well_formed_known cfg p st :
  well_formed cfg p = true -> st ∈ p -> known cfg st = true.
Proof.
  unfold well_formed. destruct p as [|st0 p0]; [done |].
  intros H Hin. apply andb_prop in H as [_ H].
  rewrite forallb_forall in H. apply H. by apply list_elem_of_In.
Qed.

Lemma start_well_formed cfg p :
  well_formed cfg p = true ->
  start cfg p = {| plan := p; current_step_index := 0; artifacts := ∅;
                   retry_count := ∅; replanned := ∅; history := [];
                   status := RUNNING |}.
Proof. unfold start. by intros ->. Qed.

(** The state after [k] approvals in a row. *)
Lemma approving_run cfg p cs env (k : nat) :
  well_formed cfg p = true ->
  length cs = length p ->
  (forall (j : nat) c, cs !! j = Some c -> approves (env j) c) ->
  NoDup (map c_id cs) ->
  (k <= length p)%nat ->
  let s := run cfg env k (start cfg p) in
  status s = RUNNING
  /\ plan s = p
  /\ current_step_index s = k
  /\ artifacts s = foldl commit ∅ (take k cs)
  /\ history s = concat (zip_with approved_at_once (take k p) (take k cs)).
Proof.
  intros Hwf Hlen Henv Hnd. induction k as [|k IH]; intros Hk s.
  - subst s. simpl. by rewrite start_well_formed.
  - destruct IH as (Hst & Hplan & Hidx & Harts & Hhist); [lia |].
    subst s. simpl.
    destruct (lookup_lt_is_Some_2 p k) as [st Hp]; [lia |].
    destruct (lookup_lt_is_Some_2 cs k) as [c Hc]; [lia |].
    destruct (Henv k c Hc) as (Hd & r & Hr & Hok).
    assert (Hknown : known cfg st = true).
    { eapply well_formed_known; [done |]. by eapply list_elem_of_lookup_2. }
    assert (Hfresh : foldl commit ∅ (take k cs) !! c_id c = None).
    { rewrite <- (take_drop_middle cs k c Hc) in Hnd.
      rewrite List.map_app in Hnd. apply NoDup_app in Hnd as (Hnd1 & Hnd2 & _).
      apply (commits_distinct (take k cs) Hnd1). intros Hin.
      apply (Hnd2 _ Hin). simpl. by left. }
    unfold advance. rewrite Hst, Hplan, Hidx, Hp. cbn zeta.
    rewrite Hknown, Hd, Hr, Hok. cbn [negb]. cbn.
    rewrite Harts, Hhist. unfold next_version. rewrite Hfresh.
    split_and!; try done.
    + rewrite (take_S_r cs k c Hc), foldl_app. simpl.
      rewrite commit_versioned. unfold next_version. by rewrite Hfresh.
    + rewrite (take_S_r cs k c Hc), (take_S_r p k st Hp).
      rewrite zip_with_app by (rewrite !length_take; lia).
      rewrite concat_app. done.
Qed.

Lemma started_approved_at_once p : forall cs,
  length cs = length p ->
  started (concat (zip_with approved_at_once p cs)) = map step_id p.
Proof.
  induction p as [|st p IH]; intros [|c cs] Hlen; try done.
  simpl. f_equal. apply IH. simpl in Hlen. lia.
Qed.

Lemma started_app evs evs' : started (evs ++ evs') = started evs ++ started evs'.
Proof. unfold started. apply omap_app. Qed.


(** ** Termination *)

Lemma increasing_head x l :
  increasing (x :: l) = true -> Forall (fun y => x < y) l /\ increasing l = true.
Proof.
  revert x. induction l as [|y l IH]; intros x H; [done |].
  simpl in H. apply andb_prop in H as [Hxy Hl]. apply Z.ltb_lt in Hxy.
  split; [| done]. constructor; [done |].
  destruct (IH y Hl) as [Hy _]. eapply Forall_impl; [exact Hy |].
  simpl. intros. lia.
Qed.

Lemma increasing_NoDup l : increasing l = true -> NoDup l.
Proof.
  induction l as [|x l IH]; intros H; [constructor |].
  apply increasing_head in H as [Hx Hl]. constructor; [| by apply IH].
  intros Hin. rewrite Forall_forall in Hx. specialize (Hx x Hin). lia.
Qed.

(** A well-formed plan over [U] has at most [size U] steps. *)
Lemma plan_length_bound cfg (U : gset Z) p :
  well_formed cfg p = true -> ids_within U p -> (length p <= size U)%nat.
Proof.
  intros Hwf Hids. unfold well_formed in Hwf. destruct p as [|st p]; [done |].
  apply andb_prop in Hwf as [Hinc _]. apply increasing_NoDup in Hinc.
  rewrite <- (length_map step_id (st :: p)).
  change (size U) with (length (elements U)).
  apply submseteq_length, NoDup_submseteq; [done |].
  intros i Hi. apply elem_of_elements.
  apply list_elem_of_fmap in Hi as (st' & -> & Hst').
  unfold ids_within in Hids. rewrite Forall_forall in Hids. by apply Hids.
Qed.

Lemma size_unreplanned (U R : gset Z) i :
  i ∈ U -> i ∉ R -> (size (U ∖ ({[i]} ∪ R)) + 1 = size (U ∖ R))%nat.
Proof.
  intros HU HR.
  assert (Heq : U ∖ R = {[i]} ∪ U ∖ ({[i]} ∪ R)).
  { apply set_eq. intros x. rewrite elem_of_union, !elem_of_difference,
      elem_of_union, elem_of_singleton.
    destruct (decide (x = i)) as [-> | Hne]; tauto. }
  assert (Hdisj : ({[i]} : gset Z) ## U ∖ ({[i]} ∪ R)).
  { intros x. rewrite elem_of_singleton, elem_of_difference, elem_of_union,
      elem_of_singleton. tauto. }
  apply size_union in Hdisj. rewrite <- Heq, size_singleton in Hdisj. lia.
Qed.

Lemma retries_of_insert s i n j rc :
  retry_count s = <[i := n]> rc ->
  retries_of s j = if decide (i = j) then n else default 0%nat (rc !! j).
Proof.
  unfold retries_of. intros ->. destruct (decide (i = j)) as [-> | Hne].
  - by rewrite lookup_insert_eq.
  - by rewrite lookup_insert_ne.
Qed.

Lemma budget_positive cfg : (1 <= budget cfg)%nat.
Proof. unfold budget. lia. Qed.

Lemma potential_positive cfg U s :
  sound cfg U s -> 1 <= potential cfg U s.
Proof.
  intros (Hwf & Hids & Hret & Hidx). unfold potential.
  pose proof (plan_length_bound cfg U (plan s) Hwf Hids) as Hlen.
  pose proof (budget_positive cfg) as Hb.
  destruct (plan s !! current_step_index s) as [st|] eqn:Hst.
  - apply lookup_lt_Some in Hst. specialize (Hret (step_id st)). nia.
  - nia.
Qed.


(** The counters after one counter was written. *)
Ltac retries_goal Hret :=
  let i := fresh "i" in
  intros i; erewrite retries_of_insert by reflexivity;
  destruct (decide (_ = i)); [unfold budget in *; lia | apply Hret].

Lemma advance_terminal cfg t s : terminal s = true -> advance cfg t s = s.
Proof. unfold terminal, advance. by destruct (status s). Qed.

(** One call of [advance] on a running session either ends it or uses up
    some of the potential. *)
Lemma advance_progress cfg U t s :
  sound cfg U s ->
  status s = RUNNING ->
  ids_within U (replacement t) ->
  terminal (advance cfg t s) = true
  \/ (status (advance cfg t s) = RUNNING
      /\ sound cfg U (advance cfg t s)
      /\ potential cfg U (advance cfg t s) + 1 <= potential cfg U s).
Proof.
  intros Hsound Hrun Hrepl.
  pose proof Hsound as (Hwf & Hids & Hret & Hidx).
  pose proof (plan_length_bound cfg U (plan s) Hwf Hids) as Hlen.
  pose proof (budget_positive cfg) as Hb.
  unfold advance. rewrite Hrun.
  destruct (plan s !! current_step_index s) as [st|] eqn:Hst; [| by left].
  cbn zeta.
  destruct (known cfg st); cbn [negb]; [| by left].
  destruct (dispatched t) as [c|]; [| by left].
  destruct (reviewed t) as [r|]; [| by left].
  pose proof (lookup_lt_Some _ _ _ Hst) as Hlt.
  pose proof (Hret (step_id st)) as Hcur.
  assert (HstU : step_id st ∈ U).
  { unfold ids_within in Hids. rewrite Forall_forall in Hids.
    apply Hids. by eapply list_elem_of_lookup_2. }
  destruct (approved r).
  - right. split; [done |]. split.
    + split_and!; simpl; try done. by retries_goal Hret.
    + unfold potential. simpl. rewrite Hst.
      destruct (plan s !! S (current_step_index s)); nia.
  - destruct (S (retries_of s (step_id st)) <? max_retries cfg)%nat eqn:Hretry.
    + right. apply Nat.ltb_lt in Hretry. split; [done |]. split.
      * split_and!; simpl; try done. by retries_goal Hret.
      * unfold potential. simpl. rewrite Hst.
        erewrite (retries_of_insert _ (step_id st)) by reflexivity.
        rewrite decide_True by done. nia.
    + destruct (replan_enabled cfg
                && negb (bool_decide (step_id st ∈ replanned s))) eqn:Hre;
        [| by left].
      apply andb_prop in Hre as [_ Hre]. apply negb_true_iff in Hre.
      apply bool_decide_eq_false in Hre.
      destruct (well_formed cfg
                  (take (current_step_index s) (plan s) ++ replacement t))
        eqn:Hwf'; [| by left].
      right. split; [done |]. split.
      * split_and!; simpl; try done.
        -- apply Forall_app. split; [by apply Forall_take | done].
        -- by retries_goal Hret.
        -- rewrite length_app, length_take. lia.
      * pose proof (size_unreplanned U (replanned s) (step_id st) HstU Hre)
          as Hsize.
        unfold potential. simpl. rewrite Hst.
        destruct ((take (current_step_index s) (plan s) ++ replacement t)
                    !! current_step_index s); nia.
Qed.

(** Along a run the potential pays for every call made so far. *)
Lemma run_progress cfg U env s0 (n : nat) :
  sound cfg U s0 ->
  status s0 = RUNNING ->
  (forall k, ids_within U (replacement (env k))) ->
  terminal (run cfg env n s0) = true
  \/ (status (run cfg env n s0) = RUNNING
      /\ sound cfg U (run cfg env n s0)
      /\ potential cfg U (run cfg env n s0) + Z.of_nat n <= potential cfg U s0).
Proof.
  intros Hsound Hrun Henv. induction n as [|n IH].
  - right. simpl. split_and!; [done | done | lia].
  - simpl. destruct IH as [Hterm | (Hst & Hs & Hpot)].
    + left. by rewrite advance_terminal.
    + destruct (advance_progress cfg U (env n) _ Hs Hst (Henv n))
        as [Hterm | (Hst' & Hs' & Hpot')].
      * by left.
      * right. split_and!; [done | done | lia].
Qed.

Lemma run_terminal_stays cfg env s (n m : nat) :
  terminal (run cfg env n s) = true -> (n <= m)%nat ->
  terminal (run cfg env m s) = true.
Proof.
  intros Hn Hle. induction Hle as [|m Hle IH]; [done |].
  simpl. by rewrite advance_terminal.
Qed.

Lemma potential_start cfg U p :
  well_formed cfg p = true ->
  potential cfg U (start cfg p)
  = 2 * Z.of_nat (size U) * Z.of_nat (budget cfg) + 1.
Proof.
  intros Hwf. rewrite start_well_formed by done. unfold potential. simpl.
  rewrite difference_empty_L.
  assert (Hcur : match p !! 0%nat with
                 | Some st => retries_of
                     {| plan := p; current_step_index := 0; artifacts := ∅;
                        retry_count := ∅; replanned := ∅; history := [];
                        status := RUNNING |} (step_id st)
                 | None => 0%nat
                 end = 0%nat).
  { destruct (p !! 0%nat); [| done]. unfold retries_of. simpl.
    by rewrite lookup_empty. }
  rewrite Hcur. lia.
Qed.

Lemma sound_start cfg U p :
  well_formed cfg p = true -> ids_within U p -> sound cfg U (start cfg p).
Proof.
  intros Hwf Hids. rewrite start_well_formed by done.
  split_and!; simpl; try done; [| lia].
  intros i. unfold retries_of. simpl. rewrite lookup_empty. simpl.
  apply budget_positive.
Qed.

(** With step ids from [U] only, [2 * size U * budget + 1] calls suffice. *)
Lemma bounded_ids_terminate cfg U p env :
  ids_within U p ->
  (forall k, ids_within U (replacement (env k))) ->
  terminal (run cfg env (2 * size U * budget cfg + 1) (start cfg p)) = true.
Proof.
  intros Hids Henv.
  destruct (well_formed cfg p) eqn:Hwf.
  - destruct (run_progress cfg U env (start cfg p)
                (2 * size U * budget cfg + 1)
                (sound_start cfg U p Hwf Hids)) as [Hterm | (_ & Hs & Hpot)];
      [by rewrite start_well_formed | done | done |].
    apply potential_positive in Hs. rewrite potential_start in Hpot by done.
    lia.
  - apply (run_terminal_stays cfg env _ 0); [| lia].
    simpl. unfold start. by rewrite Hwf.
Qed.


(** ** Retry counters and replanning events, whatever the Planner replies *)

Lemma advance_retries cfg t s :
  (forall i, (retries_of s i < budget cfg)%nat) ->
  forall i, (retries_of (advance cfg t s) i < budget cfg)%nat.
Proof.
  intros Hret. unfold advance.
  destruct (status s); [| done | done].
  destruct (plan s !! current_step_index s) as [st|]; [| done].
  cbn zeta.
  destruct (known cfg st); cbn [negb]; [| done].
  destruct (dispatched t) as [c|]; [| done].
  destruct (reviewed t) as [r|]; [| done].
  destruct (approved r); [by retries_goal Hret |].
  destruct (S (retries_of s (step_id st)) <? max_retries cfg)%nat eqn:Hretry.
  - apply Nat.ltb_lt in Hretry. by retries_goal Hret.
  - destruct (replan_enabled cfg && _); [| done].
    destruct (well_formed cfg _); by retries_goal Hret.
Qed.

Lemma run_retries cfg env p (n : nat) i :
  (retries_of (run cfg env n (start cfg p)) i < budget cfg)%nat.
Proof.
  revert i. induction n as [|n IH]; simpl.
  - intros i. unfold start, retries_of.
    destruct (well_formed cfg p); simpl; rewrite lookup_empty; simpl;
      apply budget_positive.
  - by apply advance_retries.
Qed.

Lemma replannings_app i evs evs' :
  replannings i (evs ++ evs') = (replannings i evs + replannings i evs')%nat.
Proof. unfold replannings. by rewrite List.filter_app, length_app. Qed.

Lemma flagged_extend s s' evs :
  flagged s ->
  history s' = history s ++ evs ->
  replanned s' = replanned s ->
  (forall i, replannings i evs = 0%nat) ->
  flagged s'.
Proof.
  intros Hs Hh Hr Hevs i. destruct (Hs i) as [Hle Hzero].
  rewrite Hh, Hr, replannings_app, Hevs. split; [lia |].
  intros Hi. rewrite Hzero by done. lia.
Qed.

Lemma flagged_replan s s' evs i0 :
  flagged s ->
  i0 ∉ replanned s ->
  history s' = history s ++ evs ->
  replanned s' = {[i0]} ∪ replanned s ->
  (forall i, replannings i evs = if bool_decide (i0 = i) then 1%nat else 0%nat) ->
  flagged s'.
Proof.
  intros Hs Hi0 Hh Hr Hevs i. destruct (Hs i) as [Hle Hzero].
  rewrite Hh, Hr, replannings_app, Hevs.
  case_bool_decide as Hi.
  - subst i. rewrite Hzero by done. split; [lia |].
    intros Hnot. destruct Hnot. apply elem_of_union_l. by apply elem_of_singleton.
  - split; [lia |]. intros Hnot. rewrite Hzero; [lia |].
    intros Hin. apply Hnot. by apply elem_of_union_r.
Qed.

Lemma replannings_one i0 i before after :
  (forall j, replannings j before = 0%nat) ->
  (forall j, replannings j after = 0%nat) ->
  replannings i (before ++ [replanning i0] ++ after)
  = if bool_decide (i0 = i) then 1%nat else 0%nat.
Proof.
  intros Hb Ha. rewrite !replannings_app, Hb, Ha.
  unfold replannings. simpl. by case_bool_decide.
Qed.

Lemma advance_flagged cfg t s : flagged s -> flagged (advance cfg t s).
Proof.
  intros Hs. unfold advance.
  destruct (status s); [| done | done].
  destruct (plan s !! current_step_index s) as [st|];
    [| by eapply flagged_extend].
  cbn zeta.
  destruct (known cfg st); cbn [negb]; [| by eapply flagged_extend].
  destruct (dispatched t) as [c|]; [| by eapply flagged_extend].
  destruct (reviewed t) as [r|]; [| by eapply flagged_extend].
  destruct (approved r); [by eapply flagged_extend |].
  destruct (S (retries_of s (step_id st)) <? max_retries cfg)%nat;
    [by eapply flagged_extend |].
  destruct (replan_enabled cfg
            && negb (bool_decide (step_id st ∈ replanned s))) eqn:Hre;
    [| by eapply flagged_extend].
  apply andb_prop in Hre as [_ Hre]. apply negb_true_iff in Hre.
  apply bool_decide_eq_false in Hre.
  destruct (well_formed cfg _).
  - eapply (flagged_replan s _ _ (step_id st) Hs Hre); [done | done |].
    intros i.
    apply (replannings_one (step_id st) i
             [step_started (step_id st);
              step_rejected (step_id st) (S (retries_of s (step_id st)))
                (feedback r)] []); done.
  - eapply (flagged_replan s _
              ([step_started (step_id st);
                step_rejected (step_id st) (S (retries_of s (step_id st)))
                  (feedback r)]
               ++ [replanning (step_id st)]
               ++ [session_failed (ConfigurationError (step_id st))])
              (step_id st) Hs Hre); [| done |].
    + simpl. by rewrite <- app_assoc.
    + intros i. by apply replannings_one.
Qed.

Lemma run_flagged cfg env p (n : nat) : flagged (run cfg env n (start cfg p)).
Proof.
  induction n as [|n IH]; simpl; [| by apply advance_flagged].
  unfold start. destruct (well_formed cfg p); intros i; simpl; split;
    first [done | unfold replannings; simpl; lia].
Qed.


(** A step that was replanned and runs out of retries again fails the
    session. *)
Lemma second_exhaustion_fails cfg t s st c r :
  status s = RUNNING ->
  plan s !! current_step_index s = Some st ->
  known cfg st = true ->
  dispatched t = Produced c ->
  reviewed t = Reviewed r ->
  approved r = false ->
  (S (retries_of s (step_id st)) <? max_retries cfg)%nat = false ->
  step_id st ∈ replanned s ->
  status (advance cfg t s) = FAILED (ReplanExhaustedError (step_id st)).
Proof.
  intros Hs Hst Hk Hd Hr Ha Hx Hin. unfold advance.
  rewrite Hs, Hst, Hk, Hd, Hr, Ha. cbn zeta. cbn [negb]. rewrite Hx.
  rewrite bool_decide_eq_true_2 by done. by rewrite andb_false_r.
Qed.

End SupervisorFacts.

(** C4, as stated, fails: nothing keeps two steps from delivering under the
    same artifact id. Every review approves at once, the two steps are
    visited in order, the session ends in [DONE], but the second commit
    replaces the first at the next version: one artifact, at version 2. *)
Lemma shared_artifact_id_commits_version_2 :
  let s := Supervisor.run SupervisorSamples.default_config
             SupervisorSamples.same_artifact 3
             (Supervisor.start SupervisorSamples.default_config
                SupervisorSamples.two_steps) in
  (forall k, exists c, Supervisor.approves (SupervisorSamples.same_artifact k) c)
  /\ Supervisor.status s = Supervisor.DONE
  /\ Supervisor.history s
     = [Supervisor.step_started 1; Supervisor.step_approved 1 "outline" 1;
        Supervisor.step_started 2; Supervisor.step_approved 2 "outline" 2;
        Supervisor.session_done]
  /\ size (Supervisor.artifacts s) = 1%nat
  /\ Supervisor.artifacts s !! "outline"
     = Some (Supervisor.versioned SupervisorSamples.revised_outline 2)
  /\ ~ (size (Supervisor.artifacts s) = length SupervisorSamples.two_steps
        /\ forall i a, Supervisor.artifacts s !! i = Some a ->
                       Supervisor.a_version a = 1).
Proof.
  intros s. split_and!.
  - intros [|k]; eexists; (split; [reflexivity | eexists; split; reflexivity]).
  - reflexivity.
  - reflexivity.
  - by vm_compute.
  - by vm_compute.
  - intros [Hsize _]. by vm_compute in Hsize.
Qed.

(** C4, amended. When the producers deliver artifacts with pairwise
    distinct ids and every review approves at once, a well-formed plan of N
    steps is walked in plan order, which is ascending id order, each step
    started exactly once; the session ends in [DONE] after N + 1 calls of
    [advance] with N artifacts, each at version 1. *)
Theorem all_approved_plan_ends_done
    (cfg : Supervisor.Config) (p : list Supervisor.Step)
    (cs : list Supervisor.Candidate) (env : nat -> Supervisor.Turn) :
  Supervisor.well_formed cfg p = true ->
  length cs = length p ->
  (forall (j : nat) c, cs !! j = Some c -> Supervisor.approves (env j) c) ->
  NoDup (map Supervisor.c_id cs) ->
  let s := Supervisor.run cfg env (S (length p)) (Supervisor.start cfg p) in
  Supervisor.status s = Supervisor.DONE
  /\ Supervisor.started (Supervisor.history s) = map Supervisor.step_id p
  /\ Supervisor.increasing (map Supervisor.step_id p) = true
  /\ Supervisor.history s
     = concat (zip_with Supervisor.approved_at_once p cs)
       ++ [Supervisor.session_done]
  /\ size (Supervisor.artifacts s) = length p
  /\ (forall i a, Supervisor.artifacts s !! i = Some a ->
                  Supervisor.a_version a = 1)
  /\ (forall c, c ∈ cs ->
                Supervisor.artifacts s !! Supervisor.c_id c
                = Some (Supervisor.versioned c 1)).
Proof.
  intros Hwf Hlen Henv Hnd s.
  destruct (SupervisorFacts.approving_run cfg p cs env (length p)
              Hwf Hlen Henv Hnd (le_n _))
    as (Hst & Hplan & Hidx & Harts & Hhist).
  rewrite !firstn_all2 in * by lia.
  assert (Hs : s = Supervisor.finish Supervisor.DONE [Supervisor.session_done]
                     (Supervisor.run cfg env (length p) (Supervisor.start cfg p))).
  { subst s. simpl. unfold Supervisor.advance.
    rewrite Hst, Hplan, Hidx. by rewrite lookup_ge_None_2. }
  destruct (SupervisorFacts.commits_distinct cs Hnd) as (Hsize & _ & Hsome & Hone).
  rewrite Hs. simpl. rewrite Harts, Hhist.
  split_and!; try done.
  - rewrite SupervisorFacts.started_app. simpl. rewrite app_nil_r.
    by apply SupervisorFacts.started_approved_at_once.
  - unfold Supervisor.well_formed in Hwf. destruct p; [done |].
    by apply andb_prop in Hwf as [? _].
  - by rewrite Hsize.
Qed.

Lemma all_approved_plan_ends_done_witness :
  let s := Supervisor.run SupervisorSamples.default_config
             SupervisorSamples.all_approve 3
             (Supervisor.start SupervisorSamples.default_config
                SupervisorSamples.two_steps) in
  Supervisor.status s = Supervisor.DONE
  /\ Supervisor.started (Supervisor.history s) = [1; 2]
  /\ Supervisor.increasing [1; 2] = true
  /\ Supervisor.history s
     = [Supervisor.step_started 1; Supervisor.step_approved 1 "outline" 1;
        Supervisor.step_started 2; Supervisor.step_approved 2 "cover" 1;
        Supervisor.session_done]
  /\ size (Supervisor.artifacts s) = 2%nat
  /\ (forall i a, Supervisor.artifacts s !! i = Some a ->
                  Supervisor.a_version a = 1)
  /\ (forall c, c ∈ [SupervisorSamples.outline_of_deck;
                     SupervisorSamples.cover_image] ->
                Supervisor.artifacts s !! Supervisor.c_id c
                = Some (Supervisor.versioned c 1)).
Proof.
  apply (all_approved_plan_ends_done SupervisorSamples.default_config
           SupervisorSamples.two_steps
           [SupervisorSamples.outline_of_deck; SupervisorSamples.cover_image]
           SupervisorSamples.all_approve).
  - reflexivity.
  - reflexivity.
  - intros [|[|j]] c Hc; simplify_eq/=;
      (split; [reflexivity | eexists; split; reflexivity]).
  - simpl. apply NoDup_cons_2; [| apply NoDup_singleton].
    rewrite list_elem_of_singleton. discriminate.
Defined.

(** The scenario of the spec (section 8): step 2 is rejected twice with
    the same feedback, then approved. *)
Example rejected_twice_then_approved :
  let s := Supervisor.run SupervisorSamples.default_config
             SupervisorSamples.two_rejections 5
             (Supervisor.start SupervisorSamples.default_config
                SupervisorSamples.two_steps) in
  Supervisor.status s = Supervisor.DONE
  /\ Supervisor.history s
     = [Supervisor.step_started 1; Supervisor.step_approved 1 "outline" 1;
        Supervisor.step_started 2;
        Supervisor.step_rejected 2 1 "text contrast too low";
        Supervisor.step_started 2;
        Supervisor.step_rejected 2 2 "text contrast too low";
        Supervisor.step_started 2; Supervisor.step_approved 2 "cover" 1;
        Supervisor.session_done]
  /\ Supervisor.retries_of s 2 = 0%nat.
Proof. by vm_compute. Qed.

(** ** A Planner that never runs out of step ids *)

Module Adversary.
Import Supervisor SupervisorSamples SupervisorFacts.

Lemma advance_approve cfg c s st :
  status s = RUNNING ->
  plan s !! current_step_index s = Some st ->
  known cfg st = true ->
  advance cfg (approve c) s
  = {| plan := plan s;
       current_step_index := S (current_step_index s);
       artifacts := commit (artifacts s) c;
       retry_count := <[step_id st := 0%nat]> (retry_count s);
       replanned := replanned s;
       history := history s ++
         [step_started (step_id st);
          step_approved (step_id st) (c_id c) (next_version (artifacts s) c)];
       status := RUNNING |}.
Proof. intros Hs Hst Hk. unfold advance. by rewrite Hs, Hst, Hk. Qed.

Lemma advance_reject_retry cfg c fb tail s st :
  status s = RUNNING ->
  plan s !! current_step_index s = Some st ->
  known cfg st = true ->
  (S (retries_of s (step_id st)) <? max_retries cfg)%nat = true ->
  advance cfg (reject c fb tail) s
  = {| plan := plan s;
       current_step_index := current_step_index s;
       artifacts := artifacts s;
       retry_count := <[step_id st := S (retries_of s (step_id st))]>
                        (retry_count s);
       replanned := replanned s;
       history := history s ++
         [step_started (step_id st);
          step_rejected (step_id st) (S (retries_of s (step_id st))) fb];
       status := RUNNING |}.
Proof.
  intros Hs Hst Hk Hr. unfold advance. rewrite Hs, Hst, Hk. simpl.
  by rewrite Hr.
Qed.

Lemma advance_reject_replan cfg c fb tail s st :
  status s = RUNNING ->
  plan s !! current_step_index s = Some st ->
  known cfg st = true ->
  (S (retries_of s (step_id st)) <? max_retries cfg)%nat = false ->
  replan_enabled cfg = true ->
  step_id st ∉ replanned s ->
  well_formed cfg (take (current_step_index s) (plan s) ++ tail) = true ->
  advance cfg (reject c fb tail) s
  = {| plan := take (current_step_index s) (plan s) ++ tail;
       current_step_index := current_step_index s;
       artifacts := artifacts s;
       retry_count := <[step_id st := 0%nat]> (retry_count s);
       replanned := {[step_id st]} ∪ replanned s;
       history := history s ++
         [step_started (step_id st);
          step_rejected (step_id st) (S (retries_of s (step_id st))) fb]
         ++ [replanning (step_id st)];
       status := RUNNING |}.
Proof.
  intros Hs Hst Hk Hr Hen Hnot Hwf. unfold advance. rewrite Hs, Hst, Hk. simpl.
  rewrite Hr, Hen, bool_decide_eq_false_2 by done. simpl. by rewrite Hwf.
Qed.

Lemma numbered_plan_lookup (n i : nat) :
  (i < n)%nat -> numbered_plan n !! i = Some (numbered (S i)).
Proof.
  intros Hi. unfold numbered_plan.
  change (map numbered (seq 1 n)) with (numbered <$> seq 1 n).
  by rewrite list_lookup_fmap, lookup_seq_lt.
Qed.

Lemma numbered_plan_grows (j : nat) :
  take (S j) (numbered_plan (j + 2)) ++ [numbered (j + 2); numbered (j + 3)]
  = numbered_plan (j + 3).
Proof.
  replace (j + 3)%nat with (S (S (S j))) by lia.
  replace (j + 2)%nat with (S (S j)) by lia.
  unfold numbered_plan.
  change (map numbered (seq 1 (S (S j)))) with (numbered <$> seq 1 (S (S j))).
  rewrite <- fmap_take, take_seq.
  replace (S j `min` S (S j))%nat with (S j) by lia.
  rewrite (seq_S (S (S j)) 1), (seq_S (S j) 1), !List.map_app.
  rewrite <- app_assoc. done.
Qed.

Lemma increasing_seq (n a : nat) :
  increasing (map Z.of_nat (seq a n)) = true.
Proof.
  revert a. induction n as [|n IH]; intros a; [done |].
  simpl. destruct n as [|n]; [done |].
  specialize (IH (S a)). simpl in *. rewrite IH, andb_true_r.
  apply Z.ltb_lt. lia.
Qed.

Lemma numbered_plan_well_formed (n : nat) :
  well_formed default_config (numbered_plan (S n)) = true.
Proof.
  unfold well_formed, numbered_plan. simpl seq. simpl map at 1.
  cbv match beta. apply andb_true_intro. split.
  - change (numbered 1 :: map numbered (seq 2 n))
      with (map numbered (seq 1 (S n))).
    rewrite List.map_map. apply (increasing_seq (S n) 1).
  - change (numbered 1 :: map numbered (seq 2 n))
      with (map numbered (seq 1 (S n))).
    rewrite forallb_forall. intros st Hst.
    apply in_map_iff in Hst as (i & <- & _). reflexivity.
Qed.

Lemma ever_growing_approves (j : nat) :
  ever_growing (4 * j) = approve outline_of_deck.
Proof.
  unfold ever_growing. replace (4 * j)%nat with (0 + j * 4)%nat by lia.
  by rewrite Nat.Div0.mod_add.
Qed.

Lemma ever_growing_rejects (j r : nat) :
  (r < 3)%nat ->
  ever_growing (4 * j + S r)
  = reject outline_of_deck "not convincing"
      [numbered (j + 2); numbered (j + 3)].
Proof.
  intros Hr. unfold ever_growing.
  replace (4 * j + S r)%nat with (S r + j * 4)%nat by lia.
  rewrite Nat.Div0.mod_add, Nat.div_add by lia.
  rewrite (Nat.mod_small (S r) 4), (Nat.div_small (S r) 4) by lia.
  done.
Qed.


(** One round: the step issued again is approved, the new step is rejected
    three times, and the Planner is asked again. *)
Lemma round (j : nat) s :
  at_round j s ->
  let s1 := advance default_config (ever_growing (4 * j)) s in
  let s2 := advance default_config (ever_growing (4 * j + 1)) s1 in
  let s3 := advance default_config (ever_growing (4 * j + 2)) s2 in
  let s4 := advance default_config (ever_growing (4 * j + 3)) s3 in
  status s1 = RUNNING /\ status s2 = RUNNING /\ status s3 = RUNNING
  /\ at_round (S j) s4.
Proof.
  intros (Hst & Hplan & Hidx & Hret & Hrep). cbv zeta.
  assert (Hcur : plan s !! current_step_index s = Some (numbered (S j))).
  { rewrite Hplan, Hidx. apply numbered_plan_lookup. lia. }
  assert (Hnext : plan s !! S (current_step_index s)
                  = Some (numbered (S (S j)))).
  { rewrite Hplan, Hidx. apply numbered_plan_lookup. lia. }
  replace (4 * j + 1)%nat with (4 * j + S 0)%nat by lia.
  replace (4 * j + 2)%nat with (4 * j + S 1)%nat by lia.
  replace (4 * j + 3)%nat with (4 * j + S 2)%nat by lia.
  rewrite ever_growing_approves, !ever_growing_rejects by lia.
  (* the approval *)
  rewrite (advance_approve default_config _ s _ Hst Hcur eq_refl).
  set (s1 := Build_SessionState _ _ _ _ _ _ _).
  assert (Hst1 : status s1 = RUNNING) by done.
  assert (Hplan1 : plan s1 = plan s) by done.
  assert (Hidx1 : current_step_index s1 = S (current_step_index s)) by done.
  assert (Hrep1 : replanned s1 = replanned s) by done.
  assert (Hret1 : forall i, retries_of s1 i = 0%nat).
  { intros i. unfold retries_of, s1. cbn [retry_count].
    destruct (decide (step_id (numbered (S j)) = i)) as [<- | Hne].
    - by rewrite lookup_insert_eq.
    - rewrite lookup_insert_ne by done. apply Hret. }
  assert (Hcur1 : plan s1 !! current_step_index s1 = Some (numbered (S (S j))))
    by (by rewrite Hplan1, Hidx1).
  clearbody s1.
  (* the first rejection *)
  rewrite (advance_reject_retry default_config _ _ _ s1 _ Hst1 Hcur1 eq_refl)
    by (by rewrite Hret1).
  set (s2 := Build_SessionState _ _ _ _ _ _ _).
  assert (Hst2 : status s2 = RUNNING) by done.
  assert (Hplan2 : plan s2 = plan s) by done.
  assert (Hidx2 : current_step_index s2 = S (current_step_index s)) by done.
  assert (Hrep2 : replanned s2 = replanned s) by done.
  assert (Hret2 : forall i, retries_of s2 i
                            = if decide (step_id (numbered (S (S j))) = i)
                              then 1%nat else 0%nat).
  { intros i. unfold retries_of at 1, s2. cbn [retry_count]. rewrite Hret1.
    destruct (decide (step_id (numbered (S (S j))) = i)) as [<- | Hne].
    - by rewrite lookup_insert_eq.
    - rewrite lookup_insert_ne by done. apply Hret1. }
  assert (Hcur2 : plan s2 !! current_step_index s2 = Some (numbered (S (S j))))
    by (by rewrite Hplan2, Hidx2).
  clearbody s2.
  (* the second rejection *)
  rewrite (advance_reject_retry default_config _ _ _ s2 _ Hst2 Hcur2 eq_refl)
    by (rewrite Hret2; by rewrite decide_True).
  set (s3 := Build_SessionState _ _ _ _ _ _ _).
  assert (Hst3 : status s3 = RUNNING) by done.
  assert (Hplan3 : plan s3 = plan s) by done.
  assert (Hidx3 : current_step_index s3 = S (current_step_index s)) by done.
  assert (Hrep3 : replanned s3 = replanned s) by done.
  assert (Hret3 : forall i, retries_of s3 i
                            = if decide (step_id (numbered (S (S j))) = i)
                              then 2%nat else 0%nat).
  { intros i. unfold retries_of at 1, s3. cbn [retry_count].
    rewrite Hret2, decide_True by done.
    destruct (decide (step_id (numbered (S (S j))) = i)) as [<- | Hne].
    - by rewrite lookup_insert_eq.
    - rewrite lookup_insert_ne by done.
      change (default 0%nat (retry_count s2 !! i)) with (retries_of s2 i).
      rewrite Hret2. by rewrite decide_False. }
  assert (Hcur3 : plan s3 !! current_step_index s3 = Some (numbered (S (S j))))
    by (by rewrite Hplan3, Hidx3).
  assert (Hgrow : take (current_step_index s3) (plan s3)
                  ++ [numbered (j + 2); numbered (j + 3)]
                  = numbered_plan (j + 3)).
  { rewrite Hplan3, Hidx3, Hplan, Hidx. apply numbered_plan_grows. }
  clearbody s3.
  (* the third rejection: the Planner is asked *)
  rewrite (advance_reject_replan default_config _ _ _ s3 _ Hst3 Hcur3 eq_refl).
  - split_and!; try done. split_and!; cbn [status plan current_step_index].
    + done.
    + rewrite Hgrow. f_equal. lia.
    + by rewrite Hidx3, Hidx.
    + intros i. unfold retries_of. cbn [retry_count].
      destruct (decide (step_id (numbered (S (S j))) = i)) as [<- | Hne].
      * by rewrite lookup_insert_eq.
      * rewrite lookup_insert_ne by done.
        change (default 0%nat (retry_count s3 !! i)) with (retries_of s3 i).
        rewrite Hret3. by rewrite decide_False.
    + intros i. cbn [replanned].
      rewrite Hrep3, elem_of_union, elem_of_singleton.
      intros [-> | Hin]; [simpl; lia |]. apply Hrep in Hin. lia.
  - rewrite Hret3. by rewrite decide_True.
  - reflexivity.
  - rewrite Hrep3. intros Hin. apply Hrep in Hin. simpl in Hin. lia.
  - rewrite Hgrow. replace (j + 3)%nat with (S (j + 2)) by lia.
    apply numbered_plan_well_formed.
Qed.


Lemma run_four cfg env (n : nat) s :
  run cfg env (n + 4) s
  = advance cfg (env (n + 3)%nat)
      (advance cfg (env (n + 2)%nat)
         (advance cfg (env (n + 1)%nat)
            (advance cfg (env n) (run cfg env n s)))).
Proof.
  replace (n + 4)%nat with (S (S (S (S n)))) by lia.
  replace (n + 3)%nat with (S (S (S n))) by lia.
  replace (n + 2)%nat with (S (S n)) by lia.
  replace (n + 1)%nat with (S n) by lia.
  reflexivity.
Qed.

Lemma rounds (j : nat) :
  at_round j (run default_config ever_growing (4 * j)
                (start default_config (numbered_plan 2))).
Proof.
  induction j as [|j IH].
  - simpl. by split_and!.
  - replace (4 * S j)%nat with (4 * j + 4)%nat by lia. rewrite run_four.
    by destruct (round j _ IH) as (_ & _ & _ & H).
Qed.

Lemma running_not_terminal s : status s = RUNNING -> terminal s = false.
Proof. unfold terminal. by intros ->. Qed.

Lemma ever_growing_keeps_running (n : nat) :
  terminal (run default_config ever_growing n
              (start default_config (numbered_plan 2))) = false.
Proof.
  pose proof (Nat.div_mod_eq n 4) as Hn.
  pose proof (Nat.mod_upper_bound n 4 ltac:(lia)) as Hr.
  set (j := (n / 4)%nat) in *. set (r := (n mod 4)%nat) in *.
  pose proof (rounds j) as Hj.
  destruct (round j _ Hj) as (H1 & H2 & H3 & _).
  destruct Hj as (H0 & _).
  apply running_not_terminal.
  destruct r as [|[|[|[|r]]]]; [| | | | lia]; rewrite Hn.
  - by replace (4 * j + 0)%nat with (4 * j)%nat by lia.
  - replace (4 * j + 1)%nat with (S (4 * j)) by lia. exact H1.
  - replace (4 * j + 2)%nat with (S (S (4 * j))) by lia.
    replace (4 * j + 1)%nat with (S (4 * j)) in H2 by lia. exact H2.
  - replace (4 * j + 3)%nat with (S (S (S (4 * j)))) by lia.
    replace (4 * j + 2)%nat with (S (S (4 * j))) in H3 by lia.
    replace (4 * j + 1)%nat with (S (4 * j)) in H3 by lia. exact H3.
Qed.

End Adversary.

(** C3, as stated, fails: termination cannot hold for every Planner. With
    the default configuration, a Planner that answers each request with the
    failing step again plus one step under the next id, and a Reviewer that
    approves the former and rejects the latter three times, keep the session
    running for ever: every replanning event is the first one of its step
    id. *)
Lemma fresh_step_ids_defeat_termination :
  ~ exists n : nat,
      Supervisor.terminal
        (Supervisor.run SupervisorSamples.default_config
           SupervisorSamples.ever_growing n
           (Supervisor.start SupervisorSamples.default_config
              (SupervisorSamples.numbered_plan 2))) = true.
Proof.
  intros [n Hn]. by rewrite Adversary.ever_growing_keeps_running in Hn.
Qed.

(** C3, amended. When every step id the Planner issues (in the plan and in
    its replacement tails) belongs to a finite set [U], the session reaches
    a terminal state, [DONE] or [FAILED], within
    [2 * size U * max 1 max_retries + 1] calls of [advance], for every plan
    and every sequence of Reviewer decisions. Whatever the Planner issues,
    a step's retry counter stays below [max 1 max_retries], at most one
    replanning event is emitted per step id, and a replanned step that runs
    out of retries again ends the session in [FAILED]. *)
Theorem bounded_step_ids_force_termination
    (cfg : Supervisor.Config) (p : list Supervisor.Step)
    (env : nat -> Supervisor.Turn) :
  (forall U : gset Z,
      Supervisor.ids_within U p ->
      (forall k, Supervisor.ids_within U (Supervisor.replacement (env k))) ->
      Supervisor.terminal
        (Supervisor.run cfg env (2 * size U * Supervisor.budget cfg + 1)
           (Supervisor.start cfg p)) = true)
  /\ (forall (n : nat) i,
         (Supervisor.retries_of
            (Supervisor.run cfg env n (Supervisor.start cfg p)) i
          < Supervisor.budget cfg)%nat)
  /\ (forall (n : nat) i,
         (Supervisor.replannings i
            (Supervisor.history
               (Supervisor.run cfg env n (Supervisor.start cfg p)))
          <= 1)%nat)
  /\ (forall t s st c r,
         Supervisor.status s = Supervisor.RUNNING ->
         Supervisor.plan s !! Supervisor.current_step_index s = Some st ->
         Supervisor.known cfg st = true ->
         Supervisor.dispatched t = Supervisor.Produced c ->
         Supervisor.reviewed t = Supervisor.Reviewed r ->
         Supervisor.approved r = false ->
         (S (Supervisor.retries_of s (Supervisor.step_id st))
          <? Supervisor.max_retries cfg)%nat = false ->
         Supervisor.step_id st ∈ Supervisor.replanned s ->
         Supervisor.status (Supervisor.advance cfg t s)
         = Supervisor.FAILED
             (Supervisor.ReplanExhaustedError (Supervisor.step_id st))).
Proof.
  split_and!.
  - intros U. apply SupervisorFacts.bounded_ids_terminate.
  - apply SupervisorFacts.run_retries.
  - intros n i. apply (SupervisorFacts.run_flagged cfg env p n i).
  - apply SupervisorFacts.second_exhaustion_fails.
Qed.

Lemma bounded_step_ids_force_termination_witness :
  let U : gset Z := {[1; 2]} in
  Supervisor.terminal
    (Supervisor.run SupervisorSamples.default_config
       SupervisorSamples.two_rejections
       (2 * size U * Supervisor.budget SupervisorSamples.default_config + 1)
       (Supervisor.start SupervisorSamples.default_config
          SupervisorSamples.two_steps)) = true.
Proof.
  intros U.
  apply (proj1 (bounded_step_ids_force_termination
                  SupervisorSamples.default_config SupervisorSamples.two_steps
                  SupervisorSamples.two_rejections) U).
  - repeat constructor; apply (bool_decide_unpack _); by vm_compute.
  - intros [|[|[|k]]]; simpl; constructor.
Defined.

(** Section 8 of the spec: a step rejected [max_retries] times is replanned
    once; exhausted again, it fails the session. *)
Example exhausted_twice_fails :
  let s := Supervisor.run SupervisorSamples.default_config
             SupervisorSamples.never_approve 6
             (Supervisor.start SupervisorSamples.default_config
                [SupervisorSamples.step 2 "visualizer"]) in
  Supervisor.status s = Supervisor.FAILED (Supervisor.ReplanExhaustedError 2)
  /\ Supervisor.replannings 2 (Supervisor.history s) = 1%nat
  /\ Supervisor.started (Supervisor.history s) = [2; 2; 2; 2; 2; 2].
Proof. by vm_compute. Qed.

(** * More of the store *)

Lemma find_app_miss {A} (p : A -> bool) (l l' : list A) :
  find p l = None -> find p (l ++ l') = find p l'.
Proof.
  induction l as [|x l IH]; simpl; [done |].
  destruct (p x); [done | apply IH].
Qed.

Lemma find_app_hit {A} (p : A -> bool) (l l' : list A) x :
  find p l = Some x -> find p (l ++ l') = Some x.
Proof.
  induction l as [|y l IH]; simpl; [done |].
  destruct (p y); [done | apply IH].
Qed.

Lemma find_other_replaced id' artifact l :
  id' <> art_id artifact ->
  find (fun a => bool_decide (art_id a = id'))
       (map (fun a => if bool_decide (art_id a = art_id artifact)
                      then spread a (as_partial artifact) else a) l)
  = find (fun a => bool_decide (art_id a = id')) l.
Proof.
  intros Hne. induction l as [|a l IH]; simpl; [done |].
  destruct (decide (art_id a = art_id artifact)) as [Ha | Ha].
  - rewrite (bool_decide_eq_true_2 _ Ha), spread_full.
    rewrite (bool_decide_eq_false_2 (art_id artifact = id')) by done.
    rewrite (bool_decide_eq_false_2 (art_id a = id')) by congruence. apply IH.
  - rewrite (bool_decide_eq_false_2 _ Ha). by rewrite IH.
Qed.

Lemma ids_replaced artifact l :
  map art_id (map (fun a => if bool_decide (art_id a = art_id artifact)
                            then spread a (as_partial artifact) else a) l)
  = map art_id l.
Proof.
  induction l as [|a l IH]; simpl; [done |]. rewrite IH. f_equal.
  destruct (decide (art_id a = art_id artifact)) as [Ha | Ha].
  - by rewrite (bool_decide_eq_true_2 _ Ha), spread_full.
  - by rewrite (bool_decide_eq_false_2 _ Ha).
Qed.

Lemma lookup_added s a : artifact_of (art_id a) (addArtifact a s) = Some a.
Proof.
  destruct (artifact_of (art_id a) s) as [old|] eqn:Hold.
  - by eapply artifact_of_addArtifact_existing.
  - unfold artifact_of, addArtifact in *. rewrite Hold. simpl.
    rewrite find_app_miss by done. simpl. by rewrite bool_decide_eq_true_2.
Qed.

Lemma lookup_other_added s a id' :
  id' <> art_id a -> artifact_of id' (addArtifact a s) = artifact_of id' s.
Proof.
  intros Hne. unfold artifact_of, addArtifact.
  destruct (find _ (artifacts s)) as [old|] eqn:Hold; simpl.
  - by apply find_other_replaced.
  - destruct (find (fun a0 => bool_decide (art_id a0 = id')) (artifacts s))
      as [x|] eqn:Hx.
    + by apply find_app_hit.
    + rewrite find_app_miss by done. simpl.
      by rewrite bool_decide_eq_false_2.
Qed.

(** X1. The artifacts list behaves like a map keyed by id under
    [addArtifact]: looking up the id just added gives the incoming
    artifact, in a store that had the id as in one that had not, and the
    entry of every other id is the one it was. *)
Theorem addArtifact_lookup (s : AppState) (a : Artifact) :
  artifact_of (art_id a) (addArtifact a s) = Some a
  /\ (forall id', id' <> art_id a ->
                  artifact_of id' (addArtifact a s) = artifact_of id' s).
Proof. split; [apply lookup_added | apply lookup_other_added]. Qed.

Lemma addArtifact_lookup_witness :
  let s := addArtifact (sample_artifact "a1" "draft" 1) initialState in
  artifact_of "a1" (addArtifact (sample_artifact "a2" "notes" 1) s)
  = Some (sample_artifact "a1" "draft" 1).
Proof.
  intros s.
  rewrite (proj2 (addArtifact_lookup s (sample_artifact "a2" "notes" 1)) "a1");
    [reflexivity | discriminate].
Defined.

Lemma find_id_Some_in s a old :
  find (fun b => bool_decide (art_id b = art_id a)) (artifacts s) = Some old ->
  art_id a ∈ map art_id (artifacts s).
Proof.
  intros H. apply find_some in H as [Hin Hid].
  apply bool_decide_eq_true in Hid. rewrite <- Hid.
  apply list_elem_of_fmap. exists old. split; [done |].
  by apply list_elem_of_In.
Qed.

Lemma ids_addArtifact s a :
  map art_id (artifacts (addArtifact a s))
  = if bool_decide (art_id a ∈ map art_id (artifacts s))
    then map art_id (artifacts s)
    else map art_id (artifacts s) ++ [art_id a].
Proof.
  unfold addArtifact.
  destruct (find _ (artifacts s)) as [old|] eqn:Hold; simpl.
  - apply find_id_Some_in in Hold.
    rewrite bool_decide_eq_true_2 by done. apply ids_replaced.
  - rewrite find_id_None in Hold. rewrite bool_decide_eq_false_2.
    + by rewrite List.map_app.
    + intros Hin. apply list_elem_of_fmap in Hin as (b & Hb & Hin).
      apply list_elem_of_In in Hin. by destruct (Hold b Hin).
Qed.

Lemma artifacts_dispatch_other act s :
  match act with
  | AAddArtifact _ | AUpdateArtifact _ _ => True
  | _ => artifacts (dispatch act s) = artifacts s
  end.
Proof.
  destruct act; try done. simpl. unfold addMessage. by destruct (find _ _).
Qed.

Lemma ids_updateArtifact id updates s :
  p_id updates = None ->
  map art_id (artifacts (updateArtifact id updates s)) = map art_id (artifacts s).
Proof.
  intros Hid. unfold updateArtifact. simpl.
  induction (artifacts s) as [|a l IH]; simpl; [done |]. rewrite IH. f_equal.
  destruct (bool_decide (art_id a = id)); [| done].
  unfold spread. simpl. by rewrite Hid.
Qed.

Lemma ids_dispatch act s :
  keeps_artifact_ids act = true ->
  map art_id (artifacts s) `prefix_of` map art_id (artifacts (dispatch act s))
  /\ (NoDup (map art_id (artifacts s)) ->
      NoDup (map art_id (artifacts (dispatch act s)))).
Proof.
  intros Hact. pose proof (artifacts_dispatch_other act s) as Hother.
  destruct act; try (rewrite Hother; by split).
  - cbn [dispatch]. rewrite ids_addArtifact.
    case_bool_decide as Hin; [by split |].
    split; [by apply prefix_app_r |]. intros Hnd.
    apply NoDup_app. split_and!; [done | | apply NoDup_singleton].
    intros x Hx Hx'. apply list_elem_of_singleton in Hx'. by subst.
  - cbn [keeps_artifact_ids] in Hact. cbn [dispatch].
    destruct (p_id updates) eqn:Hid; [done |].
    by rewrite ids_updateArtifact.
Qed.

(** X2. Artifact ids stay pairwise distinct, and stored artifacts keep
    their place: along any run of store actions none of which is an
    [updateArtifact] carrying an [id] key, the list of ids only grows at
    its end and keeps having no duplicate. In particular this holds from
    the initial store. *)
Theorem artifact_ids_stay_distinct :
  (forall acts s,
      forallb keeps_artifact_ids acts = true ->
      map art_id (artifacts s) `prefix_of` map art_id (artifacts (run acts s))
      /\ (NoDup (map art_id (artifacts s)) ->
          NoDup (map art_id (artifacts (run acts s)))))
  /\ (forall acts,
         forallb keeps_artifact_ids acts = true ->
         NoDup (map art_id (artifacts (run acts initialState)))).
Proof.
  assert (Hrun : forall acts s,
             forallb keeps_artifact_ids acts = true ->
             map art_id (artifacts s)
               `prefix_of` map art_id (artifacts (run acts s))
             /\ (NoDup (map art_id (artifacts s)) ->
                 NoDup (map art_id (artifacts (run acts s))))).
  { intros acts. induction acts as [|act acts IH] using rev_ind; intros s Hacts.
    - by split.
    - rewrite forallb_app in Hacts. apply andb_prop in Hacts as [Hacts Hact].
      simpl in Hact. rewrite andb_true_r in Hact. rewrite run_snoc.
      destruct (IH s Hacts) as [Hpre Hnd].
      destruct (ids_dispatch act (run acts s) Hact) as [Hpre' Hnd'].
      split; [by etrans | auto]. }
  split; [done |]. intros acts Hacts.
  apply (Hrun acts initialState Hacts). simpl. apply NoDup_nil_2.
Qed.

Lemma artifact_ids_stay_distinct_witness :
  NoDup (map art_id (artifacts
    (run [AAddArtifact (sample_artifact "deck" "draft" 1);
          AUpdateArtifact "deck" (only_title "New");
          AAddArtifact (sample_artifact "deck" "revised" 2);
          AAddArtifact (sample_artifact "notes" "n" 1)] initialState))).
Proof.
  apply (proj2 artifact_ids_stay_distinct). reflexivity.
Defined.

(** * Appending to a message *)

Lemma string_app_assoc (t a b : string) :
  ((t ++ a) ++ b = t ++ (a ++ b))%string.
Proof.
  induction t as [|ch t IH]; [done |].
  change (String ch ((t ++ a) ++ b) = String ch (t ++ (a ++ b)))%string.
  by f_equal.
Qed.

Lemma append_content_app c a b :
  append_content (append_content c a) b = append_content c (a ++ b)%string.
Proof.
  destruct c as [t | tag]; simpl; [| done]. by rewrite string_app_assoc.
Qed.

(** X3. [appendMessageContent] keeps the ids, the number and the order of
    the messages; it changes nothing when no message has the id; and
    appending [a] then [b] to the same message is appending [a ++ b] at
    once. *)
Theorem appendMessageContent_composes (id : string) (s : AppState) :
  (forall c, map msg_id (messages (appendMessageContent id c s))
             = map msg_id (messages s))
  /\ (forall c, (forall m, In m (messages s) -> msg_id m <> id) ->
                appendMessageContent id c s = s)
  /\ (forall a b,
         appendMessageContent id b (appendMessageContent id a s)
         = appendMessageContent id (a ++ b)%string s).
Proof.
  split_and!.
  - intros c. unfold appendMessageContent. simpl.
    induction (messages s) as [|m l IH]; simpl; [done |]. rewrite IH. f_equal.
    by destruct (bool_decide (msg_id m = id)).
  - intros c Hnone. unfold appendMessageContent.
    rewrite map_replace_other; [apply with_messages_same |].
    intros m Hm Hid. by destruct (Hnone m Hm).
  - intros a b. unfold appendMessageContent, with_messages. simpl. f_equal.
    rewrite List.map_map. apply map_ext. intros m.
    destruct (decide (msg_id m = id)) as [Hm | Hm].
    + rewrite (bool_decide_eq_true_2 _ Hm). simpl.
      rewrite (bool_decide_eq_true_2 _ Hm). by rewrite append_content_app.
    + rewrite (bool_decide_eq_false_2 _ Hm).
      by rewrite (bool_decide_eq_false_2 _ Hm).
Qed.

Lemma appendMessageContent_composes_witness :
  appendMessageContent "ghost" "lo"
    (run [AAddMessage (sample_message "m1" "Hel")] initialState)
  = run [AAddMessage (sample_message "m1" "Hel")] initialState.
Proof.
  apply (proj1 (proj2 (appendMessageContent_composes "ghost" _))).
  intros m [<- | []]. discriminate.
Defined.

(** * Updating an artifact *)

Lemma spread_overlay a u1 u2 :
  spread (spread a u1) u2 = spread a (overlay u1 u2).
Proof.
  destruct u1 as [i1 t1 ti1 c1 v1 ts1], u2 as [i2 t2 ti2 c2 v2 ts2].
  unfold spread, overlay. simpl.
  by destruct i2, t2, ti2, c2, v2, ts2.
Qed.

Lemma spread_no_updates a : spread a no_updates = a.
Proof. by destruct a. Qed.

(** X4. Two updates of the same artifact compose into one: when the first
    one carries no [id] key, [updateArtifact id u2] after
    [updateArtifact id u1] is [updateArtifact id] with the keys of [u1]
    overlaid by those of [u2]; and an update without keys changes nothing. *)
Theorem updateArtifact_composes (id : string) (s : AppState) :
  (forall u1 u2,
      p_id u1 = None ->
      updateArtifact id u2 (updateArtifact id u1 s)
      = updateArtifact id (overlay u1 u2) s)
  /\ updateArtifact id no_updates s = s.
Proof.
  split.
  - intros u1 u2 Hid. unfold updateArtifact, with_artifacts. simpl. f_equal.
    rewrite List.map_map. apply map_ext. intros a.
    destruct (decide (art_id a = id)) as [Ha | Ha].
    + rewrite (bool_decide_eq_true_2 _ Ha).
      assert (Hsame : art_id (spread a u1) = id).
      { unfold spread. simpl. by rewrite Hid. }
      rewrite (bool_decide_eq_true_2 _ Hsame). apply spread_overlay.
    + rewrite (bool_decide_eq_false_2 _ Ha).
      by rewrite (bool_decide_eq_false_2 _ Ha).
  - unfold updateArtifact.
    rewrite map_replace_other; [apply with_artifacts_same |].
    intros a _ _. apply spread_no_updates.
Qed.

Lemma updateArtifact_composes_witness :
  updateArtifact "deck" (as_partial (sample_artifact "deck" "final" 3))
    (updateArtifact "deck" (only_title "New")
       (run [AAddArtifact (sample_artifact "deck" "draft" 1)] initialState))
  = updateArtifact "deck"
      (overlay (only_title "New")
               (as_partial (sample_artifact "deck" "final" 3)))
      (run [AAddArtifact (sample_artifact "deck" "draft" 1)] initialState).
Proof.
  apply (proj1 (updateArtifact_composes "deck" _)). reflexivity.
Defined.

(** * Nothing removes an artifact *)

Lemma artifact_of_stored id s :
  id ∈ map art_id (artifacts s) <-> is_Some (artifact_of id s).
Proof.
  unfold artifact_of. split.
  - intros Hin. destruct (find _ (artifacts s)) as [a|] eqn:Hf; [by eexists |].
    rewrite find_id_None in Hf.
    apply list_elem_of_fmap in Hin as (b & -> & Hb).
    apply list_elem_of_In in Hb. by destruct (Hf b Hb).
  - intros [a Ha]. apply find_some in Ha as [Hin Hid].
    apply bool_decide_eq_true in Hid. subst id.
    apply list_elem_of_fmap. exists a. split; [done |].
    by apply list_elem_of_In.
Qed.

Lemma length_artifacts_dispatch act s :
  (length (artifacts s) <= length (artifacts (dispatch act s)))%nat.
Proof.
  pose proof (artifacts_dispatch_other act s) as Hother.
  destruct act; try (by rewrite Hother).
  - simpl. unfold addArtifact. destruct (find _ (artifacts s)); simpl.
    + by rewrite length_map.
    + rewrite length_app. simpl. lia.
  - simpl. by rewrite length_map.
Qed.

(** X5. No store action removes an artifact. Whatever the action, the
    artifacts list does not get shorter, and it is left as it is by every
    action other than [addArtifact] and [updateArtifact]; and when the
    action cannot rename an artifact, an id that was stored is still
    stored afterwards. *)
Theorem artifacts_are_never_removed (act : Action) (s : AppState) :
  (length (artifacts s) <= length (artifacts (dispatch act s)))%nat
  /\ (is_artifact_action act = false ->
      artifacts (dispatch act s) = artifacts s)
  /\ (keeps_artifact_ids act = true ->
      forall id, is_Some (artifact_of id s) ->
                 is_Some (artifact_of id (dispatch act s))).
Proof.
  split_and!.
  - apply length_artifacts_dispatch.
  - intros Hact. pose proof (artifacts_dispatch_other act s) as Hother.
    by destruct act.
  - intros Hact id Hid. apply artifact_of_stored.
    apply artifact_of_stored in Hid.
    destruct (ids_dispatch act s Hact) as [[k Hk] _]. rewrite Hk.
    apply elem_of_app. by left.
Qed.

Lemma artifacts_are_never_removed_witness :
  is_Some (artifact_of "deck"
    (dispatch (AUpdateArtifact "deck" (only_title "New"))
       (run [AAddArtifact (sample_artifact "deck" "draft" 1)] initialState))).
Proof.
  apply (proj2 (proj2 (artifacts_are_never_removed
                         (AUpdateArtifact "deck" (only_title "New")) _)));
    [reflexivity | by eexists].
Defined.

(** * What a stream can do to the store *)

Lemma run_app acts acts' s : run (acts ++ acts') s = run acts' (run acts s).
Proof. unfold run. by rewrite fold_left_app. Qed.

Lemma through_ret {A} (x : A) : through_stream_actions (ret x).
Proof. intros w. by exists []. Qed.

Lemma through_throw {A} e : through_stream_actions (@throw A e).
Proof. intros w. by exists []. Qed.

Lemma through_bind {A B} (m : M A) (k : A -> M B) :
  through_stream_actions m ->
  (forall x, through_stream_actions (k x)) ->
  through_stream_actions (m ≫= k).
Proof.
  intros Hm Hk w. unfold mbind, M_bind, bind.
  destruct (Hm w) as (acts & Hacts & Hw).
  destruct (m w) as [[x | e] w1]; simpl in Hw.
  - destruct (Hk x w1) as (acts' & Hacts' & Hw').
    exists (acts ++ acts'). rewrite forallb_app, Hacts, Hacts', run_app.
    by rewrite <- Hw.
  - by exists acts.
Qed.

Lemma through_try_catch {A} (body : M A) (handler : JsError -> M A) :
  through_stream_actions body ->
  (forall e, through_stream_actions (handler e)) ->
  through_stream_actions (try_catch body handler).
Proof.
  intros Hm Hk w. unfold try_catch.
  destruct (Hm w) as (acts & Hacts & Hw).
  destruct (body w) as [[x | e] w1]; simpl in Hw.
  - by exists acts.
  - destruct (Hk e w1) as (acts' & Hacts' & Hw').
    exists (acts ++ acts'). rewrite forallb_app, Hacts, Hacts', run_app.
    by rewrite <- Hw.
Qed.

Lemma through_call name act :
  stream_action act = true -> through_stream_actions (call name act).
Proof.
  intros Hact w. unfold call. destruct (bool_decide _).
  - exists [act]. simpl. by rewrite Hact.
  - by exists [].
Qed.

Lemma through_call_unbound name act :
  bool_decide (name ∈ destructured) = false ->
  through_stream_actions (call name act).
Proof. intros Hname w. unfold call. rewrite Hname. by exists []. Qed.

Lemma through_console label e : through_stream_actions (console_error label e).
Proof. intros w. by exists []. Qed.

Lemma through_seen_has id : through_stream_actions (seen_has id).
Proof. intros w. by exists []. Qed.

Lemma through_seen_add id : through_stream_actions (seen_add id).
Proof. intros w. by exists []. Qed.

Lemma through_seen_reset : through_stream_actions seen_reset.
Proof. intros w. by exists []. Qed.

Create HintDb through discriminated.
#[local] Hint Resolve through_ret through_throw through_console
  through_seen_has through_seen_add through_seen_reset : through.

Section StreamReach.

Variable JSON_parse : string -> Parsed.

Lemma through_member data : through_stream_actions (member data).
Proof. destruct data; apply through_ret || apply through_throw. Qed.

Lemma through_onmessage now ev :
  through_stream_actions (onmessage JSON_parse now ev).
Proof.
  unfold onmessage. destruct (negb _); [apply through_ret |].
  apply through_try_catch; [| intros; apply through_console].
  unfold onmessage_body. destruct (bool_decide (ev_event ev = "message")).
  - destruct (truthy (ev_data ev)); [| apply through_ret].
    apply through_bind; [apply through_seen_has |]. intros has.
    destruct (negb has).
    + apply through_bind; [apply through_seen_add |]. intros _.
      by apply through_call.
    + apply through_call_unbound, appendMessageContent_unbound.
  - apply through_bind.
    { unfold parsed_data. destruct (JSON_parse _); auto with through. }
    intros data.
    repeat (destruct (_ || _) || destruct (bool_decide _));
      try apply through_ret;
      (apply through_bind; [apply through_member |]; intros d);
      try (by apply through_call).
    apply through_bind; [by apply through_call |]. intros _.
    by apply through_call.
Qed.

Lemma through_deliver evs : through_stream_actions (deliver JSON_parse evs).
Proof.
  induction evs as [|[now ev] evs IH]; simpl; [apply through_ret |].
  apply through_bind; [apply through_onmessage | done].
Qed.

Lemma through_onclose : through_stream_actions onclose.
Proof. by apply through_call. Qed.

Lemma through_create_once a : through_stream_actions (create_once JSON_parse a).
Proof.
  unfold create_once. destruct (fetch_error a); [apply through_throw |].
  apply through_bind.
  { unfold onopen. destruct (response_ok a); auto with through. }
  intros _. apply through_bind; [apply through_deliver |]. intros _.
  destruct (ending a); auto using through_onclose with through.
Qed.

Lemma through_fetchEventSource attempts :
  through_stream_actions (fetchEventSource JSON_parse attempts).
Proof.
  induction attempts as [|a rest IH]; simpl; [apply through_ret |].
  apply through_try_catch.
  - apply through_bind; [apply through_create_once |]. intros _.
    apply through_ret.
  - intros e. destruct (cut_short a); [done |].
    apply through_bind; [| done].
    unfold onerror. apply through_bind; auto with through.
Qed.

Lemma through_startStream attempts :
  through_stream_actions (startStream JSON_parse attempts).
Proof.
  unfold startStream.
  apply through_bind; [by apply through_call |]. intros _.
  apply through_bind; [apply through_seen_reset |]. intros _.
  apply through_try_catch; [apply through_fetchEventSource |]. intros e.
  apply through_bind; [apply through_console |]. intros _.
  apply through_bind; [by apply through_call |]. intros _. apply through_ret.
Qed.

End StreamReach.

Lemma stream_action_effect act s :
  stream_action act = true ->
  messages s `prefix_of` messages (dispatch act s)
  /\ logs s `prefix_of` logs (dispatch act s)
  /\ map art_id (artifacts s) `prefix_of` map art_id (artifacts (dispatch act s))
  /\ (NoDup (map msg_id (messages s)) ->
      NoDup (map msg_id (messages (dispatch act s))))
  /\ (NoDup (map art_id (artifacts s)) ->
      NoDup (map art_id (artifacts (dispatch act s))))
  /\ messageInput (dispatch act s) = messageInput s
  /\ currentSessionId (dispatch act s) = currentSessionId s
  /\ sessions (dispatch act s) = sessions s.
Proof.
  intros Hact. destruct act; try discriminate Hact.
  - (* addMessage *)
    cbn [dispatch]. pose proof (addMessage_ids_distinct s msg) as Hnd.
    unfold addMessage in *. destruct (find _ (messages s)); simpl in *.
    + by split_and!.
    + split_and!; try done. by apply prefix_app_r.
  - (* addLog *)
    cbn [dispatch]. unfold addLog. simpl. split_and!; try done.
    by apply prefix_app_r.
  - by split_and!.
  - (* addArtifact *)
    destruct (ids_dispatch (AAddArtifact artifact) s eq_refl) as [Hpre Hnd].
    cbn [dispatch] in *. split_and!; try done;
      unfold addArtifact; by destruct (find _ (artifacts s)).
  - by split_and!.
Qed.

Lemma stream_actions_effect acts : forall s,
  forallb stream_action acts = true ->
  messages s `prefix_of` messages (run acts s)
  /\ logs s `prefix_of` logs (run acts s)
  /\ map art_id (artifacts s) `prefix_of` map art_id (artifacts (run acts s))
  /\ (NoDup (map msg_id (messages s)) ->
      NoDup (map msg_id (messages (run acts s))))
  /\ (NoDup (map art_id (artifacts s)) ->
      NoDup (map art_id (artifacts (run acts s))))
  /\ messageInput (run acts s) = messageInput s
  /\ currentSessionId (run acts s) = currentSessionId s
  /\ sessions (run acts s) = sessions s.
Proof.
  induction acts as [|act acts IH] using rev_ind; intros s Hacts.
  - by split_and!.
  - rewrite forallb_app in Hacts. apply andb_prop in Hacts as [Hacts Hact].
    simpl in Hact. rewrite andb_true_r in Hact. rewrite run_snoc.
    destruct (IH s Hacts) as (H1 & H2 & H3 & H4 & H5 & H6 & H7 & H8).
    destruct (stream_action_effect act (run acts s) Hact)
      as (G1 & G2 & G3 & G4 & G5 & G6 & G7 & G8).
    split_and!; try (by etrans); auto.
Qed.

(** X6. A stream only appends. Whatever the network plays, after
    [startStream] the messages and the logs stored before are still there,
    unchanged, as a prefix of the new lists, the artifact ids stored before
    are a prefix of the new ids, message ids and artifact ids that were
    pairwise distinct still are, and the input box, the session id and the
    session list are untouched. *)
Theorem stream_only_appends (JSON_parse : string -> Parsed)
    (attempts : list Attempt) (w : World) :
  let s := store w in
  let s' := store (startStream JSON_parse attempts w).2 in
  messages s `prefix_of` messages s'
  /\ logs s `prefix_of` logs s'
  /\ map art_id (artifacts s) `prefix_of` map art_id (artifacts s')
  /\ (NoDup (map msg_id (messages s)) -> NoDup (map msg_id (messages s')))
  /\ (NoDup (map art_id (artifacts s)) -> NoDup (map art_id (artifacts s')))
  /\ messageInput s' = messageInput s
  /\ currentSessionId s' = currentSessionId s
  /\ sessions s' = sessions s.
Proof.
  intros s s'. subst s s'.
  destruct (through_startStream JSON_parse attempts w) as (acts & Hacts & ->).
  by apply stream_actions_effect.
Qed.

Lemma stream_only_appends_witness :
  let attempts :=
    [sample_attempt [(1, sample_event "message" "m1" "Hel");
                     (2, sample_event "message" "m1" "lo");
                     (3, sample_event "artifact" "" "{}")] ServerClosed] in
  NoDup (map msg_id
    (messages (store (startStream sample_parse attempts fresh_world).2))).
Proof.
  intros attempts.
  apply (stream_only_appends sample_parse attempts fresh_world).
  simpl. apply NoDup_nil_2.
Defined.

(** * Events the handler cannot use *)

Ltac unfold_handler :=
  unfold onmessage, try_catch, onmessage_body, parsed_data, member, call,
    mbind, M_bind, bind, seen_has, seen_add, on_store, console_error, throw,
    ret.

(** X7. An event without data, and an event other than 'message' whose
    payload does not parse, parses to [null], or whose name has no case in
    the handler, never reaches the store: [onmessage] returns normally and
    the store and the set of seen ids are as before. *)
Theorem unusable_event_changes_nothing (JSON_parse : string -> Parsed)
    (now : Z) (ev : EventSourceMessage) (w : World) :
  unusable JSON_parse ev ->
  exists w',
    onmessage JSON_parse now ev w = (inl tt, w')
    /\ store w' = store w
    /\ seenMessageIds w' = seenMessageIds w.
Proof.
  intros [Hdata | (Hev & Hbad)].
  - unfold onmessage, truthy. rewrite Hdata. simpl. by eexists.
  - unfold_handler. unfold truthy.
    destruct (bool_decide (ev_data ev = "")); simpl; [by eexists |].
    rewrite (bool_decide_eq_false_2 _ Hev).
    destruct Hbad as [-> | [-> | Hname]]; simpl.
    + by eexists.
    + repeat (case_match; simplify_eq/=); by eexists.
    + unfold json_events in Hname.
      rewrite !not_elem_of_cons in Hname.
      destruct Hname as (H1 & H2 & H3 & H4 & H5 & _).
      rewrite !bool_decide_eq_false_2 by done.
      destruct (JSON_parse (ev_data ev)); simpl; by eexists.
Qed.

Lemma unusable_event_changes_nothing_witness :
  exists w',
    onmessage sample_parse 5 (sample_event "artifact" "a1" "{oops") fresh_world
    = (inl tt, w')
    /\ store w' = store fresh_world
    /\ seenMessageIds w' = seenMessageIds fresh_world.
Proof.
  apply (unusable_event_changes_nothing sample_parse 5
           (sample_event "artifact" "a1" "{oops") fresh_world).
  right. split; [discriminate | left; reflexivity].
Defined.

(** * Artifact events and the preview *)

Lemma version_or_1_nonzero d : version_or_1 d <> 0.
Proof.
  unfold version_or_1. destruct (d_version d) as [v|]; [| done].
  by case_bool_decide.
Qed.

(** X8. After an 'artifact' event with a payload that parses, the preview
    pane shows the artifact just received: it is the active artifact, with
    the fields of the payload, and its version is the payload's version
    when that is present and not 0, and 1 otherwise, so never 0. Messages
    and logs are untouched. *)
Theorem artifact_event_is_previewed (JSON_parse : string -> Parsed)
    (now : Z) (ev : EventSourceMessage) (d : Payload) (w : World) :
  ev_event ev = "artifact" ->
  ev_data ev <> "" ->
  JSON_parse (ev_data ev) = ParsedObject d ->
  let s' := store (onmessage JSON_parse now ev w).2 in
  activeArtifact s' = Some (artifact_from now d)
  /\ PreviewPane s' = view_of (artifact_from now d)
  /\ art_version (artifact_from now d) <> 0
  /\ (forall v, d_version d = Some v -> v <> 0 ->
                art_version (artifact_from now d) = v)
  /\ messages s' = messages (store w)
  /\ logs s' = logs (store w).
Proof.
  intros Hev Hdata Hparse s'.
  assert (Hs' : s' = setActiveArtifactId (Some (d_id d))
                       (addArtifact (artifact_from now d) (store w))).
  { subst s'. unfold_handler. unfold truthy.
    rewrite (bool_decide_eq_false_2 _ Hdata). simpl.
    rewrite Hev, Hparse. simpl. reflexivity. }
  assert (Hact : activeArtifact s' = Some (artifact_from now d)).
  { rewrite Hs'. unfold activeArtifact. simpl.
    change (artifact_of (d_id d)
              (setActiveArtifactId (Some (d_id d))
                 (addArtifact (artifact_from now d) (store w))))
      with (artifact_of (art_id (artifact_from now d))
              (addArtifact (artifact_from now d) (store w))).
    apply lookup_added. }
  split_and!.
  - done.
  - unfold PreviewPane. by rewrite Hact.
  - apply version_or_1_nonzero.
  - intros v Hv Hnz. simpl. unfold version_or_1. rewrite Hv.
    by rewrite bool_decide_eq_false_2.
  - rewrite Hs'. simpl. unfold addArtifact. by destruct (find _ _).
  - rewrite Hs'. simpl. unfold addArtifact. by destruct (find _ _).
Qed.

Lemma artifact_event_is_previewed_witness :
  exists a,
    activeArtifact
      (store (onmessage sample_parse 7 (sample_event "artifact" "" "{}")
                fresh_world).2) = Some a
    /\ art_version a = 1.
Proof.
  eexists. split.
  - apply (artifact_event_is_previewed sample_parse 7
             (sample_event "artifact" "" "{}")
             {| agent_name := None; d_id := "deck"; d_type := outline;
                d_title := "Deck"; d_content := "draft"; d_version := None |}
             fresh_world);
      [reflexivity | discriminate | reflexivity].
  - reflexivity.
Defined.

(** * Agent events *)

Lemma agent_or_System_not_empty d : agent_or_System d <> "".
Proof.
  unfold agent_or_System. destruct (agent_name d) as [n|]; [| done].
  unfold truthy. case_bool_decide; simpl; done.
Qed.

(** X9. An agent event with a payload that parses appends exactly one log
    line: 'start_of_agent' and 'on_chain_start' a running "Started" line,
    'end_of_agent' and 'on_chain_end' a completed "Completed" line. Its
    agent is the payload's [agent_name], or "System" when that is absent
    or empty, so never empty. Messages and artifacts are untouched. *)
Theorem agent_event_appends_one_log (JSON_parse : string -> Parsed)
    (now : Z) (ev : EventSourceMessage) (d : Payload) (w : World) :
  ev_data ev <> "" ->
  JSON_parse (ev_data ev) = ParsedObject d ->
  let s' := store (onmessage JSON_parse now ev w).2 in
  ((ev_event ev = "start_of_agent" \/ ev_event ev = "on_chain_start") ->
   logs s' = logs (store w) ++ [log_from now d "Started" running])
  /\ ((ev_event ev = "end_of_agent" \/ ev_event ev = "on_chain_end") ->
      logs s' = logs (store w) ++ [log_from now d "Completed" completed])
  /\ agent_or_System d <> ""
  /\ (ev_event ev ∈ ["start_of_agent"; "on_chain_start"; "end_of_agent";
                     "on_chain_end"] ->
      messages s' = messages (store w) /\ artifacts s' = artifacts (store w)).
Proof.
  intros Hdata Hparse s'. subst s'.
  split_and!.
  - intros [Hev | Hev]; unfold_handler; unfold truthy;
      rewrite (bool_decide_eq_false_2 _ Hdata); simpl;
      rewrite Hev, Hparse; reflexivity.
  - intros [Hev | Hev]; unfold_handler; unfold truthy;
      rewrite (bool_decide_eq_false_2 _ Hdata); simpl;
      rewrite Hev, Hparse; reflexivity.
  - apply agent_or_System_not_empty.
  - rewrite !elem_of_cons, elem_of_nil.
    intros [Hev | [Hev | [Hev | [Hev | []]]]]; unfold_handler; unfold truthy;
      rewrite (bool_decide_eq_false_2 _ Hdata); simpl;
      rewrite Hev, Hparse; by split.
Qed.

Lemma agent_event_appends_one_log_witness :
  map log_agent
    (logs (store (onmessage sample_parse 9
                    (sample_event "on_chain_start" "" "{}") fresh_world).2))
  = ["System"].
Proof.
  rewrite (proj1 (agent_event_appends_one_log sample_parse 9
                    (sample_event "on_chain_start" "" "{}")
                    {| agent_name := None; d_id := "deck"; d_type := outline;
                       d_title := "Deck"; d_content := "draft";
                       d_version := None |}
                    fresh_world ltac:(discriminate) eq_refl)
                 (or_intror eq_refl)).
  reflexivity.
Defined.

(** * A connection that is not established *)

Section Refused.

Variable JSON_parse : string -> Parsed.

Lemma create_once_refused a w :
  refused a = true ->
  exists e, create_once JSON_parse a w = (inr e, w).
Proof.
  unfold refused, create_once. destruct (fetch_error a) as [e|].
  - intros _. by exists e.
  - intros Hok. apply negb_true_iff in Hok. unfold onopen. rewrite Hok.
    by eexists.
Qed.

Lemma refused_not_cut_short a : refused a = true -> cut_short a = false.
Proof.
  unfold refused, cut_short. destruct (fetch_error a); [done |].
  intros Hok. apply negb_true_iff in Hok. by rewrite Hok.
Qed.

Lemma startStream_refused_outcome a rest w :
  refused a = true ->
  exists e,
    startStream JSON_parse (a :: rest) w
    = (inl true,
       {| store := setIsStreaming false (setIsStreaming true (store w));
          seenMessageIds := ∅;
          console := console w ++ [("SSE Error", e)] ++ [("Stream failed", e)] |}).
Proof.
  intros Href. unfold startStream.
  unfold mbind at 1, M_bind at 1, bind at 1. rewrite call_setIsStreaming.
  unfold mbind at 1, M_bind at 1, bind at 1. cbn [seen_reset].
  cbn [fetchEventSource]. unfold try_catch at 1 2.
  unfold mbind at 1, M_bind at 1, bind at 1.
  match goal with |- context [create_once _ _ ?w0] =>
    destruct (create_once_refused a w0 Href) as [e ->]
  end.
  rewrite (refused_not_cut_short a Href).
  exists e. unfold onerror, mbind, M_bind, bind, console_error, throw.
  cbn [fst snd]. rewrite call_setIsStreaming. simpl.
  by rewrite <- app_assoc.
Qed.

End Refused.

(** X10. When the connection is not established ([fetch] rejects, or the
    response is not ok), [startStream] returns with the store as it was
    except that [isStreaming] is false: nothing the script would have
    delivered is processed, no reconnection is tried, and the error is
    logged twice (by [onerror] and by the [catch]). *)
Theorem refused_connection_delivers_nothing (JSON_parse : string -> Parsed)
    (a : Attempt) (rest : list Attempt) (w : World) :
  refused a = true ->
  exists e w',
    startStream JSON_parse (a :: rest) w = (inl true, w')
    /\ store w' = setIsStreaming false (store w)
    /\ console w' = console w ++ [("SSE Error", e); ("Stream failed", e)].
Proof.
  intros Href.
  destruct (startStream_refused_outcome JSON_parse a rest w Href) as [e He].
  exists e. eexists. split; [exact He |]. simpl. split; [| done].
  by destruct (store w).
Qed.

Lemma refused_connection_delivers_nothing_witness :
  let refused_attempt :=
    {| fetch_error := None; response_ok := false; response_status := 503;
       deliveries := [(1, sample_event "message" "m1" "Hel")];
       ending := ServerClosed |} in
  exists e w',
    startStream sample_parse
      [refused_attempt;
       sample_attempt [(2, sample_event "message" "m2" "x")] ServerClosed]
      fresh_world = (inl true, w')
    /\ store w' = setIsStreaming false (store fresh_world)
    /\ console w' = console fresh_world
                    ++ [("SSE Error", e); ("Stream failed", e)].
Proof.
  intros refused_attempt.
  apply (refused_connection_delivers_nothing sample_parse refused_attempt).
  reflexivity.
Defined.

(** * A message sent again in a later stream *)

(** X11. A 'message' event whose id the current stream has not seen, but
    for which a message is already stored (sent in an earlier stream, or
    typed by the user), is dropped without a trace: the store is unchanged,
    nothing is logged to the console, and the id is now seen. *)
Theorem message_known_to_the_store_is_dropped (JSON_parse : string -> Parsed)
    (now : Z) (ev : EventSourceMessage) (w : World) :
  ev_event ev = "message" ->
  ev_data ev <> "" ->
  msgId_of now ev ∉ seenMessageIds w ->
  (exists m, In m (messages (store w)) /\ msg_id m = msgId_of now ev) ->
  onmessage JSON_parse now ev w
  = (inl tt, {| store := store w;
                seenMessageIds := {[msgId_of now ev]} ∪ seenMessageIds w;
                console := console w |}).
Proof.
  intros Hev Hdata Hseen Hstored. unfold_handler. unfold truthy.
  rewrite (bool_decide_eq_false_2 _ Hdata). simpl.
  rewrite Hev. simpl. rewrite (bool_decide_eq_false_2 _ Hseen). simpl.
  rewrite addMessage_present; [done |]. simpl. exact Hstored.
Qed.

Lemma message_known_to_the_store_is_dropped_witness :
  let w := {| store := run [AAddMessage (sample_message "m1" "Hel")] initialState;
              seenMessageIds := ∅; console := [] |} in
  onmessage sample_parse 2 (sample_event "message" "m1" "lo") w
  = (inl tt, {| store := store w;
                seenMessageIds := {["m1"]} ∪ seenMessageIds w;
                console := console w |}).
Proof.
  intros w.
  apply (message_known_to_the_store_is_dropped sample_parse 2
           (sample_event "message" "m1" "lo") w).
  - reflexivity.
  - discriminate.
  - simpl. apply not_elem_of_empty.
  - exists (sample_message "m1" "Hel"). split; [by left | reflexivity].
Defined.

(** * Sending from the chat pane *)

Lemma threadId_of_not_empty s : threadId_of s <> "".
Proof.
  unfold threadId_of, truthy. destruct (currentSessionId s) as [id|]; [| done].
  destruct (decide (id = "")) as [-> | Hid]; [done |].
  by rewrite (bool_decide_eq_false_2 _ Hid).
Qed.

(** X12. [handleSend] starts a stream only for text that is not blank and
    only while no stream is running; it sends the text as typed, under a
    thread id that is never empty, and clears the input box, so that a
    second [handleSend] right after it sends nothing. When it does not
    send, the store is untouched. *)
Theorem handleSend_sends_typed_text_once (blank : string -> bool)
    (s : AppState) :
  blank "" = true ->
  match handleSend blank s with
  | (s', Some c) =>
      sent_message c = messageInput s
      /\ blank (sent_message c) = false
      /\ isStreaming s = false
      /\ sent_threadId c <> ""
      /\ s' = setMessageInput "" s
      /\ handleSend blank s' = (s', None)
  | (s', None) =>
      s' = s /\ (blank (messageInput s) = true \/ isStreaming s = true)
  end.
Proof.
  intros Hblank. unfold handleSend.
  destruct (blank (messageInput s)) eqn:Hb; simpl.
  { split; [done | by left]. }
  destruct (isStreaming s) eqn:Hs; simpl.
  { split; [done | by right]. }
  split_and!; try done.
  - apply threadId_of_not_empty.
  - by rewrite Hblank.
Qed.

Lemma handleSend_sends_typed_text_once_witness :
  let s := setMessageInput "Make slides about tea" initialState in
  (handleSend only_spaces s).2
  = Some {| sent_message := "Make slides about tea";
            sent_threadId := "demo-thread" |}
  /\ (handleSend only_spaces (handleSend only_spaces s).1).2 = None.
Proof.
  intros s.
  pose proof (handleSend_sends_typed_text_once only_spaces s eq_refl) as H.
  split; [reflexivity |].
  destruct (handleSend only_spaces s) as [s' [c|]] eqn:Hsend.
  - destruct H as (_ & _ & _ & _ & _ & Hagain). cbn [fst].
    by rewrite Hagain.
  - discriminate Hsend.
Defined.

Lemma session_id_truthy (now : Z) :
  truthy ("session-" ++ pretty now)%string = true.
Proof. done. Qed.

(** X13. [handleStart] on a topic that is not blank opens the session
    [session-<now>]: a message with id [msg-<now>] is stored afterwards,
    the messages stored before are kept in front of it, and the next text
    sent from the chat pane goes to the thread of that session, not to the
    demo thread. On a blank topic nothing changes. *)
Theorem handleStart_opens_the_thread (blank : string -> bool)
    (topic text : string) (now : Z) (s : AppState) :
  blank text = false ->
  isStreaming s = false ->
  let s1 := handleStart blank topic now s in
  if blank topic then s1 = s
  else
    (exists m, In m (messages s1) /\ msg_id m = ("msg-" ++ pretty now)%string)
    /\ messages s `prefix_of` messages s1
    /\ (handleSend blank (setMessageInput text s1)).2
       = Some {| sent_message := text;
                 sent_threadId := ("session-" ++ pretty now)%string |}.
Proof.
  intros Htext Hidle s1. subst s1. unfold handleStart.
  destruct (blank topic); [done |].
  set (m := Build_ChatMessage _ _ _ _ _ _).
  set (s0 := setCurrentSessionId _ s).
  assert (Hkeep : currentSessionId (addMessage m s0)
                  = Some ("session-" ++ pretty now)%string
                  /\ isStreaming (addMessage m s0) = false).
  { unfold addMessage. by destruct (find _ (messages s0)). }
  destruct Hkeep as [Hid Hst]. split_and!.
  - unfold addMessage.
    destruct (find _ (messages s0)) as [old|] eqn:Hfind.
    + apply find_some in Hfind as [Hin Heq].
      apply bool_decide_eq_true in Heq. by exists old.
    + exists m. split; [| done]. simpl. apply in_or_app. right. by left.
  - unfold addMessage. destruct (find _ (messages s0)); simpl; [done |].
    by apply prefix_app_r.
  - unfold handleSend. simpl. rewrite Htext, Hst. simpl.
    unfold threadId_of. simpl. rewrite Hid. by rewrite session_id_truthy.
Qed.

Lemma handleStart_opens_the_thread_witness :
  (handleSend only_spaces
     (setMessageInput "Add a slide on oolong"
        (handleStart only_spaces "Tea" 1700000000000 initialState))).2
  = Some {| sent_message := "Add a slide on oolong";
            sent_threadId := "session-1700000000000" |}.
Proof.
  pose proof (handleStart_opens_the_thread only_spaces "Tea"
                "Add a slide on oolong" 1700000000000 initialState
                eq_refl eq_refl) as H.
  simpl in H. destruct H as (_ & _ & H). exact H.
Defined.

(** * The base url and [apiUrl] *)

Lemma all_slashes_slashes n : all_slashes (slashes n) = true.
Proof. induction n as [|n IH]; [done |]. simpl. by rewrite IH. Qed.

Lemma all_slashes_is_slashes s :
  all_slashes s = true -> exists n, s = slashes n.
Proof.
  induction s as [|c t IH]; simpl; intros H.
  - by exists O.
  - apply andb_prop in H as [Hc Ht]. apply bool_decide_eq_true in Hc as ->.
    destruct (IH Ht) as [n ->]. by exists (S n).
Qed.

Lemma all_slashes_app s t :
  all_slashes (s ++ t)%string = all_slashes s && all_slashes t.
Proof.
  induction s as [|c s IH]; [done |].
  change (all_slashes (String c (s ++ t)%string)
          = all_slashes (String c s) && all_slashes t).
  simpl. by rewrite IH, andb_assoc.
Qed.

Lemma strip_decomposes s :
  exists n, s = (strip_trailing_slashes s ++ slashes n)%string.
Proof.
  induction s as [|c t [n IH]].
  - by exists O.
  - cbn [strip_trailing_slashes]. destruct (all_slashes (String c t)) eqn:Hall.
    + destruct (all_slashes_is_slashes _ Hall) as [k Hk]. by exists k.
    + exists n.
      change (String c t
              = String c (strip_trailing_slashes t ++ slashes n)%string).
      by rewrite <- IH.
Qed.

Lemma strip_no_trailing_slash s :
  ends_with_slash (strip_trailing_slashes s) = false.
Proof.
  induction s as [|c t IH]; [done |].
  cbn [strip_trailing_slashes]. destruct (all_slashes (String c t)) eqn:Hall;
    [done |].
  destruct t as [|c' t'].
  - simpl in *. by rewrite andb_true_r in Hall.
  - cbn [strip_trailing_slashes] in *.
    destruct (all_slashes (String c' t')) eqn:Hall'.
    + simpl in Hall. simpl in Hall'. rewrite Hall' in Hall.
      by rewrite andb_true_r in Hall.
    + exact IH.
Qed.

Lemma strip_app_slash s :
  strip_trailing_slashes (s ++ "/")%string = strip_trailing_slashes s.
Proof.
  induction s as [|c t IH]; [done |].
  change (strip_trailing_slashes (String c (t ++ "/")%string)
          = strip_trailing_slashes (String c t)).
  cbn [strip_trailing_slashes].
  change (String c (t ++ "/")%string) with (String c t ++ "/")%string.
  rewrite all_slashes_app. simpl (all_slashes "/"). rewrite andb_true_r.
  destruct (all_slashes (String c t)); [done |]. by rewrite IH.
Qed.

Lemma strip_fixed s :
  ends_with_slash s = false -> strip_trailing_slashes s = s.
Proof.
  induction s as [|c t IH]; [done |]. intros Hend.
  cbn [strip_trailing_slashes].
  destruct (all_slashes (String c t)) eqn:Hall.
  - exfalso. clear IH. revert c Hend Hall.
    induction t as [|c' t' IHt]; intros c Hend Hall.
    + simpl in *. rewrite andb_true_r in Hall. congruence.
    + apply (IHt c').
      * exact Hend.
      * simpl in Hall. apply andb_prop in Hall as [_ Hall]. exact Hall.
  - f_equal. apply IH. destruct t; [done | exact Hend].
Qed.

(** X14. Whatever [NEXT_PUBLIC_API_URL] holds, [API_BASE_URL] is the
    configured url without its trailing slashes and nothing else is
    removed: the configured url is the base followed by slashes only, the
    base does not end with a slash, and stripping the base again changes
    nothing. A variable set to the empty string gives an empty base, not
    the default. *)
Theorem API_BASE_URL_strips_trailing_slashes (env : option string) :
  (exists n, default "http://localhost:8000" env
             = (API_BASE_URL env ++ slashes n)%string)
  /\ ends_with_slash (API_BASE_URL env) = false
  /\ API_BASE_URL (Some (API_BASE_URL env)) = API_BASE_URL env
  /\ API_BASE_URL (Some "") = ""
  /\ API_BASE_URL None = "http://localhost:8000".
Proof.
  unfold API_BASE_URL. split_and!.
  - apply strip_decomposes.
  - apply strip_no_trailing_slash.
  - simpl. apply strip_fixed, strip_no_trailing_slash.
  - done.
  - done.
Qed.

(** X15. [apiUrl] joins base and path with exactly one slash between them
    whether or not the configured url ends with a slash and whether or not
    the path starts with one: a configured url with one more trailing slash
    gives the same urls, and a path gives the same url with and without its
    leading slash. *)
Theorem apiUrl_joins_with_one_slash (base path : string) :
  path <> "" ->
  starts_with_slash path = false ->
  apiUrl (Some (base ++ "/")%string) path = apiUrl (Some base) path
  /\ apiUrl (Some base) ("/" ++ path)%string = apiUrl (Some base) path
  /\ apiUrl (Some base) path
     = (API_BASE_URL (Some base) ++ "/" ++ path)%string
  /\ ends_with_slash (API_BASE_URL (Some base)) = false.
Proof.
  intros Hpath Hlead. unfold apiUrl, API_BASE_URL. simpl default.
  rewrite strip_app_slash. unfold truthy.
  rewrite (bool_decide_eq_false_2 _ Hpath). simpl. rewrite Hlead.
  split_and!; try done. apply strip_no_trailing_slash.
Qed.

Lemma apiUrl_joins_with_one_slash_witness :
  apiUrl (Some "http://api.example.com//") "api/style"
  = "http://api.example.com/api/style".
Proof.
  destruct (apiUrl_joins_with_one_slash "http://api.example.com/" "api/style"
              ltac:(discriminate) eq_refl) as (H1 & _).
  destruct (apiUrl_joins_with_one_slash "http://api.example.com" "api/style"
              ltac:(discriminate) eq_refl) as (H2 & _).
  etrans; [exact H1 |]. etrans; [exact H2 |]. reflexivity.
Defined.

(** * The effects of the slide hook *)

Lemma written_url_is_set (url : string) (now : Z) :
  truthy (url ++ "?t=" ++ pretty now)%string = true.
Proof.
  unfold truthy. apply negb_true_iff, bool_decide_eq_false_2. by destruct url.
Qed.

(** [generateImage] as one step is its start followed by its finish. *)
Lemma generateImage_start_finish slide styleDef outcome now h :
  url_set (imageUrl h) = false ->
  generateImage slide styleDef outcome now h
  = (let g := generateImage_finish outcome now
                (generateImage_start slide styleDef
                   {| gen_hook := h; gen_sent := [] |}) in
     (gen_hook g, gen_sent g)).
Proof.
  intros Hunset. unfold generateImage, generateImage_start, generateImage_finish.
  simpl. rewrite Hunset. by destruct outcome.
Qed.

Lemma hook_run_cons slide styleDef e es g :
  hook_run slide styleDef (e :: es) g
  = hook_run slide styleDef es (hook_step slide styleDef g e).
Proof. reflexivity. Qed.

(** A hook that shows an image and waits for nothing is left alone by
    answers. *)
Lemma hook_run_settled slide styleDef answers g :
  url_set (imageUrl (gen_hook g)) = true ->
  isGenerating (gen_hook g) = false ->
  hook_run slide styleDef
    (map (fun a : FetchOutcome * Z => ImageAnswered a.1 a.2) answers) g = g.
Proof.
  intros Hset Hidle. induction answers as [|a answers IH]; [done |].
  assert (Hstep : hook_step slide styleDef g (ImageAnswered a.1 a.2) = g).
  { unfold hook_step, auto_effect. by rewrite Hidle, Hset. }
  unfold hook_run in *. cbn [map fold_left]. by rewrite Hstep.
Qed.

Lemma repeat_snoc {A} (x : A) (n : nat) : repeat x n ++ [x] = repeat x (S n).
Proof. cbn [repeat]. symmetry. apply repeat_cons. Qed.

(** The answer to the request under way: a failure sends the request
    again, a success shows the image. *)
Lemma hook_step_failed slide styleDef outcome now sent :
  is_ok (outcome, now) = false ->
  hook_step slide styleDef
    {| gen_hook := {| imageUrl := None; isGenerating := true |};
       gen_sent := sent |} (ImageAnswered outcome now)
  = {| gen_hook := {| imageUrl := None; isGenerating := true |};
       gen_sent := sent ++ [{| req_slide := slide; req_style_def := styleDef |}] |}.
Proof.
  intros Hfail. unfold hook_step, auto_effect, generateImage_finish,
    generateImage_start. simpl. by destruct outcome.
Qed.

Lemma hook_step_ok slide styleDef url now sent :
  hook_step slide styleDef
    {| gen_hook := {| imageUrl := None; isGenerating := true |};
       gen_sent := sent |} (ImageAnswered (Ok url) now)
  = {| gen_hook := {| imageUrl := Some (url ++ "?t=" ++ pretty now)%string;
                      isGenerating := false |};
       gen_sent := sent |}.
Proof.
  unfold hook_step, auto_effect, generateImage_finish. simpl.
  by rewrite written_url_is_set.
Qed.

(** A hook that waits for an answer, over the answers that arrive. *)
Lemma hook_run_waiting slide styleDef answers : forall k,
  let request := {| req_slide := slide; req_style_def := styleDef |} in
  let g := hook_run slide styleDef
             (map (fun a : FetchOutcome * Z => ImageAnswered a.1 a.2) answers)
             {| gen_hook := {| imageUrl := None; isGenerating := true |};
                gen_sent := repeat request (S k) |} in
  if existsb is_ok answers then
    gen_sent g = repeat request (k + length (until_first_ok answers))
    /\ isGenerating (gen_hook g) = false
    /\ url_set (imageUrl (gen_hook g)) = true
  else
    gen_sent g = repeat request (S k + length answers)
    /\ gen_hook g = {| imageUrl := None; isGenerating := true |}.
Proof.
  induction answers as [|[outcome now] answers IH]; intros k request g.
  { subst g. cbn [map hook_run fold_left existsb length gen_sent gen_hook].
    by rewrite Nat.add_0_r. }
  subst g. cbn [map fst snd]. rewrite hook_run_cons.
  cbn [existsb until_first_ok length].
  destruct (is_ok (outcome, now)) eqn:Hok.
  - destruct outcome as [| | |url]; try discriminate Hok.
    rewrite hook_step_ok.
    rewrite hook_run_settled by (simpl; (apply written_url_is_set || done)).
    cbn [orb length gen_sent gen_hook isGenerating imageUrl url_set].
    rewrite written_url_is_set. by rewrite Nat.add_1_r.
  - rewrite (hook_step_failed _ _ _ _ _ Hok). fold request.
    rewrite (repeat_snoc request (S k)). cbn [orb].
    specialize (IH (S k)). cbv zeta in IH. fold request in IH.
    destruct (existsb is_ok answers).
    + destruct IH as (-> & ? & ?). split_and!; try done.
      f_equal. cbn [length]. lia.
    + destruct IH as (-> & ->). split; [| done]. f_equal. cbn [length]. lia.
Qed.




(** X17. A generation that fails is requested again at once, without any
    limit. From its first render the hook has one request under way; each
    failed answer is followed by a new request at once, and the first
    successful answer ends it. So after [n] answers that all failed the
    hook has sent [n + 1] requests, shows no image and waits for an answer;
    and once an answer succeeded it has sent as many requests as the
    answers up to that one, shows the image and waits for nothing. *)
Theorem generation_is_retried_until_it_succeeds
    (slide : Slide) (styleDef : option StyleDef)
    (answers : list (FetchOutcome * Z)) :
  let request := {| req_slide := slide; req_style_def := styleDef |} in
  let g := hook_run slide styleDef
             (map (fun a : FetchOutcome * Z => ImageAnswered a.1 a.2) answers)
             (hook_mount slide styleDef) in
  if existsb is_ok answers then
    gen_sent g = repeat request (length (until_first_ok answers))
    /\ isGenerating (gen_hook g) = false
    /\ url_set (imageUrl (gen_hook g)) = true
  else
    gen_sent g = repeat request (S (length answers))
    /\ gen_hook g = {| imageUrl := None; isGenerating := true |}.
Proof.
  intros request g. subst g request.
  exact (hook_run_waiting slide styleDef answers 0).
Qed.

(** * The workspace *)

Lemma chatWidth_step w e :
  250 <= chatWidth w <= 800 ->
  250 <= chatWidth (workspace_step w e) <= 800.
Proof.
  intros Hw. destruct e; simpl; try done.
  unfold resize. destruct (isResizing w); simpl; lia.
Qed.

Lemma idle_step w e :
  isResizing w = false -> is_start e = false ->
  isResizing (workspace_step w e) = false
  /\ chatWidth (workspace_step w e) = chatWidth w.
Proof.
  intros Hidle He. destruct e; simpl; try done.
  unfold resize. by rewrite Hidle.
Qed.

(** X18. The chat pane keeps a width between 250 and 800 pixels whatever
    the user does, wherever the mouse goes; and the width changes only
    during a drag of the divider: a run of events without a mouse-down on
    the divider, started outside a drag, leaves the width as it was. *)
Theorem chatWidth_stays_within_bounds (es : list WorkspaceEvent)
    (w : WorkspaceState) :
  250 <= chatWidth w <= 800 ->
  250 <= chatWidth (workspace_run es w) <= 800
  /\ (isResizing w = false -> forallb (fun e => negb (is_start e)) es = true ->
      chatWidth (workspace_run es w) = chatWidth w).
Proof.
  intros Hw. split.
  - revert w Hw. induction es as [|e es IH]; intros w Hw; [done |].
    simpl. by apply IH, chatWidth_step.
  - clear Hw. revert w. induction es as [|e es IH]; intros w Hidle Hes; [done |].
    simpl in *. apply andb_prop in Hes as [He Hes].
    apply negb_true_iff in He.
    destruct (idle_step w e Hidle He) as [Hidle' Hwidth].
    by rewrite (IH _ Hidle' Hes).
Qed.

Lemma chatWidth_stays_within_bounds_witness :
  250 <= chatWidth (workspace_run [StartResizing; MouseMove 1900; StopResizing;
                                   MouseMove 3] initialWorkspace) <= 800.
Proof.
  apply (chatWidth_stays_within_bounds
           [StartResizing; MouseMove 1900; StopResizing; MouseMove 3]
           initialWorkspace).
  simpl. lia.
Defined.

Lemma replaced_ids (updated : Slide) (l : list Slide) :
  map slide_id
    (map (fun slide =>
            if bool_decide (slide_id slide = slide_id updated)
            then updated else slide) l)
  = map slide_id l.
Proof.
  induction l as [|sl l IH]; [done |]. simpl. rewrite IH. f_equal.
  by case_bool_decide.
Qed.


(** X19. [handleSlideUpdated] replaces in place: the plan keeps its
    length and the slide ids in their order, every position that held a
    slide with the id of the updated slide now holds the updated slide,
    every other position holds the slide it held; the updated slide is
    selected and the signal names its id. Without a plan there is still
    none afterwards, and the slide is selected and signalled all the
    same. *)
Theorem handleSlideUpdated_replaces_in_place (updated : Slide) (now : Z)
    (w : WorkspaceState) :
  let w' := handleSlideUpdated updated now w in
  selectedSlide w' = Some updated
  /\ (sig_slideId <$> regenerateSignal w') = Some (slide_id updated)
  /\ match ws_plan w with
     | None => ws_plan w' = None
     | Some p =>
         exists p', ws_plan w' = Some p'
           /\ map slide_id (slides p') = map slide_id (slides p)
           /\ forall (i : nat) sl, slides p !! i = Some sl ->
                slides p' !! i
                = Some (if bool_decide (slide_id sl = slide_id updated)
                        then updated else sl)
     end.
Proof.
  intros w'. subst w'. unfold handleSlideUpdated. simpl.
  split; [done |]. split; [done |].
  destruct (ws_plan w) as [p|]; simpl; [| done].
  eexists. split; [done |]. simpl. split; [apply replaced_ids |].
  intros i sl Hi.
  change (map ?f ?l) with (f <$> l). by rewrite list_lookup_fmap, Hi.
Qed.



Lemma first_line_single s : first_line (first_line s) = first_line s.
Proof.
  induction s as [|c t IH]; [done |]. simpl.
  destruct (bool_decide (c = "010"%char)) eqn:Hc; [done |].
  simpl. by rewrite Hc, IH.
Qed.

(** X21. The header of the workspace always shows a title: it is never
    empty and never runs over a line break, whatever the plan holds; it
    is the first line of the first slide's text when there is one, and
    "Untitled Presentation" without a plan, without slides, or when that
    first line is empty. *)
Theorem header_title_is_one_nonempty_line (w : WorkspaceState) :
  header_title w <> ""
  /\ first_line (header_title w) = header_title w
  /\ (header_title w = "Untitled Presentation"
      \/ exists p first rest,
           ws_plan w = Some p /\ slides p = first :: rest
           /\ header_title w = first_line (content_text first)).
Proof.
  unfold header_title.
  destruct (ws_plan w) as [p|]; [| split_and!; [done | done | by left]].
  destruct (slides p) as [|first rest] eqn:Hslides;
    [split_and!; [done | done | by left] |].
  unfold truthy.
  destruct (decide (first_line (content_text first) = "")) as [He | Hne].
  - rewrite (bool_decide_eq_true_2 _ He). simpl.
    split_and!; [done | done | by left].
  - rewrite (bool_decide_eq_false_2 _ Hne). simpl.
    split_and!; [done | apply first_line_single |].
    right. by exists p, first, rest.
Qed.

(** * The live thinking display *)

Lemma slice_last_length {A} (n : nat) (l : list A) :
  (length (slice_last n l) <= n)%nat.
Proof. unfold slice_last. rewrite length_drop. lia. Qed.

Lemma slice_last_In {A} (n : nat) (l : list A) x :
  In x (slice_last n l) -> In x l.
Proof.
  unfold slice_last. generalize (length l - n)%nat as k. intros k.
  revert l. induction k as [|k IH]; intros [|y l]; simpl; auto.
Qed.

Lemma slice_last_newest {A} (n : nat) (l : list A) x :
  (0 < n)%nat -> last (slice_last n (l ++ [x])) = Some x.
Proof.
  intros Hn. unfold slice_last. rewrite length_app. simpl.
  rewrite drop_app_le by lia. by rewrite last_snoc.
Qed.

Module LiveThinkingFacts.
Import LiveThinkingDisplay.

Lemma phase_of_in_range content k :
  phase_of content = Some k -> (k < length PHASES)%nat.
Proof.
  unfold phase_of. simpl.
  destruct (content_includes content "Director") as [[|]|];
    [intros [= <-]; lia | | done].
  destruct (content_includes content "Refiner") as [[|]|];
    [intros [= <-]; lia | done | done].
Qed.

Lemma step_in_range sessionId st e :
  in_range st -> in_range (step sessionId st e).
Proof.
  intros [Hlogs Hphase]. destruct e as [ts d| | |ts random]; simpl.
  - destruct (source_open st); [| done]. destruct d as [|type content]; [done |].
    simpl. destruct (bool_decide (type = Some "log")).
    + split; simpl; [apply slice_last_length |].
      destruct (phase_of content) as [k|] eqn:Hk; simpl; [| done].
      by apply (phase_of_in_range content).
    + by destruct (_ || _).
  - by destruct (source_open st).
  - destruct (_ || _); [done |]. split; [done |].
    cbn [cycle_phase phaseIndex]. apply Nat.mod_upper_bound. done.
  - destruct (_ || _); [done |]. split; [| done].
    cbn [generateFallbackLog logs].
    match goal with |- (length (slice_last 6 ?l) <= 8)%nat =>
      pose proof (slice_last_length 6 l) end.
    lia.
Qed.

Lemma display_snoc sessionId es e :
  display sessionId (es ++ [e]) = step sessionId (display sessionId es) e.
Proof. unfold display. by rewrite fold_left_app. Qed.

Lemma display_in_range sessionId es : in_range (display sessionId es).
Proof.
  induction es as [|e es IH] using rev_ind.
  - unfold display, mount. simpl. destruct (session_given sessionId);
      split; simpl; lia.
  - rewrite display_snoc. by apply step_in_range.
Qed.

Lemma fallback_pick (k random : nat) :
  (k < length PHASES)%nat ->
  In (nth k PHASES "") PHASES
  /\ In (nth (random mod length (FALLBACK_LOGS (nth k PHASES "")))
             (FALLBACK_LOGS (nth k PHASES "")) "")
        (FALLBACK_LOGS (nth k PHASES "")).
Proof.
  intros Hk. split; [by apply nth_In |].
  apply nth_In. apply Nat.mod_upper_bound.
  destruct k as [|[|[|k]]]; simpl in *; (done || lia).
Qed.

Lemma with_session_streamed sessionId es :
  session_given sessionId = true ->
  forall line, In line (logs (display sessionId es)) -> streamed es line.
Proof.
  intros Hgiven. induction es as [|e es IH] using rev_ind; intros line.
  - unfold display, mount. rewrite Hgiven. simpl. done.
  - rewrite display_snoc.
    assert (Hold : forall l, streamed es l -> streamed (es ++ [e]) l).
    { intros l (ts & c & Hin & ->). exists ts, c. split; [| done].
      apply in_or_app. by left. }
    destruct e as [ts d| | |ts random]; simpl.
    + destruct (source_open _); [| by auto].
      destruct d as [|type content]; [by auto |]. simpl.
      destruct (decide (type = Some "log")) as [-> | Hne].
      * rewrite bool_decide_eq_true_2 by done. simpl.
        intros Hin. apply slice_last_In, in_app_or in Hin as [Hin | Hin];
          [by auto |].
        destruct Hin as [<- | []]. exists ts, content. split; [| done].
        apply in_or_app. right. by left.
      * rewrite (bool_decide_eq_false_2 _ Hne). destruct (_ || _); by auto.
    + destruct (source_open _); by auto.
    + rewrite Hgiven, orb_true_r. by auto.
    + rewrite Hgiven, orb_true_r. by auto.
Qed.

Lemma without_session_closed sessionId es :
  session_given sessionId = false ->
  isStreaming (display sessionId es) = false
  /\ source_open (display sessionId es) = false.
Proof.
  intros Hnone. induction es as [|e es [IH1 IH2]] using rev_ind.
  - unfold display, mount. by rewrite Hnone.
  - rewrite display_snoc.
    destruct e; simpl; rewrite ?IH1, ?IH2, ?Hnone; simpl; by rewrite ?IH1, ?IH2.
Qed.

Lemma without_session_canned sessionId es :
  session_given sessionId = false ->
  forall line, In line (logs (display sessionId es)) -> canned line.
Proof.
  intros Hnone. induction es as [|e es IH] using rev_ind; intros line.
  - unfold display, mount. rewrite Hnone. simpl. done.
  - rewrite display_snoc.
    destruct (without_session_closed sessionId es Hnone) as [Hs Ho].
    destruct (display_in_range sessionId es) as [_ Hphase].
    destruct e as [ts d| | |ts random]; simpl; rewrite ?Ho, ?Hs, ?Hnone;
      simpl; try by auto.
    intros Hin. apply slice_last_In, in_app_or in Hin as [Hin | Hin];
      [by auto |].
    destruct Hin as [<- | []].
    destruct (fallback_pick (phaseIndex (display sessionId es)) random Hphase)
      as [Hp Hb].
    by eexists ts, _, _.
Qed.

End LiveThinkingFacts.

(** X22. The live display stays in range whatever arrives and in whatever
    order: the feed never holds more than eight lines, and the phase index
    always names one of the three phases, so the phase shown is always
    defined. *)
Theorem live_display_stays_in_range (sessionId : option string)
    (es : list LiveThinkingDisplay.Event) :
  let st := LiveThinkingDisplay.display sessionId es in
  (length (LiveThinkingDisplay.logs st) <= 8)%nat
  /\ is_Some (LiveThinkingDisplay.PHASES
                !! LiveThinkingDisplay.phaseIndex st).
Proof.
  intros st. destruct (LiveThinkingFacts.display_in_range sessionId es)
    as [Hlogs Hphase].
  split; [done |]. by apply lookup_lt_is_Some.
Qed.

(** X23. The feed never mixes its two sources. With a session id every
    line shown is the line of a 'log' message the stream delivered, also
    after the stream has ended; without one the display never streams
    and every line shown is one of the canned lines of a phase. *)
Theorem live_display_shows_one_source (sessionId : option string)
    (es : list LiveThinkingDisplay.Event) (line : string) :
  In line (LiveThinkingDisplay.logs (LiveThinkingDisplay.display sessionId es)) ->
  if LiveThinkingDisplay.session_given sessionId
  then LiveThinkingDisplay.streamed es line
  else LiveThinkingDisplay.canned line
       /\ LiveThinkingDisplay.isStreaming
            (LiveThinkingDisplay.display sessionId es) = false.
Proof.
  intros Hin.
  destruct (LiveThinkingDisplay.session_given sessionId) eqn:Hgiven.
  - by apply (LiveThinkingFacts.with_session_streamed sessionId).
  - split.
    + by apply (LiveThinkingFacts.without_session_canned sessionId es).
    + by apply LiveThinkingFacts.without_session_closed.
Qed.

Lemma live_display_shows_one_source_witness :
  LiveThinkingDisplay.streamed sample_feed "[10:00:02] Refiner is polishing".
Proof.
  apply (live_display_shows_one_source (Some "plan_1") sample_feed
           "[10:00:02] Refiner is polishing").
  vm_compute. tauto.
Defined.

(** * Selecting a region of a slide *)

Module InpaintingFacts.
Import Inpainting.

Section Steps.

Variable blank : string -> bool.

Lemma initial_consistent : consistent initial.
Proof. unfold consistent, initial. simpl. split_and!; done. Qed.

Lemma step_consistent v e :
  consistent (inpaint v) -> consistent (inpaint (step blank v e)).
Proof.
  intros Hc. pose proof Hc as (Hpop & Hdrag & Hsize).
  destruct e as [em p|p| | |s| |answer now|h]; cbn [step inpaint].
  - (* mouse down *)
    unfold handleMouseDown. destruct (_ || _) eqn:Hguard; [done |].
    apply orb_false_elim in Hguard as [_ Href].
    unfold consistent. simpl. by split_and!.
  - (* mouse move *)
    unfold handleMouseMove.
    destruct (isSelecting (inpaint v)) eqn:Hsel; [| done].
    destruct (startPos (inpaint v)) as [start|] eqn:Hstart; [| done].
    destruct (Hdrag eq_refl) as (Hshow & Href & _).
    unfold consistent. simpl. rewrite ?Hshow, ?Href, ?Hsel, ?Hstart.
    split_and!; try done.
    intros sel [= <-]. simpl. lia.
  - (* mouse up *)
    unfold handleMouseUp.
    destruct (isSelecting (inpaint v)) eqn:Hsel; simpl; [| done].
    destruct (Hdrag eq_refl) as (Hshow & Href & _).
    unfold large_enough.
    destruct (selection (inpaint v)) as [sel|] eqn:Hs.
    + destruct ((10 <? sel_w sel)%Z && (10 <? sel_h sel)%Z) eqn:Hbig.
      * apply andb_prop in Hbig as [Hw Hh].
        apply Z.ltb_lt in Hw, Hh.
        unfold consistent. simpl. rewrite ?Hs. split_and!; try done.
        intros _. by exists sel.
      * unfold consistent. simpl. rewrite ?Hshow. split_and!; done.
    + unfold consistent. simpl. rewrite ?Hshow. split_and!; done.
  - (* cancel *)
    unfold consistent. simpl. split_and!; try done.
    intros Hsel. by destruct (Hdrag Hsel) as (_ & ? & ?).
  - (* typing *)
    done.
  - (* apply *)
    unfold apply_enabled.
    destruct (showInstruction (inpaint v)) eqn:Hshow; simpl; [| done].
    destruct (bool_decide _); simpl; [| done].
    destruct (negb _); simpl; [| done].
    unfold handleInpaint_start.
    destruct (selection (inpaint v)) as [sel|] eqn:Hs; [| done].
    destruct (negb (url_set _)); [done |].
    unfold consistent. simpl. rewrite ?Hshow, ?Hs. split_and!; try done.
    intros Hsel. by destruct (Hdrag Hsel) as (? & _).
  - (* answer *)
    destruct (isRefining (inpaint v)) eqn:Href; [| done].
    assert (Hidle : isSelecting (inpaint v) = false).
    { destruct (isSelecting (inpaint v)) eqn:Hsel; [| done].
      destruct (Hdrag eq_refl) as (_ & ? & _). congruence. }
    destruct answer as [|url]; unfold consistent; simpl; rewrite ?Hidle;
      split_and!; done.
  - done.
Qed.

Lemma run_consistent es : forall v,
  consistent (inpaint v) -> consistent (inpaint (view_run blank es v)).
Proof.
  induction es as [|e es IH]; intros v Hv; [done |].
  simpl. by apply IH, step_consistent.
Qed.

Lemma view_mode_untouched v e :
  in_view_mode e = true ->
  untouched (inpaint v) -> untouched (inpaint (step blank v e)).
Proof.
  intros He (Hsel & Hs & Hshow & Href).
  destruct e as [em p|p| | |s| |answer now|h]; simpl in *.
  - apply negb_true_iff in He as ->. done.
  - unfold handleMouseMove. by rewrite Hsel.
  - unfold handleMouseUp. by rewrite Hsel.
  - done.
  - done.
  - unfold apply_enabled. by rewrite Hshow.
  - by rewrite Href.
  - done.
Qed.

Lemma view_mode_run es : forall v,
  forallb in_view_mode es = true ->
  untouched (inpaint v) -> untouched (inpaint (view_run blank es v)).
Proof.
  induction es as [|e es IH]; intros v Hes Hv; [done |].
  simpl in *. apply andb_prop in Hes as [He Hes].
  by apply IH, view_mode_untouched.
Qed.

End Steps.

End InpaintingFacts.

(** X24. In a slide view the instruction popover only ever stands over a
    selection wider and higher than 10 pixels; while a drag is under way
    neither the popover is shown nor a refinement request is running; and
    no selection has a negative width or height. This holds after every
    sequence of mouse events, clicks, answers and changes of the image. *)
Theorem popover_stands_over_a_real_selection (blank : string -> bool)
    (es : list Inpainting.Event) (h : HookState) :
  let st := Inpainting.inpaint
              (Inpainting.view_run blank es (Inpainting.mounted h)) in
  (Inpainting.showInstruction st = true ->
   exists sel, Inpainting.selection st = Some sel
               /\ 10 < Inpainting.sel_w sel /\ 10 < Inpainting.sel_h sel)
  /\ (Inpainting.isSelecting st = true ->
      Inpainting.showInstruction st = false
      /\ Inpainting.isRefining st = false)
  /\ (forall sel, Inpainting.selection st = Some sel ->
                  0 <= Inpainting.sel_w sel /\ 0 <= Inpainting.sel_h sel).
Proof.
  intros st.
  destruct (InpaintingFacts.run_consistent blank es (Inpainting.mounted h)
              InpaintingFacts.initial_consistent) as (Hpop & Hdrag & Hsize).
  split_and!; [done | | done].
  intros Hsel. by destruct (Hdrag Hsel) as (? & ? & _).
Qed.

(** X25. As long as every mouse-down happens outside edit mode, the mouse
    does nothing to a slide view: nothing is selected, no popover is
    shown, no drag and no refinement request is ever under way. *)
Theorem view_mode_never_selects (blank : string -> bool)
    (es : list Inpainting.Event) (h : HookState) :
  forallb Inpainting.in_view_mode es = true ->
  Inpainting.untouched
    (Inpainting.inpaint (Inpainting.view_run blank es (Inpainting.mounted h))).
Proof.
  intros Hes. apply InpaintingFacts.view_mode_run; [done |].
  by unfold Inpainting.untouched.
Qed.

Lemma view_mode_never_selects_witness :
  Inpainting.selection
    (Inpainting.inpaint
       (Inpainting.view_run only_spaces sample_drag
          (Inpainting.mounted sample_ready))) = None.
Proof.
  destruct (view_mode_never_selects only_spaces sample_drag sample_ready
              eq_refl) as (_ & Hsel & _).
  exact Hsel.
Defined.

(** X26. A drag in edit mode over a ready image selects a rectangle that
    does not depend on the way the drag goes: its corner is the smaller of
    the two coordinates on each axis, its size is the absolute value of
    their difference, and a drag from [q] to [p] selects what a drag from
    [p] to [q] selects. *)
Theorem drag_selects_the_rectangle_between_its_ends (url : option string)
    (p q : Inpainting.Point) (st : Inpainting.State) :
  url_set url = true ->
  Inpainting.isRefining st = false ->
  let dragged a b :=
    Inpainting.selection
      (Inpainting.handleMouseMove b
         (Inpainting.handleMouseDown true url a st)) in
  dragged p q
  = Some {| Inpainting.sel_x := Z.min (Inpainting.pt_x p) (Inpainting.pt_x q);
            Inpainting.sel_y := Z.min (Inpainting.pt_y p) (Inpainting.pt_y q);
            Inpainting.sel_w := Z.abs (Inpainting.pt_x q - Inpainting.pt_x p);
            Inpainting.sel_h := Z.abs (Inpainting.pt_y q - Inpainting.pt_y p) |}
  /\ dragged q p = dragged p q.
Proof.
  intros Hurl Href dragged.
  assert (Hdrag : forall a b,
             dragged a b
             = Some {| Inpainting.sel_x :=
                         Z.min (Inpainting.pt_x a) (Inpainting.pt_x b);
                       Inpainting.sel_y :=
                         Z.min (Inpainting.pt_y a) (Inpainting.pt_y b);
                       Inpainting.sel_w :=
                         Z.abs (Inpainting.pt_x b - Inpainting.pt_x a);
                       Inpainting.sel_h :=
                         Z.abs (Inpainting.pt_y b - Inpainting.pt_y a) |}).
  { intros a b. subst dragged.
    unfold Inpainting.handleMouseDown, Inpainting.handleMouseMove.
    rewrite Hurl, Href. simpl. f_equal. f_equal.
    - destruct (Z.ltb_spec 0 (Inpainting.pt_x b - Inpainting.pt_x a)); lia.
    - destruct (Z.ltb_spec 0 (Inpainting.pt_y b - Inpainting.pt_y a)); lia. }
  split; [apply Hdrag |].
  rewrite !Hdrag. f_equal. f_equal; lia.
Qed.

Lemma drag_selects_the_rectangle_between_its_ends_witness :
  Inpainting.selection
    (Inpainting.handleMouseMove {| Inpainting.pt_x := 40; Inpainting.pt_y := 90 |}
       (Inpainting.handleMouseDown true (imageUrl sample_ready)
          {| Inpainting.pt_x := 100; Inpainting.pt_y := 50 |}
          Inpainting.initial))
  = Some {| Inpainting.sel_x := 40; Inpainting.sel_y := 50;
            Inpainting.sel_w := 60; Inpainting.sel_h := 40 |}.
Proof.
  exact (proj1 (drag_selects_the_rectangle_between_its_ends
                  (imageUrl sample_ready)
                  {| Inpainting.pt_x := 100; Inpainting.pt_y := 50 |}
                  {| Inpainting.pt_x := 40; Inpainting.pt_y := 90 |}
                  Inpainting.initial eq_refl eq_refl)).
Defined.



(** * The chat pane of the workspace *)

Module PlanChatFacts.
Import PlanChat.

Lemma pop_snoc (l : list Message) m : pop (l ++ [m]) = l.
Proof. unfold pop. apply removelast_last. Qed.

Lemma last_role_snoc r (l : list Message) m :
  last_role_is r (l ++ [m]) = bool_decide (role m = r).
Proof. unfold last_role_is. by rewrite last_snoc. Qed.

Lemma last_isStreaming_snoc (l : list Message) m :
  last_isStreaming (l ++ [m]) = isStreaming m.
Proof. unfold last_isStreaming. by rewrite last_snoc. Qed.

Lemma error_text_not_empty message : error_text message <> "".
Proof.
  unfold error_text, truthy.
  destruct (decide (message = "")) as [-> | Hne]; [done |].
  by rewrite (bool_decide_eq_false_2 _ Hne).
Qed.

(** The [catch] takes the placeholder away and apologizes. *)
Lemma failed_after_placeholder message w l m loading0 error0 sid reqs :
  placeholder m = true ->
  failed message
    {| workspace := w;
       chat := {| messages := l ++ [m]; loading := loading0;
                  error := error0; streamSessionId := sid |};
       sent := reqs |}
  = {| workspace := w;
       chat := {| messages := l ++ [apology]; loading := false;
                  error := Some (error_text message);
                  streamSessionId := sid |};
       sent := reqs |}.
Proof.
  intros Hm. unfold failed. simpl.
  rewrite last_role_snoc, last_isStreaming_snoc.
  unfold placeholder in Hm. rewrite Hm. by rewrite pop_snoc.
Qed.

Section Chat.

Variable stringify_log : list string -> string.
Variable stringify_steps : list (string * string) -> string.

Lemma final_messages_settled data l :
  settled l
    (final_messages stringify_log stringify_steps data
       (l ++ [{| role := "ai-streaming-thinking"; content := "Thinking...";
                 isStreaming := false |}]))
  /\ last (final_messages stringify_log stringify_steps data
             (l ++ [{| role := "ai-streaming-thinking";
                       content := "Thinking..."; isStreaming := false |}]))
     = Some (ai ("Created a plan with " ++ pretty (length (slides data))
                 ++ " slides. Check the preview!")%string).
Proof.
  unfold final_messages. rewrite last_role_snoc. simpl. rewrite pop_snoc.
  split; [| by rewrite last_snoc].
  set (created := ai _).
  set (log := match refinement_log data with
              | Some (line :: lines) =>
                  [{| role := "ai-refiner";
                      content := stringify_log (line :: lines);
                      isStreaming := false |}]
              | _ => []
              end).
  set (thinking := match thinking_steps data with
                   | Some (s :: steps) =>
                       [{| role := "ai-thinking";
                           content := stringify_steps (s :: steps);
                           isStreaming := false |}]
                   | _ =>
                       match plan_reasoning data with
                       | Some r =>
                           if truthy r
                           then [{| role := "ai-thinking"; content := r;
                                    isStreaming := false |}]
                           else []
                       | None => []
                       end
                   end).
  exists (log ++ thinking ++ [created]). split_and!.
  - subst log thinking.
    destruct (refinement_log data) as [[|line lines]|];
      destruct (thinking_steps data) as [[|s steps]|];
      destruct (plan_reasoning data) as [r|]; try destruct (truthy r);
      simpl; by rewrite <- ?app_assoc, ?app_nil_r.
  - intros m Hin. apply in_app_or in Hin as [Hin | Hin];
      [| apply in_app_or in Hin as [Hin | Hin]].
    + subst log. destruct (refinement_log data) as [[|line lines]|];
        simpl in Hin; try done. by destruct Hin as [<- | []].
    + subst thinking. destruct (thinking_steps data) as [[|s steps]|];
        try (destruct (plan_reasoning data) as [r|]; try destruct (truthy r));
        simpl in Hin; try done; by destruct Hin as [<- | []].
    + by destruct Hin as [<- | []].
  - exists created. split; [| done]. by rewrite !app_assoc, last_snoc.
Qed.

Lemma settled_one l m :
  placeholder m = false -> role m = "ai" -> settled l (l ++ [m]).
Proof.
  intros Hm Hrole. exists [m]. split_and!; [done | |].
  - intros m' [<- | []]. split; [done |]. by rewrite Hrole.
  - by exists m.
Qed.

Lemma edit_outcome net text w l loading0 error0 sid reqs :
  let p := {| workspace := w;
              chat := {| messages := l; loading := loading0;
                         error := error0; streamSessionId := sid |};
              sent := reqs |} in
  let p' := edit net text p in
  sent p' = reqs ++ [EditSlide text (selectedSlide w)
                       (match selectedSlide w with
                        | Some _ => None
                        | None => ws_plan w
                        end) (ws_styleDef w)]
  /\ loading (chat p') = false
  /\ settled l (messages (chat p'))
  /\ streamSessionId (chat p') = sid
  /\ match edit_answer net with
     | Ok updated =>
         workspace p' = handleSlideUpdated updated (clock net) w
         /\ error (chat p') = error0
     | _ =>
         workspace p' = w
         /\ (exists message, error (chat p') = Some message /\ message <> "")
         /\ last (messages (chat p')) = Some apology
     end.
Proof.
  intros p p'. subst p p'. unfold edit, push, send. simpl.
  destruct (edit_answer net) as [message| |updated].
  - rewrite failed_after_placeholder by done. simpl. split_and!; try done.
    + by apply settled_one.
    + eexists. split; [done |]. apply error_text_not_empty.
    + by rewrite last_snoc.
  - rewrite failed_after_placeholder by done. simpl. split_and!; try done.
    + by apply settled_one.
    + eexists. split; [done |]. apply error_text_not_empty.
    + by rewrite last_snoc.
  - simpl. rewrite pop_snoc. split_and!; try done. by apply settled_one.
Qed.

Lemma generate_outcome net text file w l loading0 error0 sid reqs :
  let p := {| workspace := w;
              chat := {| messages := l; loading := loading0;
                         error := error0; streamSessionId := sid |};
              sent := reqs |} in
  let p' := generate stringify_log stringify_steps net text file p in
  reqs `prefix_of` sent p'
  /\ forallb is_edit_request (drop (length reqs) (sent p')) = false
  /\ loading (chat p') = false
  /\ settled l (messages (chat p'))
  /\ match style_answer net, plan_answer net with
     | Ok sd, Ok data =>
         workspace p' = handlePlanGenerated data sd w
         /\ sent p' = reqs ++ [Style text file; Plan (session_id net) text sd]
         /\ error (chat p') = error0
         /\ streamSessionId (chat p') = None
         /\ last (messages (chat p'))
            = Some (ai ("Created a plan with "
                        ++ pretty (length (slides data))
                        ++ " slides. Check the preview!")%string)
     | _, _ =>
         workspace p' = w
         /\ (exists message, error (chat p') = Some message /\ message <> "")
         /\ last (messages (chat p')) = Some apology
     end.
Proof.
  intros p p'. subst p p'. unfold generate, push, send. simpl.
  destruct (style_answer net) as [message| |sd].
  - rewrite failed_after_placeholder by done. simpl.
    rewrite drop_app_length. split_and!; try done.
    + by apply prefix_app_r.
    + by apply settled_one.
    + eexists. split; [done |]. apply error_text_not_empty.
    + by rewrite last_snoc.
  - rewrite failed_after_placeholder by done. simpl.
    rewrite drop_app_length. split_and!; try done.
    + by apply prefix_app_r.
    + by apply settled_one.
    + eexists. split; [done |]. apply error_text_not_empty.
    + by rewrite last_snoc.
  - simpl. rewrite pop_snoc.
    destruct (plan_answer net) as [message| |data].
    + rewrite failed_after_placeholder by done. simpl.
      rewrite <- app_assoc, drop_app_length. split_and!; try done.
      * by apply prefix_app_r.
      * by apply settled_one.
      * eexists. split; [done |]. apply error_text_not_empty.
      * by rewrite last_snoc.
    + rewrite failed_after_placeholder by done. simpl.
      rewrite <- app_assoc, drop_app_length. split_and!; try done.
      * by apply prefix_app_r.
      * by apply settled_one.
      * eexists. split; [done |]. apply error_text_not_empty.
      * by rewrite last_snoc.
    + simpl. rewrite <- app_assoc, drop_app_length.
      destruct (final_messages_settled data l) as [Hsettled Hlast].
      split_and!; try done. by apply prefix_app_r.
Qed.

(** A submission run alone is the submission taken as one step. *)
Lemma alone_handleSubmission net text file p :
  alone stringify_log stringify_steps net text file p
  = handleSubmission stringify_log stringify_steps net text file p.
Proof.
  unfold alone, submit, handleSubmission, processBackendCall.
  destruct (negb (truthy text) && bool_decide (file = None)); [done |].
  cbn [workspace].
  destruct (isEdit (workspace p) file).
  - unfold finish, resume, edit. cbn [workspace chat sent].
    by destruct (edit_answer net).
  - unfold finish, resume, generate. cbn [workspace chat sent].
    destruct (style_answer net); try done.
Qed.

End Chat.

End PlanChatFacts.

(** X28. A submission that runs to its end before anything else happens
    settles. When there is text or a file to send, whatever the network
    answers, the pane ends not loading, the messages shown before are still
    there in order, followed by the user's message (with the name of the
    file attached, if any) and by at least one reply; no reply is a
    placeholder for work under way, the last reply is plain text of the
    assistant, and at most two requests were sent. An error is shown only
    when the last reply is the apology. When there is neither text nor file
    nothing happens at all. *)
Theorem submission_settles
    (stringify_log : list string -> string)
    (stringify_steps : list (string * string) -> string)
    (net : PlanChat.Network) (text : string) (file : option PlanChat.File)
    (p : PlanChat.Page) :
  let p' := PlanChat.alone stringify_log stringify_steps net text file p in
  if bool_decide (text = "") && bool_decide (file = None) then p' = p
  else
    PlanChat.loading (PlanChat.chat p') = false
    /\ PlanChat.settled
         (PlanChat.messages (PlanChat.chat p)
            ++ [{| PlanChat.role := "user";
                   PlanChat.content :=
                     (text ++ match file with
                              | Some f =>
                                  " [Attached: " ++ PlanChat.file_name f ++ "]"
                              | None => ""
                              end)%string;
                   PlanChat.isStreaming := false |}])
         (PlanChat.messages (PlanChat.chat p'))
    /\ PlanChat.sent p `prefix_of` PlanChat.sent p'
    /\ (length (PlanChat.sent p') <= length (PlanChat.sent p) + 2)%nat
    /\ (PlanChat.error (PlanChat.chat p') = None
        \/ last (PlanChat.messages (PlanChat.chat p'))
           = Some PlanChat.apology).
Proof.
  intros p'. subst p'. rewrite PlanChatFacts.alone_handleSubmission.
  unfold PlanChat.handleSubmission, truthy.
  rewrite negb_involutive.
  destruct (bool_decide (text = "") && bool_decide (file = None)); [done |].
  destruct p as [w [l loading0 error0 sid] reqs].
  unfold PlanChat.processBackendCall.
  cbn [PlanChat.workspace PlanChat.chat PlanChat.sent PlanChat.messages
       PlanChat.streamSessionId].
  destruct (PlanChat.isEdit w file).
  - match goal with |- context [PlanChat.edit net text ?q] =>
      pose proof (PlanChatFacts.edit_outcome net text w
                    (PlanChat.messages (PlanChat.chat q)) true None sid reqs)
        as H end.
    cbn [PlanChat.chat PlanChat.messages] in H. cbv zeta in H.
    destruct H as (Hsent & Hload & Hsettled & _ & Hanswer).
    split_and!; try done.
    + rewrite Hsent. by apply prefix_app_r.
    + rewrite Hsent, length_app. simpl. lia.
    + destruct (PlanChat.edit_answer net).
      * right. by destruct Hanswer as (_ & _ & ?).
      * right. by destruct Hanswer as (_ & _ & ?).
      * left. by destruct Hanswer as (_ & ?).
  - match goal with |- context [PlanChat.generate _ _ net text file ?q] =>
      pose proof (PlanChatFacts.generate_outcome stringify_log stringify_steps
                    net text file w
                    (PlanChat.messages (PlanChat.chat q)) true None sid reqs)
        as H end.
    cbn [PlanChat.chat PlanChat.messages] in H. cbv zeta in H.
    destruct H as (Hpre & _ & Hload & Hsettled & Hanswer).
    split_and!; try done.
    + unfold PlanChat.generate, PlanChat.push, PlanChat.send, PlanChat.failed.
      cbn [PlanChat.sent PlanChat.chat PlanChat.workspace].
      destruct (PlanChat.style_answer net);
        try destruct (PlanChat.plan_answer net);
        cbn [PlanChat.sent]; rewrite ?length_app; simpl; lia.
    + destruct (PlanChat.style_answer net) as [| |sd];
        [right; by destruct Hanswer as (_ & _ & ?) ..|].
      destruct (PlanChat.plan_answer net);
        [right; by destruct Hanswer as (_ & _ & ?) ..|].
      left. by destruct Hanswer as (_ & _ & ? & _).
Qed.

(** Two submissions that overlap do not settle: with every request
    answered, the placeholder of the first one is still shown at the end,
    the updaters of the two calls having popped each other's messages. *)
Example overlapping_submissions_leave_a_placeholder :
  let p := PlanChat.overlapped sample_stringify_log sample_stringify_steps
             sample_network "Slides about tea" "Slides about coffee"
             {| PlanChat.workspace := initialWorkspace;
                PlanChat.chat := PlanChat.initial; PlanChat.sent := [] |} in
  In {| PlanChat.role := "ai"; PlanChat.content := "Analyzing requirements...";
        PlanChat.isStreaming := true |}
     (PlanChat.messages (PlanChat.chat p))
  /\ PlanChat.loading (PlanChat.chat p) = false
  /\ existsb PlanChat.placeholder (PlanChat.messages (PlanChat.chat p)) = true.
Proof. vm_compute. split_and!; [tauto | done | done]. Qed.

(** X29. Once a plan exists, text alone never replaces it. Whatever the
    network answers, a submission of text without a file sends exactly one
    request, to the edit endpoint, carrying either the selected slide and
    no plan or no slide and the whole plan; afterwards the workspace still
    has a plan with the same slide ids in the same order, and the same
    style. *)
Theorem text_alone_never_replaces_a_plan
    (stringify_log : list string -> string)
    (stringify_steps : list (string * string) -> string)
    (net : PlanChat.Network) (text : string) (p : PlanChat.Page)
    (plan0 : SlidePlan) :
  text <> "" ->
  ws_plan (PlanChat.workspace p) = Some plan0 ->
  let w := PlanChat.workspace p in
  let p' := PlanChat.handleSubmission stringify_log stringify_steps
              net text None p in
  PlanChat.sent p'
  = PlanChat.sent p
      ++ [PlanChat.EditSlide text (selectedSlide w)
            (match selectedSlide w with
             | Some _ => None
             | None => Some plan0
             end) (ws_styleDef w)]
  /\ (exists plan1,
         ws_plan (PlanChat.workspace p') = Some plan1
         /\ map slide_id (slides plan1) = map slide_id (slides plan0))
  /\ ws_styleDef (PlanChat.workspace p') = ws_styleDef w.
Proof.
  intros Htext Hplan w p'. subst w p'.
  unfold PlanChat.handleSubmission, truthy.
  rewrite (bool_decide_eq_false_2 _ Htext). cbn [negb andb].
  destruct p as [w [l loading0 error0 sid] reqs].
  cbn [PlanChat.workspace] in Hplan.
  unfold PlanChat.processBackendCall, PlanChat.isEdit.
  cbn [PlanChat.workspace PlanChat.chat PlanChat.sent PlanChat.messages
       PlanChat.streamSessionId].
  rewrite Hplan. rewrite bool_decide_eq_true_2 by by eexists.
  rewrite (bool_decide_eq_true_2 _ eq_refl). cbn [andb].
  match goal with |- context [PlanChat.edit net text ?q] =>
    pose proof (PlanChatFacts.edit_outcome net text w
                  (PlanChat.messages (PlanChat.chat q)) true None sid reqs)
      as H end.
  cbn [PlanChat.chat PlanChat.messages] in H. cbv zeta in H.
  destruct H as (Hsent & _ & _ & _ & Hanswer).
  split_and!.
  - rewrite Hsent, Hplan. by destruct (selectedSlide w).
  - destruct (PlanChat.edit_answer net) as [| |updated].
    + destruct Hanswer as (-> & _). by exists plan0.
    + destruct Hanswer as (-> & _). by exists plan0.
    + destruct Hanswer as (-> & _). unfold handleSlideUpdated. simpl.
      rewrite Hplan. simpl. eexists. split; [done |]. simpl.
      apply replaced_ids.
  - by destruct (PlanChat.edit_answer net); destruct Hanswer as (-> & _).
Qed.

Lemma text_alone_never_replaces_a_plan_witness :
  exists plan1,
    ws_plan (PlanChat.workspace
       (PlanChat.handleSubmission sample_stringify_log sample_stringify_steps
          sample_network "Make the title brighter" None sample_page))
    = Some plan1
    /\ map slide_id (slides plan1) = map slide_id (slides sample_plan).
Proof.
  exact (proj1 (proj2 (text_alone_never_replaces_a_plan sample_stringify_log
                         sample_stringify_steps sample_network
                         "Make the title brighter" sample_page sample_plan
                         ltac:(discriminate) eq_refl))).
Defined.

(** X30. A plan that was generated reaches the workspace. When there is
    no plan yet, or a file is attached, and both the style request and the
    plan request succeed, the pane has sent exactly those two requests,
    the second one with the style the first one returned and with the
    stream session id; the workspace holds the new plan and that style,
    with no slide selected and no regenerate signal; the stream session id
    is cleared, the error the submission started from stays cleared, and
    the last message tells the number of slides. *)
Theorem generated_plan_reaches_the_workspace
    (stringify_log : list string -> string)
    (stringify_steps : list (string * string) -> string)
    (net : PlanChat.Network) (text : string) (file : option PlanChat.File)
    (p : PlanChat.Page) (sd : option StyleDef) (data : SlidePlan) :
  (text <> "" \/ file <> None) ->
  PlanChat.isEdit (PlanChat.workspace p) file = false ->
  PlanChat.style_answer net = PlanChat.Ok sd ->
  PlanChat.plan_answer net = PlanChat.Ok data ->
  let p' := PlanChat.handleSubmission stringify_log stringify_steps
              net text file p in
  PlanChat.sent p'
  = PlanChat.sent p
      ++ [PlanChat.Style text file;
          PlanChat.Plan (PlanChat.session_id net) text sd]
  /\ PlanChat.workspace p'
     = handlePlanGenerated data sd (PlanChat.workspace p)
  /\ PlanChat.streamSessionId (PlanChat.chat p') = None
  /\ PlanChat.error (PlanChat.chat p') = None
  /\ PlanChat.loading (PlanChat.chat p') = false
  /\ last (PlanChat.messages (PlanChat.chat p'))
     = Some (PlanChat.ai ("Created a plan with "
                          ++ pretty (length (slides data))
                          ++ " slides. Check the preview!")%string).
Proof.
  intros Hsome Hgen Hstyle Hplan p'. subst p'.
  unfold PlanChat.handleSubmission, truthy.
  assert (Hguard : negb (negb (bool_decide (text = "")))
                   && bool_decide (file = None) = false).
  { rewrite negb_involutive. destruct Hsome as [Ht | Hf].
    - by rewrite (bool_decide_eq_false_2 _ Ht).
    - rewrite (bool_decide_eq_false_2 _ Hf). by rewrite andb_false_r. }
  rewrite Hguard.
  destruct p as [w [l loading0 error0 sid] reqs].
  cbn [PlanChat.workspace] in Hgen.
  unfold PlanChat.processBackendCall.
  cbn [PlanChat.workspace PlanChat.chat PlanChat.sent PlanChat.messages
       PlanChat.streamSessionId].
  rewrite Hgen.
  match goal with |- context [PlanChat.generate _ _ net text file ?q] =>
    pose proof (PlanChatFacts.generate_outcome stringify_log stringify_steps
                  net text file w
                  (PlanChat.messages (PlanChat.chat q)) true None sid reqs)
      as H end.
  cbn [PlanChat.chat PlanChat.messages] in H. cbv zeta in H.
  rewrite Hstyle, Hplan in H.
  destruct H as (_ & _ & Hload & _ & Hw & Hsent & Herr & Hsid & Hlast).
  by split_and!.
Qed.

Lemma generated_plan_reaches_the_workspace_witness :
  ws_plan (PlanChat.workspace
     (PlanChat.handleSubmission sample_stringify_log sample_stringify_steps
        sample_network "Slides about tea" None
        {| PlanChat.workspace := initialWorkspace;
           PlanChat.chat := PlanChat.initial; PlanChat.sent := [] |}))
  = Some sample_plan.
Proof.
  destruct (generated_plan_reaches_the_workspace sample_stringify_log
              sample_stringify_steps sample_network "Slides about tea" None
              {| PlanChat.workspace := initialWorkspace;
                 PlanChat.chat := PlanChat.initial; PlanChat.sent := [] |}
              None sample_plan
              ltac:(left; discriminate) eq_refl eq_refl eq_refl)
    as (_ & Hw & _).
  by rewrite Hw.
Defined.
